(** * The protocol client of the Lynx DevTool front end

    A shallow embedding of the transport and dispatch core of
    [InspectorBackend.ts] (qualified names, [SessionRouter], [TargetBase],
    [_AgentPrototype], [DispatcherManager]) and, from [DOMModel.ts], of
    [DOMModelUndoStack] and the attributes of a [DOMNode], followed by the
    properties proved about them.

    Conventions of the embedding.
    - A JavaScript object that the code only refers to (a target, a
      connection, a handler, a DOM model, a promise) is a [nat]: its identity.
    - A [Map] that the code iterates is an insertion-ordered association list
      ([JsMap]); an object or [Map] used for lookup only is a [gmap]; a [Set]
      is a [gset].
    - A JavaScript number that holds an integer is a [Z]. The counter of
      message ids, which only grows over the life of a router, is incremented
      as the double it is ([Number_increment]): exact up to 2^53, and stuck
      there. The counter of pending responses, which counts requests in
      flight, is plain [Z]: exact below 2^53, the range in which it is used.
    - An error object is a record of the properties the interface
      [MessageError] declares, written out by [JSON.stringify] in the order
      of the interface; [data], which may be missing, is there or not.
    - What the code does to the outside world (the wire, the console, the
      handlers and callbacks it calls, the promises it resolves) is appended to
      a log of [Effect]s; [setTimeout] bodies wait in a queue of [Task]s.
    - The wall clock ([Date.now]), the latency statistics sent to the host and
      the commented-out console output are not part of the log. *)

From Stdlib Require Import ZArith List String Ascii Bool Lia Sorted.
From stdpp Require Import base decidable option list gmap strings pretty.

Open Scope Z_scope.
Set Warnings "-register-all".

(** ** JavaScript values *)

Inductive JsValue :=
| JsUndefined
| JsNull
| JsBoolean (b : bool)
| JsNumber (n : Z)
| JsString (s : string)
| JsFunction (f : nat)
| JsArray (items : list JsValue)
| JsObject (fields : list (string * JsValue)).

(** An object literal: own properties in insertion order. *)
Abbreviation Obj := (list (string * JsValue)).

(** [typeof value] *)
Definition typeof (v : JsValue) : string :=
  match v with
  | JsUndefined => "undefined"
  | JsNull => "object"
  | JsBoolean _ => "boolean"
  | JsNumber _ => "number"
  | JsString _ => "string"
  | JsFunction _ => "function"
  | JsArray _ => "object"
  | JsObject _ => "object"
  end.

(** The value as a condition: [if (value)], [!value], [value || other]. *)
Definition truthy (v : JsValue) : bool :=
  match v with
  | JsUndefined | JsNull => false
  | JsBoolean b => b
  | JsNumber n => negb (n =? 0)
  | JsString s => negb (String.eqb s "")
  | JsFunction _ | JsArray _ | JsObject _ => true
  end.

(** [object[key] = value] *)
Fixpoint obj_set (o : Obj) (key : string) (value : JsValue) : Obj :=
  match o with
  | [] => [(key, value)]
  | (k, v) :: rest =>
      if String.eqb k key then (k, value) :: rest else (k, v) :: obj_set rest key value
  end.

(** The one-character strings of a string, with their indices from [i]. *)
Fixpoint string_entries (i : nat) (s : string) : Obj :=
  match s with
  | EmptyString => []
  | String c rest => (pretty i, JsString (String c EmptyString)) :: string_entries (S i) rest
  end.

(** The elements of an array, with their indices from [i]. *)
Fixpoint array_entries (i : nat) (items : list JsValue) : Obj :=
  match items with
  | [] => []
  | x :: rest => (pretty i, x) :: array_entries (S i) rest
  end.

(** [{...value}]: a fresh object with the own enumerable properties of [value]. *)
Definition spread (v : JsValue) : Obj :=
  match v with
  | JsObject fields => fields
  | JsString s => string_entries 0 s
  | JsArray items => array_entries 0 items
  | _ => []
  end.

(** ** [Map]: insertion-ordered *)

Section JsMap.
Context {K V : Type} `{EqDecision K}.

Definition JsMap := list (K * V).

(** [map.get(key)] *)
Fixpoint map_get (key : K) (m : list (K * V)) : option V :=
  match m with
  | [] => None
  | (k, v) :: rest => if decide (k = key) then Some v else map_get key rest
  end.

(** [map.set(key, value)]: an existing key keeps its place. *)
Fixpoint map_set (key : K) (value : V) (m : list (K * V)) : list (K * V) :=
  match m with
  | [] => [(key, value)]
  | (k, v) :: rest =>
      if decide (k = key) then (k, value) :: rest else (k, v) :: map_set key value rest
  end.

(** [map.delete(key)] *)
Fixpoint map_delete (key : K) (m : list (K * V)) : list (K * V) :=
  match m with
  | [] => []
  | (k, v) :: rest => if decide (k = key) then rest else (k, v) :: map_delete key rest
  end.

(** [map.values()] *)
Definition map_values (m : list (K * V)) : list V := map snd m.

End JsMap.

Arguments JsMap : clear implicits.

(** ** Qualified names *)

(** [string.split(separator)] for a one-character separator. *)
Fixpoint split (separator : ascii) (s : string) : list string :=
  match s with
  | EmptyString => [EmptyString]
  | String c rest =>
      if Ascii.eqb c separator then EmptyString :: split separator rest
      else match split separator rest with
           | [] => [String c EmptyString]
           | piece :: pieces => String c piece :: pieces
           end
  end.

(** [const [domain, eventName] = string.split('.')]: the first two pieces; the
    second is [None] ([undefined]) when there is no dot. *)
Definition splitQualifiedName (s : string) : string * option string :=
  let pieces := split "." s in
  (List.hd EmptyString pieces, List.nth_error pieces 1).

Definition qualifyName (domain name : string) : string :=
  domain +:+ "." +:+ name.

(** The number of occurrences of a character. *)
Fixpoint occurrences (c : ascii) (s : string) : nat :=
  match s with
  | EmptyString => 0%nat
  | String c' rest => ((if Ascii.eqb c' c then 1 else 0) + occurrences c rest)%nat
  end.

(** The part of a string before the first occurrence of a character (all of
    it when there is none), and the part after it. *)
Fixpoint before_first (c : ascii) (s : string) : string :=
  match s with
  | EmptyString => EmptyString
  | String c' rest => if Ascii.eqb c' c then EmptyString else String c' (before_first c rest)
  end.

Fixpoint after_first (c : ascii) (s : string) : string :=
  match s with
  | EmptyString => EmptyString
  | String c' rest => if Ascii.eqb c' c then rest else after_first c rest
  end.

(** ** Numbers *)

(** A JavaScript number is a double. The integer [z] as a number is the
    nearest double, and of two that are equally near the one with the even
    mantissa: [z] itself up to 2^53 in absolute value, beyond that a
    multiple of the [2^e] that leaves the mantissa 53 bits. (The doubles end
    near 2^1024; the infinities are not modelled.) *)
Definition Number_of_Z (z : Z) : Z :=
  let a := Z.abs z in
  if a <? 2 ^ 53 then z
  else
    let e := Z.log2 a - 52 in
    let q := a / 2 ^ e in
    let rest := a mod 2 ^ e in
    let half := 2 ^ (e - 1) in
    let q := if (rest <? half) || ((rest =? half) && Z.even q) then q else q + 1 in
    Z.sgn z * (q * 2 ^ e).

(** [x + 1] for a number that holds the integer [x]: what [x++] leaves in
    [x]. *)
Definition Number_increment (x : Z) : Z := Number_of_Z (x + 1).

(** The number up to which every integer is a number of its own: 2^53, one
    more than [Number.MAX_SAFE_INTEGER]. *)
Definition exact_limit : Z := 9007199254740992.

(** ** Protocol data *)

Definition DevToolsStubErrorCode : Z := -32015.
Definition GenericError : Z := -32000.
Definition ConnectionClosedErrorCode : Z := -32001.

(** [data?: string|null] of an error: no such property, [null], or a
    string. *)
Inductive ErrorData :=
| NoData
| NullData
| StringData (s : string).

Module MessageError.
Record t := { code : Z; message : string; data : ErrorData }.
End MessageError.

(** A protocol message. An absent ([undefined]) field is [None]; the payloads
    [params] and [result] are values ([JsUndefined] when absent). [compress] is
    the flag of an [EventMessage]. The [timestamp] field is left out (see the
    conventions above). *)
Module Message.
Record t := {
  sessionId : option string;
  url : option string;
  id : option Z;
  error : option MessageError.t;
  result : JsValue;
  domain : option string;
  method : option string;
  params : JsValue;
  compress : bool
}.
End Message.

Module CommandParameter.
Record t := { name : string; type : string; optional : bool }.
End CommandParameter.

(** The functions of type [Callback] that reach a router. Each closure the
    agent code creates belongs to one call, whose promise names it. *)
Inductive Callback :=
| ExternalCallback (f : nat)
    (* a function of the caller of sendMessage *)
| NoopCallback
    (* (): void => {} of _sendRawMessageForTesting *)
| CommandCallback (target : nat) (agentDomain : string) (method : string) (promise : nat)
    (* the closure of _sendMessageToBackendPromise *)
| InvokeCallback (target : nat) (agentDomain : string) (method : string) (promise : nat).
    (* the closure of _invoke *)

#[global] Instance Callback_eq_dec : EqDecision Callback.
Proof. solve_decision. Defined.

Module CallbackWithDebugInfo.
Record t := { callback : Callback; method : string }.
End CallbackWithDebugInfo.

(** The body of a [setTimeout(..., 0)]. *)
Inductive Task :=
| CallLater (callback : Callback) (error : MessageError.t)
    (* () => callback(error, null) *)
| CheckPendingDispatches (router : nat).
    (* the arrow function of _deprecatedRunAfterPendingDispatches *)

(** What a promise of the agent code is resolved with. *)
Inductive Resolution :=
| ResolvedValue (v : JsValue)
    (* resolve(v) *)
| ResolvedResponse (result : JsValue) (errorMessage : option string).
    (* resolve({...result, getError: () => errorMessage}) *)

Inductive Effect :=
| SendRawMessage (router connection : nat) (message : Message.t)
    (* this._connection.sendRawMessage(JSON.stringify(messageObject)), [this]
       being the router at that address *)
| ProxyOnMessage (connection : nat) (message : Message.t)
    (* session.proxyConnection._onMessage(messageObject) *)
| CallbackInvoked (callback : Callback) (error : option MessageError.t) (result : JsValue)
    (* callback(error, result) *)
| PromiseResolved (promise : nat) (value : Resolution)
| HandlerInvoked (handler : nat) (event : string) (messageParams : nat)
    (* f.call(dispatcher, messageParams); the object is named by its address *)
| ScriptRun (script : nat)
| SetTimeout (task : Task)
| ConsoleError (text : string)
| ConsoleWarn (text : string)
| ConsoleLog (arguments : list JsValue)
| DumpProtocol (frontend : bool) (message : option Message.t)
    (* test.dumpProtocol('frontend: ' + ...) or ('backend: ' + ...) *)
| OnMessageSent (message : Message.t) (domain : string) (target : option nat)
| OnMessageReceived (message : Message.t) (target : option nat)
| DevtoolStats (message : Message.t)
    (* Host.InspectorFrontendHost.sendWindowMessage({type: 'devtool_stats', ...}) *)
| Thrown (text : string).
    (* an exception that leaves the entry point *)

(** The object [test] and the flag [window.devtoolStatsRecording]. A hook of
    [test] is a function of the tests: what matters here is whether it is
    set. [deprecatedRunAfterPendingDispatches] and [sendRawMessage] are bound
    to the router constructed last. *)
Module Globals.
Record t := {
  dumpProtocol : bool;
  deprecatedRunAfterPendingDispatches : option nat;
  sendRawMessage : option nat;
  suppressRequestErrors : bool;
  onMessageSent : bool;
  onMessageReceived : bool;
  devtoolStatsRecording : option bool
}.
End Globals.

(** What the code calls and this repository does not contain: the engine's
    [JSON.stringify], [NodeURL.patch] (which rewrites the [url] properties
    of a message and of its payloads), and the chain
    [base64js.toByteArray], [Zlib.Inflate], [TextDecoder], [JSON.parse] that
    decodes a compressed payload ([None]: one of them throws); and the
    built-in prototypes of the engine: [prototype_property value key] is
    what [value[key]] gives when [value] has no own property [key] (the
    methods of [Object.prototype], [Array.prototype] and the like,
    [undefined] for other names). *)
Class Externals := {
  JSON_stringify : JsValue -> string;
  patch_url : string -> string;
  patch_payload : JsValue -> JsValue;
  inflate : JsValue -> option JsValue;
  prototype_property : JsValue -> string -> JsValue
}.

Module Session.
Record t := {
  target : nat;
  callbacks : JsMap Z CallbackWithDebugInfo.t;
  proxyConnection : option nat
}.
End Session.

Module SessionRouter.
Record t := {
  _connection : nat;
  _lastMessageId : Z;
  _pendingResponsesCount : Z;
  _pendingLongPollingMessageIds : gset Z;
  _sessions : JsMap string Session.t;
  _pendingScripts : list nat
}.
End SessionRouter.

(** A handler object registered with a dispatcher manager, and the names
    [event in dispatcher] holds for. *)
Module Handler.
Record t := { object : nat; properties : list string }.
End Handler.

Module DispatcherManager.
Record t := {
  eventArgs : gmap string (list string);
  dispatchers : list Handler.t
}.
End DispatcherManager.

Module TargetBase.
Record t := {
  _needsNodeJSPatching : bool;
  _sessionId : string;
  _router : option nat;
  agents : gset string;
  dispatchers : gmap string DispatcherManager.t
}.
End TargetBase.

(** The state of one [_AgentPrototype]. The agents of the targets are created
    from it by [Object.create] and add only [_target]: the tables below are
    shared by the agents of a domain. [commands] are the methods
    [registerCommand] installs, by unqualified name, each with the parameter
    schema its closure holds. *)
Module AgentPrototype.
Record t := {
  _replyArgs : gmap string (list string);
  _domain : string;
  _debouncedMethods : list string;
  _cachedMessages : gmap string (Message.t * Callback);
  _unresolvedMessages : gmap string Z;
  commands : gmap string (list CommandParameter.t)
}.
End AgentPrototype.

(** The objects of the program. Routers, targets and parameter objects are
    referred to by their index in [routers], [targets] and [heap]. *)
Module World.
Record t := {
  routers : list SessionRouter.t;
  targets : list TargetBase.t;
  _agentPrototypes : gmap string AgentPrototype.t;
  eventParameterNamesForDomain : gmap string (gmap string (list string));
  connectionFactory : option nat;
  onMessageHandlers : gset nat;
  globals : Globals.t;
  heap : list Obj;
  timers : list Task;
  promises : nat;
  log : list Effect
}.
End World.

(** ** Field updates *)

Definition router_with_callbacks (sessionId : string) (session : Session.t)
    (callbacks : JsMap Z CallbackWithDebugInfo.t) (r : SessionRouter.t) : SessionRouter.t :=
  {| SessionRouter._connection := SessionRouter._connection r;
     SessionRouter._lastMessageId := SessionRouter._lastMessageId r;
     SessionRouter._pendingResponsesCount := SessionRouter._pendingResponsesCount r;
     SessionRouter._pendingLongPollingMessageIds := SessionRouter._pendingLongPollingMessageIds r;
     SessionRouter._sessions :=
       map_set sessionId
         {| Session.target := Session.target session;
            Session.callbacks := callbacks;
            Session.proxyConnection := Session.proxyConnection session |}
         (SessionRouter._sessions r);
     SessionRouter._pendingScripts := SessionRouter._pendingScripts r |}.

Definition router_with_sessions (sessions : JsMap string Session.t) (r : SessionRouter.t)
    : SessionRouter.t :=
  {| SessionRouter._connection := SessionRouter._connection r;
     SessionRouter._lastMessageId := SessionRouter._lastMessageId r;
     SessionRouter._pendingResponsesCount := SessionRouter._pendingResponsesCount r;
     SessionRouter._pendingLongPollingMessageIds := SessionRouter._pendingLongPollingMessageIds r;
     SessionRouter._sessions := sessions;
     SessionRouter._pendingScripts := SessionRouter._pendingScripts r |}.

Definition router_with_pending (count : Z) (longPolling : gset Z) (r : SessionRouter.t)
    : SessionRouter.t :=
  {| SessionRouter._connection := SessionRouter._connection r;
     SessionRouter._lastMessageId := SessionRouter._lastMessageId r;
     SessionRouter._pendingResponsesCount := count;
     SessionRouter._pendingLongPollingMessageIds := longPolling;
     SessionRouter._sessions := SessionRouter._sessions r;
     SessionRouter._pendingScripts := SessionRouter._pendingScripts r |}.

Definition router_with_scripts (scripts : list nat) (r : SessionRouter.t) : SessionRouter.t :=
  {| SessionRouter._connection := SessionRouter._connection r;
     SessionRouter._lastMessageId := SessionRouter._lastMessageId r;
     SessionRouter._pendingResponsesCount := SessionRouter._pendingResponsesCount r;
     SessionRouter._pendingLongPollingMessageIds := SessionRouter._pendingLongPollingMessageIds r;
     SessionRouter._sessions := SessionRouter._sessions r;
     SessionRouter._pendingScripts := scripts |}.

Definition agent_with_messages (cached : gmap string (Message.t * Callback))
    (unresolved : gmap string Z) (a : AgentPrototype.t) : AgentPrototype.t :=
  {| AgentPrototype._replyArgs := AgentPrototype._replyArgs a;
     AgentPrototype._domain := AgentPrototype._domain a;
     AgentPrototype._debouncedMethods := AgentPrototype._debouncedMethods a;
     AgentPrototype._cachedMessages := cached;
     AgentPrototype._unresolvedMessages := unresolved;
     AgentPrototype.commands := AgentPrototype.commands a |}.

Definition target_with_router (router : option nat) (t : TargetBase.t) : TargetBase.t :=
  {| TargetBase._needsNodeJSPatching := TargetBase._needsNodeJSPatching t;
     TargetBase._sessionId := TargetBase._sessionId t;
     TargetBase._router := router;
     TargetBase.agents := TargetBase.agents t;
     TargetBase.dispatchers := TargetBase.dispatchers t |}.

Definition target_with_dispatchers (dispatchers : gmap string DispatcherManager.t)
    (t : TargetBase.t) : TargetBase.t :=
  {| TargetBase._needsNodeJSPatching := TargetBase._needsNodeJSPatching t;
     TargetBase._sessionId := TargetBase._sessionId t;
     TargetBase._router := TargetBase._router t;
     TargetBase.agents := TargetBase.agents t;
     TargetBase.dispatchers := dispatchers |}.

Definition with_routers (routers : list SessionRouter.t) (w : World.t) : World.t :=
  {| World.routers := routers;
     World.targets := World.targets w;
     World._agentPrototypes := World._agentPrototypes w;
     World.eventParameterNamesForDomain := World.eventParameterNamesForDomain w;
     World.connectionFactory := World.connectionFactory w;
     World.onMessageHandlers := World.onMessageHandlers w;
     World.globals := World.globals w;
     World.heap := World.heap w;
     World.timers := World.timers w;
     World.promises := World.promises w;
     World.log := World.log w |}.

Definition with_targets (targets : list TargetBase.t) (w : World.t) : World.t :=
  {| World.routers := World.routers w;
     World.targets := targets;
     World._agentPrototypes := World._agentPrototypes w;
     World.eventParameterNamesForDomain := World.eventParameterNamesForDomain w;
     World.connectionFactory := World.connectionFactory w;
     World.onMessageHandlers := World.onMessageHandlers w;
     World.globals := World.globals w;
     World.heap := World.heap w;
     World.timers := World.timers w;
     World.promises := World.promises w;
     World.log := World.log w |}.

Definition with_agentPrototypes (prototypes : gmap string AgentPrototype.t) (w : World.t)
    : World.t :=
  {| World.routers := World.routers w;
     World.targets := World.targets w;
     World._agentPrototypes := prototypes;
     World.eventParameterNamesForDomain := World.eventParameterNamesForDomain w;
     World.connectionFactory := World.connectionFactory w;
     World.onMessageHandlers := World.onMessageHandlers w;
     World.globals := World.globals w;
     World.heap := World.heap w;
     World.timers := World.timers w;
     World.promises := World.promises w;
     World.log := World.log w |}.

Definition with_globals (globals : Globals.t) (w : World.t) : World.t :=
  {| World.routers := World.routers w;
     World.targets := World.targets w;
     World._agentPrototypes := World._agentPrototypes w;
     World.eventParameterNamesForDomain := World.eventParameterNamesForDomain w;
     World.connectionFactory := World.connectionFactory w;
     World.onMessageHandlers := World.onMessageHandlers w;
     World.globals := globals;
     World.heap := World.heap w;
     World.timers := World.timers w;
     World.promises := World.promises w;
     World.log := World.log w |}.

Definition with_heap (heap : list Obj) (w : World.t) : World.t :=
  {| World.routers := World.routers w;
     World.targets := World.targets w;
     World._agentPrototypes := World._agentPrototypes w;
     World.eventParameterNamesForDomain := World.eventParameterNamesForDomain w;
     World.connectionFactory := World.connectionFactory w;
     World.onMessageHandlers := World.onMessageHandlers w;
     World.globals := World.globals w;
     World.heap := heap;
     World.timers := World.timers w;
     World.promises := World.promises w;
     World.log := World.log w |}.

Definition with_timers (timers : list Task) (w : World.t) : World.t :=
  {| World.routers := World.routers w;
     World.targets := World.targets w;
     World._agentPrototypes := World._agentPrototypes w;
     World.eventParameterNamesForDomain := World.eventParameterNamesForDomain w;
     World.connectionFactory := World.connectionFactory w;
     World.onMessageHandlers := World.onMessageHandlers w;
     World.globals := World.globals w;
     World.heap := World.heap w;
     World.timers := timers;
     World.promises := World.promises w;
     World.log := World.log w |}.

Definition with_promises (promises : nat) (w : World.t) : World.t :=
  {| World.routers := World.routers w;
     World.targets := World.targets w;
     World._agentPrototypes := World._agentPrototypes w;
     World.eventParameterNamesForDomain := World.eventParameterNamesForDomain w;
     World.connectionFactory := World.connectionFactory w;
     World.onMessageHandlers := World.onMessageHandlers w;
     World.globals := World.globals w;
     World.heap := World.heap w;
     World.timers := World.timers w;
     World.promises := promises;
     World.log := World.log w |}.

Definition with_log (log : list Effect) (w : World.t) : World.t :=
  {| World.routers := World.routers w;
     World.targets := World.targets w;
     World._agentPrototypes := World._agentPrototypes w;
     World.eventParameterNamesForDomain := World.eventParameterNamesForDomain w;
     World.connectionFactory := World.connectionFactory w;
     World.onMessageHandlers := World.onMessageHandlers w;
     World.globals := World.globals w;
     World.heap := World.heap w;
     World.timers := World.timers w;
     World.promises := World.promises w;
     World.log := log |}.

(** The tasks a list of effects hands to [setTimeout], in order. *)
Fixpoint scheduled (effects : list Effect) : list Task :=
  match effects with
  | [] => []
  | SetTimeout task :: rest => task :: scheduled rest
  | _ :: rest => scheduled rest
  end.

(** The effects happen: they are logged, and the timer bodies are queued. *)
Definition emit (effects : list Effect) (w : World.t) : World.t :=
  with_log (World.log w ++ effects) (with_timers (World.timers w ++ scheduled effects) w).

(** The router at an address is replaced. *)
Definition put_router (r : nat) (router : SessionRouter.t) (w : World.t) : World.t :=
  with_routers (<[r := router]> (World.routers w)) w.

Definition put_target (t : nat) (target : TargetBase.t) (w : World.t) : World.t :=
  with_targets (<[t := target]> (World.targets w)) w.

(** ** Values handed to [JSON.stringify] *)

(** The property [data] of an error object, when it has one. *)
Definition present_data (d : ErrorData) : Obj :=
  match d with
  | NoData => []
  | NullData => [("data", JsNull)]
  | StringData s => [("data", JsString s)]
  end.

Definition MessageError_to_js (e : MessageError.t) : JsValue :=
  JsObject ([("code", JsNumber (MessageError.code e));
             ("message", JsString (MessageError.message e))]
            ++ present_data (MessageError.data e)).

Definition CommandParameter_to_js (p : CommandParameter.t) : JsValue :=
  JsObject [("name", JsString (CommandParameter.name p));
            ("type", JsString (CommandParameter.type p));
            ("optional", JsBoolean (CommandParameter.optional p))].

Definition present_string (key : string) (o : option string) : Obj :=
  match o with Some s => [(key, JsString s)] | None => [] end.

Definition present_value (key : string) (v : JsValue) : Obj :=
  match v with JsUndefined => [] | _ => [(key, v)] end.

Definition Message_to_js (m : Message.t) : JsValue :=
  JsObject
    (present_string "sessionId" (Message.sessionId m) ++
     present_string "url" (Message.url m) ++
     match Message.id m with Some i => [("id", JsNumber i)] | None => [] end ++
     match Message.error m with Some e => [("error", MessageError_to_js e)] | None => [] end ++
     present_value "result" (Message.result m) ++
     present_string "domain" (Message.domain m) ++
     present_string "method" (Message.method m) ++
     present_value "params" (Message.params m) ++
     (if Message.compress m then [("compress", JsBoolean true)] else [])).

(** ** [InspectorBackend]: the reporting hooks *)

(** [reportProtocolError]: its body is commented out in the source. *)
Definition reportProtocolError (error : string) (messageObject : Message.t) : list Effect := [].

Definition reportProtocolWarning `{Externals} (error : string) (messageObject : Message.t)
    : list Effect :=
  [ConsoleWarn (error +:+ ": " +:+ JSON_stringify (Message_to_js messageObject))].

(** ** [SessionRouter] *)

Definition LongPollingMethods : gset string := {["CSS.takeComputedStyleUpdates"]}.

(** [new SessionRouter(connection)], the state it starts in. *)
Definition SessionRouter_new (connection : nat) : SessionRouter.t :=
  {| SessionRouter._connection := connection;
     SessionRouter._lastMessageId := 1;
     SessionRouter._pendingResponsesCount := 0;
     SessionRouter._pendingLongPollingMessageIds := ∅;
     SessionRouter._sessions := [];
     SessionRouter._pendingScripts := [] |}.

Definition has_proxyConnection (session : Session.t) : bool :=
  match Session.proxyConnection session with Some _ => true | None => false end.

Definition SessionRouter_registerSession (r : SessionRouter.t) (target : nat)
    (sessionId : string) (proxyConnection : option nat) : SessionRouter.t * list Effect :=
  let complaint :=
    match proxyConnection with
    | Some _ =>
        if existsb has_proxyConnection (map_values (SessionRouter._sessions r))
        then [ConsoleError "Multiple simultaneous proxy connections are currently unsupported"]
        else []
    | None => []
    end in
  (router_with_sessions
     (map_set sessionId
        {| Session.target := target;
           Session.callbacks := [];
           Session.proxyConnection := proxyConnection |}
        (SessionRouter._sessions r)) r,
   complaint).

Definition dispatchConnectionError (callback : Callback) (method : string) : Effect :=
  SetTimeout
    (CallLater callback
       {| MessageError.message :=
            "Connection is closed, can't dispatch pending call to " +:+ method;
          MessageError.code := ConnectionClosedErrorCode;
          MessageError.data := NullData |}).

Definition dispatchUnregisterSessionError (entry : CallbackWithDebugInfo.t) : Effect :=
  SetTimeout
    (CallLater (CallbackWithDebugInfo.callback entry)
       {| MessageError.message :=
            "Session is unregistering, can't dispatch pending call to "
              +:+ CallbackWithDebugInfo.method entry;
          MessageError.code := ConnectionClosedErrorCode;
          MessageError.data := NullData |}).

Definition SessionRouter_unregisterSession (r : SessionRouter.t) (sessionId : string)
    : SessionRouter.t * list Effect :=
  match map_get sessionId (SessionRouter._sessions r) with
  | None => (r, [])
  | Some session =>
      (router_with_sessions (map_delete sessionId (SessionRouter._sessions r)) r,
       map dispatchUnregisterSessionError (map_values (Session.callbacks session)))
  end.

Definition SessionRouter_getTargetBySessionId (r : SessionRouter.t) (sessionId : option string)
    : option nat :=
  match map_get (default "" sessionId) (SessionRouter._sessions r) with
  | None => None
  | Some session => Some (Session.target session)
  end.

(** [return this._lastMessageId++]: the value before the increment, and the
    router after it. The increment is that of a double. *)
Definition SessionRouter_nextMessageId (r : SessionRouter.t) : Z * SessionRouter.t :=
  (SessionRouter._lastMessageId r,
   {| SessionRouter._connection := SessionRouter._connection r;
      SessionRouter._lastMessageId := Number_increment (SessionRouter._lastMessageId r);
      SessionRouter._pendingResponsesCount := SessionRouter._pendingResponsesCount r;
      SessionRouter._pendingLongPollingMessageIds := SessionRouter._pendingLongPollingMessageIds r;
      SessionRouter._sessions := SessionRouter._sessions r;
      SessionRouter._pendingScripts := SessionRouter._pendingScripts r |}).

(** [window.devtoolStatsRecording || window.devtoolStatsRecording === undefined] *)
Definition statsRecording (g : Globals.t) : bool :=
  match Globals.devtoolStatsRecording g with
  | Some b => b
  | None => true
  end.

(** The [messageObject] of [sendMessage]: [{id, method}] with [params] and
    [sessionId] when they are given. *)
Definition command_message (messageId : Z) (method : string) (params : JsValue)
    (sessionId : string) : Message.t :=
  {| Message.id := Some messageId;
     Message.method := Some method;
     Message.params := if truthy params then params else JsUndefined;
     Message.sessionId := if String.eqb sessionId "" then None else Some sessionId;
     Message.url := None;
     Message.error := None;
     Message.result := JsUndefined;
     Message.domain := None;
     Message.compress := false |}.

Definition SessionRouter_sendMessage (g : Globals.t) (self : nat) (r : SessionRouter.t)
    (sessionId domain method : string) (params : JsValue) (callback : Callback)
    : SessionRouter.t * list Effect :=
  let '(messageId, r) := SessionRouter_nextMessageId r in
  let messageObject := command_message messageId method params sessionId in
  let dumped :=
    if Globals.dumpProtocol g then [DumpProtocol true (Some messageObject)] else [] in
  let notified :=
    if Globals.onMessageSent g
    then [OnMessageSent
            {| Message.id := Some messageId;
               Message.method := Some method;
               Message.params := if truthy params then params else JsObject [];
               Message.sessionId := Some sessionId;
               Message.url := None;
               Message.error := None;
               Message.result := JsUndefined;
               Message.domain := Some domain;
               Message.compress := false |}
            domain
            (SessionRouter_getTargetBySessionId r (Some sessionId))]
    else [] in
  let r :=
    router_with_pending
      (SessionRouter._pendingResponsesCount r + 1)
      (if bool_decide (method ∈ LongPollingMethods)
       then {[messageId]} ∪ SessionRouter._pendingLongPollingMessageIds r
       else SessionRouter._pendingLongPollingMessageIds r)
      r in
  match map_get sessionId (SessionRouter._sessions r) with
  | None => (r, dumped ++ notified)
  | Some session =>
      (router_with_callbacks sessionId session
         (map_set messageId
            {| CallbackWithDebugInfo.callback := callback;
               CallbackWithDebugInfo.method := method |}
            (Session.callbacks session))
         r,
       dumped ++ notified
         ++ [SendRawMessage self (SessionRouter._connection r) messageObject]
         ++ (if statsRecording g then [DevtoolStats messageObject] else []))
  end.

Definition SessionRouter_sendRawMessageForTesting (g : Globals.t) (self : nat)
    (r : SessionRouter.t) (method : string) (params : JsValue) (callback : option Callback)
    : SessionRouter.t * list Effect :=
  let domain := List.hd EmptyString (split "." method) in
  SessionRouter_sendMessage g self r "" domain method params (default NoopCallback callback).

Definition SessionRouter_hasOutstandingNonLongPollingRequests (r : SessionRouter.t) : bool :=
  0 <? SessionRouter._pendingResponsesCount r
        - Z.of_nat (size (SessionRouter._pendingLongPollingMessageIds r)).

(** [_deprecatedRunAfterPendingDispatches(script?)] *)
Definition SessionRouter_deprecatedRunAfterPendingDispatches (self : nat) (r : SessionRouter.t)
    (script : option nat) : SessionRouter.t * list Effect :=
  (match script with
   | Some f => router_with_scripts (SessionRouter._pendingScripts r ++ [f]) r
   | None => r
   end,
   [SetTimeout (CheckPendingDispatches self)]).

Definition SessionRouter_executeAfterPendingDispatches (r : SessionRouter.t)
    : SessionRouter.t * list Effect :=
  if SessionRouter_hasOutstandingNonLongPollingRequests r then (r, [])
  else (router_with_scripts [] r, map ScriptRun (SessionRouter._pendingScripts r)).

(** ** [DispatcherManager] *)

Definition DispatcherManager_new (eventArgs : gmap string (list string)) : DispatcherManager.t :=
  {| DispatcherManager.eventArgs := eventArgs; DispatcherManager.dispatchers := [] |}.

Definition DispatcherManager_addDomainDispatcher (m : DispatcherManager.t)
    (dispatcher : Handler.t) : DispatcherManager.t :=
  {| DispatcherManager.eventArgs := DispatcherManager.eventArgs m;
     DispatcherManager.dispatchers := DispatcherManager.dispatchers m ++ [dispatcher] |}.

(** [array.splice(array.indexOf(x), 1)] by object identity; nothing when it
    is not there. *)
Fixpoint remove_first_handler (object : nat) (l : list Handler.t) : list Handler.t :=
  match l with
  | [] => []
  | h :: rest =>
      if Nat.eqb (Handler.object h) object then rest
      else h :: remove_first_handler object rest
  end.

Definition DispatcherManager_removeDomainDispatcher (m : DispatcherManager.t)
    (dispatcher : Handler.t) : DispatcherManager.t :=
  {| DispatcherManager.eventArgs := DispatcherManager.eventArgs m;
     DispatcherManager.dispatchers :=
       remove_first_handler (Handler.object dispatcher) (DispatcherManager.dispatchers m) |}.

(** [this.eventArgs.has(messageObject.method)] *)
Definition eventArgs_has (eventArgs : gmap string (list string)) (method : option string)
    : bool :=
  match method with
  | Some name => bool_decide (is_Some (eventArgs !! name))
  | None => false
  end.

(** [event in dispatcher] *)
Definition implements (event : string) (dispatcher : Handler.t) : bool :=
  existsb (String.eqb event) (Handler.properties dispatcher).

(** The calls of the loop of [dispatch], one for each dispatcher that has the
    property, each with the object at [messageParams]. *)
Definition handler_calls (event : string) (messageParams : nat) (dispatchers : list Handler.t)
    : list Effect :=
  map (fun dispatcher => HandlerInvoked (Handler.object dispatcher) event messageParams)
      (List.filter (implements event) dispatchers).

(** [dispatch(event, messageObject)]: the heap after it and what it did. The
    event name is the property name [event in dispatcher] tests. *)
Definition DispatcherManager_dispatch `{Externals} (m : DispatcherManager.t) (event : string)
    (messageObject : Message.t) (heap : list Obj) : list Obj * list Effect :=
  match DispatcherManager.dispatchers m with
  | [] => (heap, [])
  | _ :: _ =>
      let decompressed :=
        if Message.compress messageObject
        then inflate (Message.params messageObject)
        else Some (JsObject []) in
      match decompressed with
      | None => (heap, [Thrown "inflate"])
      | Some decompressedParams =>
          if eventArgs_has (DispatcherManager.eventArgs m) (Message.method messageObject)
          then
            let messageParams : Obj :=
              if Message.compress messageObject
              then spread decompressedParams
              else spread (Message.params messageObject) in
            (heap ++ [messageParams],
             handler_calls event (length heap) (DispatcherManager.dispatchers m))
          else
            (heap,
             reportProtocolWarning
               ("Protocol Warning: Attempted to dispatch an unspecified event '"
                  +:+ default "undefined" (Message.method messageObject) +:+ "'")
               messageObject)
      end
  end.

(** ** [TargetBase]: events and dispatchers *)

(** [dispatch(eventMessage)]. An [undefined] event name is the property
    name ["undefined"]; a message without [method] is no [EventMessage], and
    [split] of [undefined] throws. *)
Definition TargetBase_dispatch `{Externals} (t : TargetBase.t) (eventMessage : Message.t)
    (heap : list Obj) : list Obj * list Effect :=
  match Message.method eventMessage with
  | None => (heap, [Thrown "TypeError"])
  | Some qualified =>
      let '(domainName, method) := splitQualifiedName qualified in
      match TargetBase.dispatchers t !! domainName with
      | None =>
          (heap,
           reportProtocolError
             ("Protocol Error: the message " +:+ qualified
                +:+ " is for non-existing domain '" +:+ domainName +:+ "'")
             eventMessage)
      | Some dispatcher =>
          DispatcherManager_dispatch dispatcher (default "undefined" method) eventMessage heap
      end
  end.

Definition TargetBase_registerDispatcher (t : TargetBase.t) (domain : string)
    (dispatcher : Handler.t) : TargetBase.t :=
  match TargetBase.dispatchers t !! domain with
  | None => t
  | Some manager =>
      target_with_dispatchers
        (<[domain := DispatcherManager_addDomainDispatcher manager dispatcher]>
           (TargetBase.dispatchers t)) t
  end.

Definition TargetBase_unregisterDispatcher (t : TargetBase.t) (domain : string)
    (dispatcher : Handler.t) : TargetBase.t :=
  match TargetBase.dispatchers t !! domain with
  | None => t
  | Some manager =>
      target_with_dispatchers
        (<[domain := DispatcherManager_removeDomainDispatcher manager dispatcher]>
           (TargetBase.dispatchers t)) t
  end.

(** ** [_AgentPrototype] *)

Definition AgentPrototype_new (domain : string) : AgentPrototype.t :=
  {| AgentPrototype._replyArgs := ∅;
     AgentPrototype._domain := domain;
     AgentPrototype._debouncedMethods :=
       ["DOM.getBoxModel"; "DOM.getNodeForLocation"; "CSS.getComputedStyleForNode"];
     AgentPrototype._cachedMessages := ∅;
     AgentPrototype._unresolvedMessages := ∅;
     AgentPrototype.commands := ∅ |}.

Definition AgentPrototype_registerCommand (a : AgentPrototype.t) (methodName : string)
    (parameters : list CommandParameter.t) (replyArgs : list string) : AgentPrototype.t :=
  let domainAndMethod := qualifyName (AgentPrototype._domain a) methodName in
  {| AgentPrototype._replyArgs := <[domainAndMethod := replyArgs]> (AgentPrototype._replyArgs a);
     AgentPrototype._domain := AgentPrototype._domain a;
     AgentPrototype._debouncedMethods := AgentPrototype._debouncedMethods a;
     AgentPrototype._cachedMessages := AgentPrototype._cachedMessages a;
     AgentPrototype._unresolvedMessages := AgentPrototype._unresolvedMessages a;
     AgentPrototype.commands := <[methodName := parameters]> (AgentPrototype.commands a) |}.

(** [InspectorBackend._agentPrototype(domain)] followed by [registerCommand]
    on it. *)
Definition InspectorBackend_registerCommand (method : string)
    (parameters : list CommandParameter.t) (replyArgs : list string) (w : World.t) : World.t :=
  let '(domain, command) := splitQualifiedName method in
  let prototype := default (AgentPrototype_new domain) (World._agentPrototypes w !! domain) in
  with_agentPrototypes
    (<[domain := AgentPrototype_registerCommand prototype (default "undefined" command)
                   parameters replyArgs]> (World._agentPrototypes w)) w.

(** The loop of [_prepareParameters] from the parameter it has reached, then
    the check for extra arguments. The result is what the function returns
    ([None] for [null]) and the messages it has passed to [errorCallback]. *)
Fixpoint prepare_from `{Externals} (method : string) (schema remaining : list CommandParameter.t)
    (args : list JsValue) (params : Obj) (hasParams : bool) : option Obj * list string :=
  match remaining with
  | [] =>
      match args with
      | _ :: _ =>
          (None,
           ["Protocol Error: Extra " +:+ pretty (length args)
              +:+ " arguments in a call to method '" +:+ method +:+ "'."])
      | [] => (if hasParams then Some params else None, [])
      end
  | param :: rest =>
      let paramName := CommandParameter.name param in
      let typeName := CommandParameter.type param in
      let optionalFlag := CommandParameter.optional param in
      if Nat.eqb (length args) 0 && negb optionalFlag then
        (None,
         ["Protocol Error: Invalid number of arguments for method '" +:+ method
            +:+ "' call. It must have the following arguments "
            +:+ JSON_stringify (JsArray (map CommandParameter_to_js schema)) +:+ "'."])
      else
        let value := List.hd JsUndefined args in
        let args := List.tl args in
        if optionalFlag && String.eqb (typeof value) "undefined" then
          prepare_from method schema rest args params hasParams
        else if negb (String.eqb (typeof value) typeName) then
          (None,
           ["Protocol Error: Invalid type of argument '" +:+ paramName
              +:+ "' for method '" +:+ method +:+ "' call. It must be '" +:+ typeName
              +:+ "' but it is '" +:+ typeof value +:+ "'."])
        else
          prepare_from method schema rest args (obj_set params paramName value) true
  end.

Definition AgentPrototype_prepareParameters `{Externals} (method : string)
    (parameters : list CommandParameter.t) (args : list JsValue) : option Obj * list string :=
  prepare_from method parameters parameters args [] false.

(** The agent of a target for a domain: the target it is bound to and the
    prototype it inherits from. *)
Definition agent_of (w : World.t) (target : nat) (agentDomain : string)
    : option (TargetBase.t * AgentPrototype.t) :=
  match World.targets w !! target with
  | Some t =>
      if bool_decide (agentDomain ∈ TargetBase.agents t)
      then match World._agentPrototypes w !! agentDomain with
           | Some a => Some (t, a)
           | None => None
           end
      else None
  | None => None
  end.

(** [router.sendMessage(...)] on the router at an address. *)
Definition World_sendMessage (r : nat) (sessionId domain method : string) (params : JsValue)
    (callback : Callback) (w : World.t) : World.t :=
  match World.routers w !! r with
  | Some router =>
      let '(router, effects) :=
        SessionRouter_sendMessage (World.globals w) r router sessionId domain method params
          callback in
      emit effects (put_router r router w)
  | None => w
  end.

(** [this._target._router.sendMessage(...this._destructMessage(message))] *)
Definition send_destructed (r : nat) (message : Message.t * Callback) (w : World.t) : World.t :=
  let '(m, callback) := message in
  World_sendMessage r
    (default "" (Message.sessionId m))
    (default "undefined" (Message.domain m))
    (default "undefined" (Message.method m))
    (Message.params m) callback w.

Definition put_agent (agentDomain : string) (a : AgentPrototype.t) (w : World.t) : World.t :=
  with_agentPrototypes (<[agentDomain := a]> (World._agentPrototypes w)) w.

(** [error.code] is none of the codes that are not reported. *)
Definition reported_code (e : MessageError.t) : bool :=
  negb (MessageError.code e =? DevToolsStubErrorCode)
  && negb (MessageError.code e =? GenericError)
  && negb (MessageError.code e =? ConnectionClosedErrorCode).

(** [this._unresolvedMessages[method]] as a condition. *)
Definition unresolved (a : AgentPrototype.t) (method : string) : bool :=
  match AgentPrototype._unresolvedMessages a !! method with
  | Some n => negb (n =? 0)
  | None => false
  end.

(** The own properties [value[key]] finds: the properties of an object,
    the elements and the [length] of an array, the characters and the
    [length] of a string. *)
Definition own_property (v : JsValue) (key : string) : option JsValue :=
  match v with
  | JsObject fields => map_get key fields
  | JsArray items =>
      if String.eqb key "length" then Some (JsNumber (Z.of_nat (length items)))
      else map_get key (array_entries 0 items)
  | JsString s =>
      if String.eqb key "length" then Some (JsNumber (Z.of_nat (String.length s)))
      else map_get key (string_entries 0 s)
  | _ => None
  end.

(** [value[key]] for a value that is neither [undefined] nor [null]: the
    own property, or else what the prototype chain of the value has. *)
Definition get_property `{Externals} (v : JsValue) (key : string) : JsValue :=
  match own_property v key with
  | Some x => x
  | None => prototype_property v key
  end.

(** A call of an agent method has created its promise, [World.promises]
    of the world it was called in. *)
Definition promise_created (w : World.t) : World.t :=
  with_promises (S (World.promises w)) w.

(** [_sendMessageToBackendPromise(method, parameters, args)] on the agent of
    [target] for [agentDomain]; the promise it returns is [World.promises]
    of the world it is called in. *)
Definition AgentPrototype_sendMessageToBackendPromise `{Externals} (target : nat)
    (agentDomain method : string) (parameters : list CommandParameter.t) (args : list JsValue)
    (w : World.t) : World.t :=
  match agent_of w target agentDomain with
  | None => w
  | Some (t, a) =>
      let '(params, errors) := AgentPrototype_prepareParameters method parameters args in
      let errorMessage := List.last (map JsString errors) JsUndefined in
      let promise := World.promises w in
      let w := emit (map ConsoleError errors) w in
      promise_created
        (if truthy errorMessage then
           emit [PromiseResolved promise (ResolvedValue JsNull)] w
         else
           let callback := CommandCallback target agentDomain method promise in
           match TargetBase._router t with
           | None => emit [dispatchConnectionError callback method] w
           | Some r =>
               let params := match params with Some o => JsObject o | None => JsNull end in
               World_sendMessage r (TargetBase._sessionId t) (AgentPrototype._domain a) method
                 params callback
                 (emit [ConsoleLog
                          [JsString "sending msg (to backend)";
                           JsString (TargetBase._sessionId t);
                           JsString (AgentPrototype._domain a);
                           JsString method; params]] w)
           end)
  end.

(** The method [registerCommand] installs under the unqualified name. *)
Definition AgentPrototype_command `{Externals} (target : nat) (agentDomain methodName : string)
    (args : list JsValue) (w : World.t) : World.t :=
  match agent_of w target agentDomain with
  | None => w
  | Some (t, a) =>
      match AgentPrototype.commands a !! methodName with
      | None => emit [Thrown "TypeError"] w
      | Some parameters =>
          AgentPrototype_sendMessageToBackendPromise target agentDomain
            (qualifyName (AgentPrototype._domain a) methodName) parameters args w
      end
  end.

(** The message [_invoke] makes for a debounced method. *)
Definition invoke_message (sessionId domain method : string) (request : JsValue) : Message.t :=
  {| Message.sessionId := Some sessionId;
     Message.domain := Some domain;
     Message.method := Some method;
     Message.params := request;
     Message.url := None;
     Message.id := None;
     Message.error := None;
     Message.result := JsUndefined;
     Message.compress := false |}.

(** [_invoke(method, request)] on the agent of [target] for [agentDomain]. *)
Definition AgentPrototype_invoke (target : nat) (agentDomain method : string)
    (request : JsValue) (w : World.t) : World.t :=
  match agent_of w target agentDomain with
  | None => w
  | Some (t, a) =>
      let promise := World.promises w in
      let message :=
        invoke_message (TargetBase._sessionId t) (AgentPrototype._domain a) method request in
      let callback := InvokeCallback target agentDomain method promise in
      promise_created
        match TargetBase._router t with
        | None => emit [dispatchConnectionError callback method] w
        | Some r =>
            if bool_decide (method ∈ AgentPrototype._debouncedMethods a) then
              if negb (unresolved a method) then
                match AgentPrototype._cachedMessages a !! method with
                | None =>
                    send_destructed r (message, callback)
                      (put_agent agentDomain
                         (agent_with_messages (AgentPrototype._cachedMessages a)
                            (<[method := 1]> (AgentPrototype._unresolvedMessages a)) a) w)
                | Some cached =>
                    put_agent agentDomain
                      (agent_with_messages
                         (<[method := (message, callback)]> (AgentPrototype._cachedMessages a))
                         (AgentPrototype._unresolvedMessages a) a)
                      (send_destructed r cached w)
                end
              else
                put_agent agentDomain
                  (agent_with_messages
                     (<[method := (message, callback)]> (AgentPrototype._cachedMessages a))
                     (AgentPrototype._unresolvedMessages a) a) w
            else
              World_sendMessage r (TargetBase._sessionId t) (AgentPrototype._domain a) method
                request callback w
        end
  end.

(** ** Callbacks *)

(** The text of the console line for a failed request. *)
Definition request_failed `{Externals} (method : string) (e : MessageError.t) : string :=
  "Request " +:+ method +:+ " failed. " +:+ JSON_stringify (MessageError_to_js e).

(** The closure [callback] of [_sendMessageToBackendPromise]: the world after
    it and whether it threw. *)
Definition CommandCallback_body `{Externals} (target : nat) (agentDomain method : string)
    (promise : nat) (error : option MessageError.t) (result : JsValue) (w : World.t)
    : World.t * bool :=
  match agent_of w target agentDomain with
  | None => (w, false)
  | Some (t, a) =>
      match error with
      | Some e =>
          (emit
             ((if negb (Globals.suppressRequestErrors (World.globals w)) && reported_code e
               then [ConsoleError (request_failed method e)] else [])
              ++ [PromiseResolved promise (ResolvedValue JsNull)]) w,
           false)
      | None =>
          if truthy result then
            match AgentPrototype._replyArgs a !! method with
            | None => (emit [Thrown "TypeError"] w, true)
            | Some [] => (emit [PromiseResolved promise (ResolvedValue JsUndefined)] w, false)
            | Some (first :: _) =>
                (emit [PromiseResolved promise (ResolvedValue (get_property result first))] w,
                 false)
            end
          else (emit [PromiseResolved promise (ResolvedValue JsUndefined)] w, false)
      end
  end.

(** The warning of the closure of [_invoke] for an error that is reported. *)
Definition warn_failed `{Externals} (method : string) (error : option MessageError.t)
    (w : World.t) : World.t :=
  match error with
  | Some e =>
      if negb (Globals.suppressRequestErrors (World.globals w)) && reported_code e
      then emit [ConsoleWarn (request_failed method e)] w else w
  | None => w
  end.

(** The closure [callback] of [_invoke]. *)
Definition InvokeCallback_body `{Externals} (target : nat) (agentDomain method : string)
    (promise : nat) (error : option MessageError.t) (result : JsValue) (w : World.t)
    : World.t * bool :=
  match agent_of w target agentDomain with
  | None => (w, false)
  | Some (t, a) =>
      let callback := InvokeCallback target agentDomain method promise in
      let w := warn_failed method error w in
      let w :=
        if bool_decide (method ∈ AgentPrototype._debouncedMethods a) then
          let a :=
            agent_with_messages (AgentPrototype._cachedMessages a)
              (delete method (AgentPrototype._unresolvedMessages a)) a in
          let w := put_agent agentDomain a w in
          match AgentPrototype._cachedMessages a !! method with
          | None => w
          | Some cached =>
              match TargetBase._router t with
              | None => emit [dispatchConnectionError callback method] w
              | Some r =>
                  put_agent agentDomain
                    (agent_with_messages
                       (delete method (AgentPrototype._cachedMessages a))
                       (<[method := 1]> (AgentPrototype._unresolvedMessages a)) a)
                    (send_destructed r cached w)
              end
          end
        else w in
      (emit [PromiseResolved promise
               (ResolvedResponse result
                  (match error with Some e => Some (MessageError.message e) | None => None end))]
         w,
       false)
  end.

(** [callback(error, result)] *)
Definition call `{Externals} (callback : Callback) (error : option MessageError.t)
    (result : JsValue) (w : World.t) : World.t * bool :=
  let w := emit [CallbackInvoked callback error result] w in
  match callback with
  | ExternalCallback _ => (w, false)
  | NoopCallback => (w, false)
  | CommandCallback target agentDomain method promise =>
      CommandCallback_body target agentDomain method promise error result w
  | InvokeCallback target agentDomain method promise =>
      InvokeCallback_body target agentDomain method promise error result w
  end.

(** ** [SessionRouter._onMessage] *)

(** The loop that sends a message to the proxy connections: what it did and
    [suppressUnknownMessageErrors] after it. *)
Fixpoint forward_to_proxies (handlers : gset nat) (messageObject : Message.t)
    (sessions : list Session.t) : list Effect * bool :=
  match sessions with
  | [] => ([], false)
  | session :: rest =>
      let '(effects, suppress) := forward_to_proxies handlers messageObject rest in
      match Session.proxyConnection session with
      | None => (effects, suppress)
      | Some connection =>
          if bool_decide (connection ∈ handlers)
          then (ProxyOnMessage connection messageObject :: effects, true)
          else (reportProtocolError
                  "Protocol Error: the session has a proxyConnection with no _onMessage"
                  messageObject ++ effects, suppress)
      end
  end.

(** [NodeURL.patch(messageObject)] *)
Definition NodeURL_patch `{Externals} (m : Message.t) : Message.t :=
  {| Message.sessionId := Message.sessionId m;
     Message.url := patch_url <$> Message.url m;
     Message.id := Message.id m;
     Message.error := Message.error m;
     Message.result := patch_payload (Message.result m);
     Message.domain := Message.domain m;
     Message.method := Message.method m;
     Message.params := patch_payload (Message.params m);
     Message.compress := Message.compress m |}.

(** [value || null] *)
Definition or_null (v : JsValue) : JsValue := if truthy v then v else JsNull.

(** The part of [_onMessage] after the session has been found and is no
    proxy session. *)
Definition handle_message `{Externals} (r : nat) (sessionId : string) (session : Session.t)
    (suppressUnknownMessageErrors : bool) (messageObject : Message.t) (w : World.t) : World.t :=
  let messageObject :=
    match World.targets w !! Session.target session with
    | Some t => if TargetBase._needsNodeJSPatching t then NodeURL_patch messageObject
                else messageObject
    | None => messageObject
    end in
  match Message.id messageObject with
  | Some id =>
      let callback := map_get id (Session.callbacks session) in
      let w :=
        match World.routers w !! r with
        | Some router =>
            put_router r
              (router_with_callbacks sessionId session
                 (map_delete id (Session.callbacks session)) router) w
        | None => w
        end in
      match callback with
      | None =>
          emit (if suppressUnknownMessageErrors then []
                else reportProtocolError "Protocol Error: the message with wrong id"
                       messageObject) w
      | Some entry =>
          let '(w, threw) :=
            call (CallbackWithDebugInfo.callback entry) (Message.error messageObject)
              (or_null (Message.result messageObject)) w in
          if threw then w
          else
            match World.routers w !! r with
            | Some router =>
                let router :=
                  router_with_pending
                    (SessionRouter._pendingResponsesCount router - 1)
                    (SessionRouter._pendingLongPollingMessageIds router ∖ {[id]})
                    router in
                let w := put_router r router w in
                if negb (Nat.eqb (length (SessionRouter._pendingScripts router)) 0)
                   && negb (SessionRouter_hasOutstandingNonLongPollingRequests router)
                then
                  let '(router, effects) :=
                    SessionRouter_deprecatedRunAfterPendingDispatches r router None in
                  emit effects (put_router r router w)
                else w
            | None => w
            end
      end
  | None =>
      match Message.method messageObject with
      | None =>
          emit (reportProtocolError "Protocol Error: the message without method" messageObject) w
      | Some _ =>
          match World.targets w !! Session.target session with
          | Some t =>
              let '(heap, effects) := TargetBase_dispatch t messageObject (World.heap w) in
              emit effects (with_heap heap w)
          | None => w
          end
      end
  end.

(** [_onMessage(message)] on the router at [r]; [message] is the parsed
    message, [None] when it is the JSON of [null]. *)
Definition SessionRouter_onMessage `{Externals} (r : nat) (message : option Message.t)
    (w : World.t) : World.t :=
  match World.routers w !! r with
  | None => w
  | Some router =>
      let g := World.globals w in
      let w := if Globals.dumpProtocol g then emit [DumpProtocol false message] w else w in
      match message with
      | None => w
      | Some messageObject =>
          let w :=
            if Globals.onMessageReceived g
            then emit [OnMessageReceived messageObject
                         (SessionRouter_getTargetBySessionId router
                            (Message.sessionId messageObject))] w
            else w in
          let '(forwarded, suppressUnknownMessageErrors) :=
            forward_to_proxies (World.onMessageHandlers w) messageObject
              (map_values (SessionRouter._sessions router)) in
          let w := emit forwarded w in
          let sessionId := default "" (Message.sessionId messageObject) in
          match map_get sessionId (SessionRouter._sessions router) with
          | None =>
              emit (if suppressUnknownMessageErrors then []
                    else reportProtocolError
                           "Protocol Error: the message with wrong session id" messageObject) w
          | Some session =>
              if has_proxyConnection session then w
              else handle_message r sessionId session suppressUnknownMessageErrors
                     messageObject w
          end
      end
  end.

(** ** Timers *)

(** The event loop runs the body of the oldest [setTimeout]. *)
Definition run_timer `{Externals} (w : World.t) : World.t :=
  match World.timers w with
  | [] => w
  | task :: rest =>
      let w := with_timers rest w in
      match task with
      | CallLater callback error => fst (call callback (Some error) JsNull w)
      | CheckPendingDispatches r =>
          match World.routers w !! r with
          | None => w
          | Some router =>
              let '(router, effects) :=
                if negb (SessionRouter_hasOutstandingNonLongPollingRequests router)
                then SessionRouter_executeAfterPendingDispatches router
                else SessionRouter_deprecatedRunAfterPendingDispatches r router None in
              emit effects (put_router r router w)
          end
      end
  end.

(** ** [TargetBase]: construction and disposal *)

Definition with_router_hooks (r : nat) (g : Globals.t) : Globals.t :=
  {| Globals.dumpProtocol := Globals.dumpProtocol g;
     Globals.deprecatedRunAfterPendingDispatches := Some r;
     Globals.sendRawMessage := Some r;
     Globals.suppressRequestErrors := Globals.suppressRequestErrors g;
     Globals.onMessageSent := Globals.onMessageSent g;
     Globals.onMessageReceived := Globals.onMessageReceived g;
     Globals.devtoolStatsRecording := Globals.devtoolStatsRecording g |}.

(** [new SessionRouter(connection)]: the address of the new router and the
    world with it. *)
Definition World_newRouter (connection : nat) (w : World.t) : nat * World.t :=
  let r := length (World.routers w) in
  (r,
   with_globals (with_router_hooks r (World.globals w))
     (with_routers (World.routers w ++ [SessionRouter_new connection]) w)).

(** The condition under which the constructor throws
    ['Either connection or sessionId (but not both) must be supplied for a
    child target']. *)
Definition constructor_rejects (parentTarget : option nat) (sessionId : string)
    (connection : option nat) : bool :=
  (negb (bool_decide (is_Some parentTarget)) && bool_decide (is_Some connection))
  || (negb (bool_decide (is_Some parentTarget)) && truthy (JsString sessionId))
  || (bool_decide (is_Some connection) && truthy (JsString sessionId)).

Definition construction_error : string :=
  "Either connection or sessionId (but not both) must be supplied for a child target".

(** [new TargetBase(needsNodeJSPatching, parentTarget, sessionId, connection)]:
    the message of the exception it throws, or the world with the new target,
    whose address is the number of targets before. *)
Definition TargetBase_new (needsNodeJSPatching : bool) (parentTarget : option nat)
    (sessionId : string) (connection : option nat) (w : World.t) : string + World.t :=
  if constructor_rejects parentTarget sessionId connection then inl construction_error
  else
    let parentRouter :=
      match parentTarget with
      | Some p => match World.targets w !! p with
                  | Some parent => TargetBase._router parent
                  | None => None
                  end
      | None => None
      end in
    let chosen : string + nat * World.t :=
      match (if truthy (JsString sessionId) then parentRouter else None) with
      | Some r => inr (r, w)
      | None =>
          match connection with
          | Some c => inr (World_newRouter c w)
          | None =>
              match World.connectionFactory w with
              | Some c => inr (World_newRouter c w)
              | None => inl "TypeError: connectionFactory is not a function"
              end
          end
      end in
    match chosen with
    | inl e => inl e
    | inr (r, w) =>
        let this := length (World.targets w) in
        let w :=
          with_targets
            (World.targets w ++
               [{| TargetBase._needsNodeJSPatching := needsNodeJSPatching;
                   TargetBase._sessionId := sessionId;
                   TargetBase._router := Some r;
                   TargetBase.agents := dom (World._agentPrototypes w);
                   TargetBase.dispatchers :=
                     DispatcherManager_new <$> World.eventParameterNamesForDomain w |}]) w in
        match World.routers w !! r with
        | Some router =>
            let '(router, effects) := SessionRouter_registerSession router this sessionId None in
            inr (emit effects (put_router r router w))
        | None => inr w
        end
    end.

Definition World_unregisterSession (r : nat) (sessionId : string) (w : World.t) : World.t :=
  match World.routers w !! r with
  | Some router =>
      let '(router, effects) := SessionRouter_unregisterSession router sessionId in
      emit effects (put_router r router w)
  | None => w
  end.

(** [dispose(reason)] *)
Definition TargetBase_dispose (target : nat) (w : World.t) : World.t :=
  match World.targets w !! target with
  | Some t =>
      match TargetBase._router t with
      | None => w
      | Some r =>
          put_target target (target_with_router None t)
            (World_unregisterSession r (TargetBase._sessionId t) w)
      end
  | None => w
  end.

(** The handler the constructor of the router gives to [setOnDisconnect]. *)
Definition SessionRouter_onDisconnect (r : nat) (w : World.t) : World.t :=
  match World.routers w !! r with
  | Some router =>
      match map_get "" (SessionRouter._sessions router) with
      | Some session => TargetBase_dispose (Session.target session) w
      | None => w
      end
  | None => w
  end.

(** ** What the rest of the front end and the connection can do *)

Inductive Op :=
| NewTarget (needsNodeJSPatching : bool) (parentTarget : option nat) (sessionId : string)
    (connection : option nat)
| Dispose (target : nat)
| RegisterDispatcher (target : nat) (domain : string) (dispatcher : Handler.t)
| UnregisterDispatcher (target : nat) (domain : string) (dispatcher : Handler.t)
| RegisterCommand (method : string) (parameters : list CommandParameter.t)
    (replyArgs : list string)
| Command (target : nat) (agentDomain methodName : string) (args : list JsValue)
| Invoke (target : nat) (agentDomain method : string) (request : JsValue)
| RegisterSession (r target : nat) (sessionId : string) (proxyConnection : option nat)
| UnregisterSession (r : nat) (sessionId : string)
| SendMessage (r : nat) (sessionId domain method : string) (params : JsValue) (callback : nat)
| SendRawMessageForTesting (method : string) (params : JsValue) (callback : option nat)
| RunAfterPendingDispatches (script : nat)
| Receive (r : nat) (message : option Message.t)
| Disconnect (r : nat)
| Timer.

Definition on_router (r : nat) (f : SessionRouter.t -> SessionRouter.t * list Effect)
    (w : World.t) : World.t :=
  match World.routers w !! r with
  | Some router => let '(router, effects) := f router in emit effects (put_router r router w)
  | None => w
  end.

Definition step `{Externals} (w : World.t) (op : Op) : World.t :=
  match op with
  | NewTarget needsNodeJSPatching parentTarget sessionId connection =>
      match TargetBase_new needsNodeJSPatching parentTarget sessionId connection w with
      | inl e => emit [Thrown e] w
      | inr w => w
      end
  | Dispose target => TargetBase_dispose target w
  | RegisterDispatcher target domain dispatcher =>
      match World.targets w !! target with
      | Some t => put_target target (TargetBase_registerDispatcher t domain dispatcher) w
      | None => w
      end
  | UnregisterDispatcher target domain dispatcher =>
      match World.targets w !! target with
      | Some t => put_target target (TargetBase_unregisterDispatcher t domain dispatcher) w
      | None => w
      end
  | RegisterCommand method parameters replyArgs =>
      InspectorBackend_registerCommand method parameters replyArgs w
  | Command target agentDomain methodName args =>
      AgentPrototype_command target agentDomain methodName args w
  | Invoke target agentDomain method request =>
      AgentPrototype_invoke target agentDomain method request w
  | RegisterSession r target sessionId proxyConnection =>
      on_router r
        (fun router => SessionRouter_registerSession router target sessionId proxyConnection) w
  | UnregisterSession r sessionId => World_unregisterSession r sessionId w
  | SendMessage r sessionId domain method params callback =>
      World_sendMessage r sessionId domain method params (ExternalCallback callback) w
  | SendRawMessageForTesting method params callback =>
      match Globals.sendRawMessage (World.globals w) with
      | Some r =>
          on_router r
            (fun router =>
               SessionRouter_sendRawMessageForTesting (World.globals w) r router method params
                 (ExternalCallback <$> callback)) w
      | None => emit [Thrown "TypeError"] w
      end
  | RunAfterPendingDispatches script =>
      match Globals.deprecatedRunAfterPendingDispatches (World.globals w) with
      | Some r =>
          on_router r
            (fun router =>
               SessionRouter_deprecatedRunAfterPendingDispatches r router (Some script)) w
      | None => emit [Thrown "TypeError"] w
      end
  | Receive r message => SessionRouter_onMessage r message w
  | Disconnect r => SessionRouter_onDisconnect r w
  | Timer => run_timer w
  end.

Definition run `{Externals} (ops : list Op) (w : World.t) : World.t :=
  fold_left step ops w.

(** The world before anything is constructed or registered. *)
Definition initial_world (g : Globals.t) (connectionFactory : option nat)
    (onMessageHandlers : gset nat) : World.t :=
  {| World.routers := [];
     World.targets := [];
     World._agentPrototypes := ∅;
     World.eventParameterNamesForDomain := ∅;
     World.connectionFactory := connectionFactory;
     World.onMessageHandlers := onMessageHandlers;
     World.globals := g;
     World.heap := [];
     World.timers := [];
     World.promises := 0;
     World.log := [] |}.

(** ** [DOMModelUndoStack] *)

(** A DOM model is the [nat] of its identity; the calls the stack makes on
    the agent of a model are logged. *)
Inductive AgentCall :=
| invoke_markUndoableState (model : nat)
| invoke_undo (model : nat)
| invoke_redo (model : nat).

Module DOMModelUndoStack.
Record t := {
  _stack : list nat;
  _index : Z;
  _lastModelWithMinorChange : option nat
}.
End DOMModelUndoStack.

(** The singleton, the number of calls of [_markUndoableState] that wait at
    their [await], and the agent calls made so far. *)
Module Undo.
Record t := {
  DOMModelUndoStackInstance : option DOMModelUndoStack.t;
  awaiting : nat;
  calls : list AgentCall
}.
End Undo.

Definition DOMModelUndoStack_new : DOMModelUndoStack.t :=
  {| DOMModelUndoStack._stack := [];
     DOMModelUndoStack._index := 0;
     DOMModelUndoStack._lastModelWithMinorChange := None |}.

Definition undo_initial : Undo.t :=
  {| Undo.DOMModelUndoStackInstance := None; Undo.awaiting := 0; Undo.calls := [] |}.

(** [DOMModelUndoStack.instance()] *)
Definition DOMModelUndoStack_instance (u : Undo.t) : DOMModelUndoStack.t * Undo.t :=
  match Undo.DOMModelUndoStackInstance u with
  | Some this => (this, u)
  | None =>
      (DOMModelUndoStack_new,
       {| Undo.DOMModelUndoStackInstance := Some DOMModelUndoStack_new;
          Undo.awaiting := Undo.awaiting u;
          Undo.calls := Undo.calls u |})
  end.

(** The fields of the singleton are assigned. *)
Definition put_stack (this : DOMModelUndoStack.t) (u : Undo.t) : Undo.t :=
  {| Undo.DOMModelUndoStackInstance := Some this;
     Undo.awaiting := Undo.awaiting u;
     Undo.calls := Undo.calls u |}.

Definition with_lastModel (model : option nat) (this : DOMModelUndoStack.t)
    : DOMModelUndoStack.t :=
  {| DOMModelUndoStack._stack := DOMModelUndoStack._stack this;
     DOMModelUndoStack._index := DOMModelUndoStack._index this;
     DOMModelUndoStack._lastModelWithMinorChange := model |}.

Definition with_index (index : Z) (this : DOMModelUndoStack.t) : DOMModelUndoStack.t :=
  {| DOMModelUndoStack._stack := DOMModelUndoStack._stack this;
     DOMModelUndoStack._index := index;
     DOMModelUndoStack._lastModelWithMinorChange := None |}.

(** [array.slice(0, end)] *)
Definition slice_to {A} (e : Z) (l : list A) : list A :=
  if e <? 0 then firstn (Z.to_nat (Z.of_nat (length l) + e)) l else firstn (Z.to_nat e) l.

(** A call on the agent of a model that the caller awaits. *)
Definition agent_call (c : AgentCall) (waits : bool) (u : Undo.t) : Undo.t :=
  {| Undo.DOMModelUndoStackInstance := Undo.DOMModelUndoStackInstance u;
     Undo.awaiting := if waits then S (Undo.awaiting u) else Undo.awaiting u;
     Undo.calls := Undo.calls u ++ [c] |}.

(** [model.markUndoableState(minorChange)], which calls
    [DOMModelUndoStack.instance()._markUndoableState(model, minorChange ||
    false)], up to the [await] of that call; [depth] bounds the nesting of
    these calls. What follows the [await] is [resume_markUndoableState]. *)
Fixpoint DOMModel_markUndoableState (depth : nat) (model : nat) (minorChange : option bool)
    (u : Undo.t) : option Undo.t :=
  match depth with
  | O => None
  | S depth =>
      let minorChange := default false minorChange in
      let '(this, u) := DOMModelUndoStack_instance u in
      let committed :=
        match DOMModelUndoStack._lastModelWithMinorChange this with
        | Some last =>
            if negb (Nat.eqb model last) then
              match DOMModel_markUndoableState depth last None u with
              | Some u =>
                  let this := default this (Undo.DOMModelUndoStackInstance u) in
                  Some (with_lastModel None this, u)
              | None => None
              end
            else Some (this, u)
        | None => Some (this, u)
        end in
      match committed with
      | None => None
      | Some (this, u) =>
          if minorChange
             && bool_decide (DOMModelUndoStack._lastModelWithMinorChange this = Some model)
          then Some (put_stack this u)
          else
            let stack := slice_to (DOMModelUndoStack._index this) (DOMModelUndoStack._stack this)
                           ++ [model] in
            let this :=
              {| DOMModelUndoStack._stack := stack;
                 DOMModelUndoStack._index := Z.of_nat (length stack);
                 DOMModelUndoStack._lastModelWithMinorChange :=
                   DOMModelUndoStack._lastModelWithMinorChange this |} in
            if minorChange
            then Some (put_stack (with_lastModel (Some model) this) u)
            else Some (agent_call (invoke_markUndoableState model) true (put_stack this u))
      end
  end.

(** The rest of [_markUndoableState] after
    [await model._agent.invoke_markUndoableState()], for the call that has
    waited longest. *)
Definition resume_markUndoableState (u : Undo.t) : Undo.t :=
  match Undo.awaiting u with
  | O => u
  | S n =>
      let '(this, u) := DOMModelUndoStack_instance u in
      {| Undo.DOMModelUndoStackInstance := Some (with_lastModel None this);
         Undo.awaiting := n;
         Undo.calls := Undo.calls u |}
  end.

(** [undo()] *)
Definition DOMModelUndoStack_undo (u : Undo.t) : Undo.t :=
  let '(this, u) := DOMModelUndoStack_instance u in
  if DOMModelUndoStack._index this =? 0 then u
  else
    let index := DOMModelUndoStack._index this - 1 in
    let u := put_stack (with_index index this) u in
    match (if index <? 0 then None else DOMModelUndoStack._stack this !! Z.to_nat index) with
    | Some model => agent_call (invoke_undo model) false u
    | None => u
    end.

(** [redo()] *)
Definition DOMModelUndoStack_redo (u : Undo.t) : Undo.t :=
  let '(this, u) := DOMModelUndoStack_instance u in
  if Z.of_nat (length (DOMModelUndoStack._stack this)) <=? DOMModelUndoStack._index this then u
  else
    let index := DOMModelUndoStack._index this + 1 in
    let u := put_stack (with_index index this) u in
    match (if index - 1 <? 0 then None
           else DOMModelUndoStack._stack this !! Z.to_nat (index - 1)) with
    | Some model => agent_call (invoke_redo model) false u
    | None => u
    end.

(** The depth of nesting that is always enough: the call for the model of the
    last minor change does not nest again. *)
Definition enough : nat := 2.

(** The edits, one [markUndoableState(minorChange)] on a model after the
    other. *)
Fixpoint mark_all (edits : list (nat * bool)) (u : Undo.t) : option Undo.t :=
  match edits with
  | [] => Some u
  | (model, minorChange) :: rest =>
      match DOMModel_markUndoableState enough model (Some minorChange) u with
      | Some u => mark_all rest u
      | None => None
      end
  end.

(** ** What the log and the store say *)

(** The ids of the messages the router at [r] has put on the wire, oldest
    first. *)
Fixpoint sent_ids (r : nat) (log : list Effect) : list Z :=
  match log with
  | [] => []
  | SendRawMessage r' _ m :: rest =>
      if Nat.eqb r' r
      then match Message.id m with
           | Some i => i :: sent_ids r rest
           | None => sent_ids r rest
           end
      else sent_ids r rest
  | _ :: rest => sent_ids r rest
  end.

(** The messages put on the wire, oldest first. *)
Fixpoint sent_messages (log : list Effect) : list Message.t :=
  match log with
  | [] => []
  | SendRawMessage _ _ m :: rest => m :: sent_messages rest
  | _ :: rest => sent_messages rest
  end.

(** The callbacks called, oldest first. *)
Fixpoint invoked (log : list Effect) : list Callback :=
  match log with
  | [] => []
  | CallbackInvoked c _ _ :: rest => c :: invoked rest
  | _ :: rest => invoked rest
  end.

(** The callbacks a router keeps for the responses it waits for. *)
Definition pending_callbacks (router : SessionRouter.t) : list Callback :=
  concat (map (fun session => map CallbackWithDebugInfo.callback
                                (map_values (Session.callbacks session)))
              (map_values (SessionRouter._sessions router))).

(** The callbacks a timer will call. *)
Fixpoint timer_callbacks (timers : list Task) : list Callback :=
  match timers with
  | [] => []
  | CallLater c _ :: rest => c :: timer_callbacks rest
  | CheckPendingDispatches _ :: rest => timer_callbacks rest
  end.

(** The callbacks of the messages the agents have cached. *)
Definition cached_callbacks (prototypes : gmap string AgentPrototype.t) : list Callback :=
  concat (map (fun entry : string * AgentPrototype.t =>
                 map (fun cached : string * (Message.t * Callback) => snd (snd cached))
                     (map_to_list (AgentPrototype._cachedMessages (snd entry))))
              (map_to_list prototypes)).

(** A callback is held when something in the world can still call it: a
    router that waits for a response, a timer, or a cached message of an
    agent. *)
Definition held_callbacks (w : World.t) : list Callback :=
  concat (map pending_callbacks (World.routers w))
  ++ timer_callbacks (World.timers w)
  ++ cached_callbacks (World._agentPrototypes w).

Definition held (c : Callback) (w : World.t) : Prop := c ∈ held_callbacks w.

(** The promise of a closure of the agent code has been created. *)
Definition stale (c : Callback) (w : World.t) : Prop :=
  match c with
  | CommandCallback _ _ _ promise | InvokeCallback _ _ _ promise =>
      (promise < World.promises w)%nat
  | ExternalCallback _ | NoopCallback => True
  end.

(** An operation hands the callback to a router: a function of its caller,
    or the empty function [_sendRawMessageForTesting] puts in its place. *)
Definition introduces (c : Callback) (op : Op) : Prop :=
  match op with
  | SendMessage _ _ _ _ _ f => c = ExternalCallback f
  | SendRawMessageForTesting _ _ callback =>
      c = default NoopCallback (ExternalCallback <$> callback)
  | _ => False
  end.

(** The id the router at [r] gives to its next message (1 for a router yet
    to be constructed). *)
Definition next_id (r : nat) (w : World.t) : Z :=
  match World.routers w !! r with
  | Some router => SessionRouter._lastMessageId router
  | None => 1
  end.

(** The ids [n] calls of [_nextMessageId] return, one after the other. *)
Fixpoint next_ids (n : nat) (router : SessionRouter.t) : list Z :=
  match n with
  | O => []
  | S n =>
      let '(messageId, router) := SessionRouter_nextMessageId router in
      messageId :: next_ids n router
  end.

(** The requests for a method that a router has sent and not yet seen
    answered. *)
Definition outstanding (method : string) (router : SessionRouter.t) : nat :=
  length
    (List.filter (fun entry => String.eqb (CallbackWithDebugInfo.method entry) method)
       (concat (map (fun session => map_values (Session.callbacks session))
                    (map_values (SessionRouter._sessions router))))).

(** Effects that only report: to a hook of [test], the console, a proxy
    connection, the statistics of the host. *)
Definition reports_only (e : Effect) : Prop :=
  match e with
  | DumpProtocol _ _ | OnMessageSent _ _ _ | OnMessageReceived _ _
  | ProxyOnMessage _ _ | ConsoleError _ | ConsoleWarn _ | ConsoleLog _
  | DevtoolStats _ => True
  | _ => False
  end.


(** The manager of a domain after the handlers have been registered with
    [addDomainDispatcher], one after the other. *)
Definition registered (eventArgs : gmap string (list string)) (handlers : list Handler.t)
    : DispatcherManager.t :=
  fold_left DispatcherManager_addDomainDispatcher handlers (DispatcherManager_new eventArgs).

(** The value [dispatch] takes the parameters of an event from: the decoded
    payload of a compressed event ([None] when decoding throws), [params]
    otherwise. *)
Definition event_payload `{Externals} (messageObject : Message.t) : option JsValue :=
  if Message.compress messageObject then inflate (Message.params messageObject)
  else Some (Message.params messageObject).

(** The handlers called, oldest first. *)
Fixpoint handlers_invoked (log : list Effect) : list nat :=
  match log with
  | [] => []
  | HandlerInvoked h _ _ :: rest => h :: handlers_invoked rest
  | _ :: rest => handlers_invoked rest
  end.

(** Externals to run examples with: no url is rewritten, no payload decodes,
    every value prints as an empty object, and the prototypes have no
    property. *)
Definition plain_externals : Externals :=
  {| JSON_stringify := fun _ => "{}";
     patch_url := fun u => u;
     patch_payload := fun v => v;
     inflate := fun _ => None;
     prototype_property := fun _ _ => JsUndefined |}.

Definition plain_globals : Globals.t :=
  {| Globals.dumpProtocol := false;
     Globals.deprecatedRunAfterPendingDispatches := None;
     Globals.sendRawMessage := None;
     Globals.suppressRequestErrors := false;
     Globals.onMessageSent := false;
     Globals.onMessageReceived := false;
     Globals.devtoolStatsRecording := None |}.

(** An event message with a method and parameters, not compressed. *)
Definition event_message (method : string) (params : JsValue) : Message.t :=
  {| Message.sessionId := None;
     Message.url := None;
     Message.id := None;
     Message.error := None;
     Message.result := JsUndefined;
     Message.domain := None;
     Message.method := Some method;
     Message.params := params;
     Message.compress := false |}.

(** Between two worlds the id counter of the router at [r] has stayed
    positive; and while it is below [exact_limit] the router has sent
    nothing but messages with increasing ids, from the id that was next in
    the first world up to the id that is next in the second. *)
Definition advance (r : nat) (w w' : World.t) : Prop :=
  (1 <= next_id r w -> 1 <= next_id r w')
  /\ exists new,
       sent_ids r (World.log w') = sent_ids r (World.log w) ++ new
       /\ (1 <= next_id r w -> next_id r w' < exact_limit ->
           next_id r w <= next_id r w'
           /\ StronglySorted Z.lt new
           /\ Forall (fun i => next_id r w <= i < next_id r w') new).

(** Nothing in the world can call the callback, and no call of the agent
    code that is yet to come will create it. *)
Definition safe (c : Callback) (w : World.t) : Prop := ~ held c w /\ stale c w.

(** Between two worlds a callback that was safe has stayed so and has not
    been called. *)
Definition calm (c : Callback) (w w' : World.t) : Prop :=
  safe c w ->
  safe c w' /\ exists new, World.log w' = World.log w ++ new /\ ~ In c (invoked new).

Definition moves (r : nat) (c : Callback) (w w' : World.t) : Prop :=
  advance r w w' /\ calm c w w'.

(** What a method of a router other than [sendMessage] may do: it keeps
    the id counter, adds no callback, sends nothing, calls nothing, and hands
    to timers only callbacks the router had. *)
Definition tame (router : SessionRouter.t) (result : SessionRouter.t * list Effect) : Prop :=
  SessionRouter._lastMessageId (fst result) = SessionRouter._lastMessageId router
  /\ (forall c, In c (pending_callbacks (fst result)) -> In c (pending_callbacks router))
  /\ sent_messages (snd result) = []
  /\ invoked (snd result) = []
  /\ (forall c, In c (timer_callbacks (scheduled (snd result))) ->
                In c (pending_callbacks router)).

#[global] Instance held_dec (c : Callback) (w : World.t) : Decision (held c w).
Proof. unfold held. apply _. Defined.

(** Another callback than a given one. *)
Definition another (callback : Callback) : Callback :=
  match callback with
  | NoopCallback => ExternalCallback 0
  | _ => NoopCallback
  end.

(** The world in which the router at [r] has no session of the given id and
    nothing else is different: what the world holds apart from that
    session. *)
Definition without_session (r : nat) (sessionId : string) (w : World.t) : World.t :=
  match World.routers w !! r with
  | Some router =>
      put_router r
        (router_with_sessions (map_delete sessionId (SessionRouter._sessions router)) router) w
  | None => w
  end.

(** A response to the request with the given id on the given session. *)
Definition response_message (sessionId : string) (id : Z) (result : JsValue) : Message.t :=
  {| Message.sessionId := Some sessionId;
     Message.url := None;
     Message.id := Some id;
     Message.error := None;
     Message.result := result;
     Message.domain := None;
     Message.method := None;
     Message.params := JsUndefined;
     Message.compress := false |}.

(** The router after [sendMessage] has sent a request on a session it has:
    the counters have moved and the callback waits under the id. *)
Definition router_after_send (router : SessionRouter.t) (sessionId : string)
    (session : Session.t) (method : string) (callback : Callback) : SessionRouter.t :=
  let '(messageId, router) := SessionRouter_nextMessageId router in
  router_with_callbacks sessionId session
    (map_set messageId
       {| CallbackWithDebugInfo.callback := callback;
          CallbackWithDebugInfo.method := method |}
       (Session.callbacks session))
    (router_with_pending
       (SessionRouter._pendingResponsesCount router + 1)
       (if bool_decide (method ∈ LongPollingMethods)
        then {[messageId]} ∪ SessionRouter._pendingLongPollingMessageIds router
        else SessionRouter._pendingLongPollingMessageIds router)
       router).

(** The entries of a table of callbacks that wait for a response to a
    method. *)
Definition waiting (method : string) (entries : list CallbackWithDebugInfo.t) : nat :=
  length (List.filter (fun entry => String.eqb (CallbackWithDebugInfo.method entry) method)
            entries).

(** ** Observations used in the further properties *)

(** The calls of callbacks in a log, with their arguments. *)
Fixpoint callback_calls (log : list Effect)
    : list (Callback * option MessageError.t * JsValue) :=
  match log with
  | [] => []
  | CallbackInvoked callback error result :: rest =>
      (callback, error, result) :: callback_calls rest
  | _ :: rest => callback_calls rest
  end.

(** The message as [_onMessage] hands it on for a session: patched by
    [NodeURL.patch] when the target of the session needs it. *)
Definition as_received `{Externals} (w : World.t) (session : Session.t) (m : Message.t)
    : Message.t :=
  match World.targets w !! Session.target session with
  | Some t => if TargetBase._needsNodeJSPatching t then NodeURL_patch m else m
  | None => m
  end.

(** The timer [_onMessage] sets after a response when scripts wait and no
    request other than long-polling ones is outstanding. *)
Definition polls (r : nat) (router : SessionRouter.t) : list Task :=
  if negb (Nat.eqb (length (SessionRouter._pendingScripts router)) 0)
     && negb (SessionRouter_hasOutstandingNonLongPollingRequests router)
  then [CheckPendingDispatches r] else [].

(** What the hooks of [test], the proxy connections and the statistics of
    the host are told. *)
Definition is_hook (e : Effect) : Prop :=
  match e with
  | DumpProtocol _ _ | OnMessageSent _ _ _ | OnMessageReceived _ _
  | ProxyOnMessage _ _ | DevtoolStats _ => True
  | _ => False
  end.

(** The error [dispatchUnregisterSessionError] makes for a pending call. *)
Definition unregistering_error (method : string) : MessageError.t :=
  {| MessageError.message :=
       "Session is unregistering, can't dispatch pending call to " +:+ method;
     MessageError.code := ConnectionClosedErrorCode;
     MessageError.data := NullData |}.

(** The callback is a function of a caller of [sendMessage]. *)
Definition is_external (callback : Callback) : bool :=
  match callback with ExternalCallback _ => true | _ => false end.

(** The promises resolved in a log, with what they were resolved with. *)
Fixpoint resolutions (log : list Effect) : list (nat * Resolution) :=
  match log with
  | [] => []
  | PromiseResolved promise value :: rest => (promise, value) :: resolutions rest
  | _ :: rest => resolutions rest
  end.

(** The lines written with [console.error] and [console.warn]. *)
Fixpoint console_errors (log : list Effect) : list string :=
  match log with
  | [] => []
  | ConsoleError text :: rest => text :: console_errors rest
  | _ :: rest => console_errors rest
  end.

Fixpoint console_warnings (log : list Effect) : list string :=
  match log with
  | [] => []
  | ConsoleWarn text :: rest => text :: console_warnings rest
  | _ :: rest => console_warnings rest
  end.


(** What the callback of [_sendMessageToBackendPromise] resolves the
    promise of the command with: [null] after an error, otherwise
    [result && args.length ? result[args[0]] : undefined]. *)
Definition command_reply `{Externals} (replyArgs : list string)
    (error : option MessageError.t) (result : JsValue) : JsValue :=
  match error with
  | Some _ => JsNull
  | None =>
      if truthy result then
        match replyArgs with
        | [] => JsUndefined
        | first :: _ => get_property result first
        end
      else JsUndefined
  end.

(** The line [console.error] gets for a failed request, unless errors are
    suppressed or the code is one of those that are not reported. *)
Definition failure_report `{Externals} (g : Globals.t) (method : string)
    (error : option MessageError.t) : list string :=
  match error with
  | Some e =>
      if negb (Globals.suppressRequestErrors g) && reported_code e
      then [request_failed method e] else []
  | None => []
  end.

(** The scripts of [deprecatedRunAfterPendingDispatches] run in a log. *)
Fixpoint scripts_run (log : list Effect) : list nat :=
  match log with
  | [] => []
  | ScriptRun script :: rest => script :: scripts_run rest
  | _ :: rest => scripts_run rest
  end.

(** What can happen to the undo stack: an edit of a model is marked, the
    user undoes or redoes, or a call of [_markUndoableState] resumes after
    its [await]. *)
Inductive UndoOp :=
| Mark (model : nat) (minorChange : bool)
| UndoLast
| RedoNext
| Resume.

Definition undo_step (u : Undo.t) (op : UndoOp) : Undo.t :=
  match op with
  | Mark model minorChange =>
      default u (DOMModel_markUndoableState enough model (Some minorChange) u)
  | UndoLast => DOMModelUndoStack_undo u
  | RedoNext => DOMModelUndoStack_redo u
  | Resume => resume_markUndoableState u
  end.

Definition undo_run (ops : list UndoOp) (u : Undo.t) : Undo.t := fold_left undo_step ops u.

(** The stack object of [DOMModelUndoStack.instance()]. *)
Definition the_stack (u : Undo.t) : DOMModelUndoStack.t := fst (DOMModelUndoStack_instance u).

(** The index of the stack is a position in it. *)
Definition index_in_range (u : Undo.t) : Prop :=
  0 <= DOMModelUndoStack._index (the_stack u)
    <= Z.of_nat (length (DOMModelUndoStack._stack (the_stack u))).

(** ** [DOMNode]: the attributes *)

(** An [Attribute]; [value] is [None] where the code has [undefined] (the
    last name of a payload of odd length has no value), [_node] is the node
    that made the entry. *)
Module Attribute.
Record t := { name : string; value : option string; _node : nat }.
End Attribute.

(** [this._attributes] *)
Abbreviation Attributes := (JsMap string Attribute.t).

(** [_addAttribute(name, value)] *)
Definition DOMNode_addAttribute (this : nat) (name : string) (value : option string)
    (_attributes : Attributes) : Attributes :=
  map_set name
    {| Attribute.name := name; Attribute.value := value; Attribute._node := this |}
    _attributes.

(** [_setAttribute(name, value)]: an attribute that is there is changed in
    place. *)
Definition DOMNode_setAttribute (this : nat) (name value : string) (_attributes : Attributes)
    : Attributes :=
  match map_get name _attributes with
  | Some attr =>
      map_set name
        {| Attribute.name := Attribute.name attr;
           Attribute.value := Some value;
           Attribute._node := Attribute._node attr |}
        _attributes
  | None => DOMNode_addAttribute this name (Some value) _attributes
  end.

(** [_removeAttribute(name)] *)
Definition DOMNode_removeAttribute (name : string) (_attributes : Attributes) : Attributes :=
  map_delete name _attributes.

(** [getAttribute(name)] *)
Definition DOMNode_getAttribute (name : string) (_attributes : Attributes) : option string :=
  match map_get name _attributes with
  | Some attr => Attribute.value attr
  | None => None
  end.

(** [attributes()] *)
Definition DOMNode_attributes (_attributes : Attributes) : list Attribute.t :=
  map_values _attributes.

(** [hasAttributes()] *)
Definition DOMNode_hasAttributes (_attributes : Attributes) : bool :=
  0 <? Z.of_nat (length _attributes).

(** One round of the loop of [_setAttributesPayload] for [name = attrs[i]]
    and [value = attrs[i + 1]]. *)
Definition payload_round (this : nat) (oldAttributesMap : Attributes) (name : string)
    (value : option string) (state : bool * Attributes) : bool * Attributes :=
  let '(attributesChanged, _attributes) := state in
  let _attributes := DOMNode_addAttribute this name value _attributes in
  if attributesChanged then (true, _attributes)
  else
    match map_get name oldAttributesMap with
    | None => (true, _attributes)
    | Some oldAttribute =>
        (negb (bool_decide (Attribute.value oldAttribute = value)), _attributes)
    end.

(** The loop [for (let i = 0; i < attrs.length; i += 2)]. *)
Fixpoint payload_loop (this : nat) (oldAttributesMap : Attributes) (attrs : list string)
    (state : bool * Attributes) : bool * Attributes :=
  match attrs with
  | [] => state
  | [name] => payload_round this oldAttributesMap name None state
  | name :: value :: rest =>
      payload_loop this oldAttributesMap rest
        (payload_round this oldAttributesMap name (Some value) state)
  end.

(** [_setAttributesPayload(attrs)]: what it returns and the attributes
    after it. *)
Definition DOMNode_setAttributesPayload (this : nat) (attrs : list string)
    (_attributes : Attributes) : bool * Attributes :=
  let attributesChanged :=
    negb (Z.of_nat (length attrs) =? Z.of_nat (length _attributes) * 2) in
  payload_loop this _attributes attrs (attributesChanged, []).

(** The payload of a list of attributes: name, value, name, value, ... *)
Definition attributes_payload (pairs : list (string * string)) : list string :=
  flat_map (fun pair => [fst pair; snd pair]) pairs.

(** The value a map of attributes has for a name, if it has the name. *)
Definition value_of (name : string) (_attributes : Attributes) : option (option string) :=
  Attribute.value <$> map_get name _attributes.

(** * Properties *)

(** ** Numbers *)

Lemma Number_of_Z_exact z : - exact_limit <= z <= exact_limit -> Number_of_Z z = z.
Proof.
  intros Hz. unfold Number_of_Z, exact_limit in *.
  destruct (Z.ltb_spec (Z.abs z) (2 ^ 53)) as [|Hbig]; [reflexivity|].
  change (2 ^ 53) with 9007199254740992 in Hbig.
  assert (Hcases : z = 9007199254740992 \/ z = - 9007199254740992) by lia.
  destruct Hcases as [-> | ->]; vm_compute; reflexivity.
Qed.

Lemma Number_of_Z_large z : exact_limit <= z -> exact_limit <= Number_of_Z z.
Proof.
  intros Hz. unfold Number_of_Z.
  assert (Hpos : 0 < z) by (unfold exact_limit in Hz; lia).
  rewrite (Z.abs_eq z) by lia. rewrite (Z.sgn_pos z) by exact Hpos.
  destruct (Z.ltb_spec z (2 ^ 53)) as [Hsmall|_].
  { change (2 ^ 53) with exact_limit in Hsmall. lia. }
  set (e := Z.log2 z - 52).
  assert (Hlog : 53 <= Z.log2 z).
  { change 53 with (Z.log2 exact_limit). now apply Z.log2_le_mono. }
  assert (He : 1 <= e) by (subst e; lia).
  assert (Hpow : 0 < 2 ^ e) by (apply Z.pow_pos_nonneg; lia).
  assert (Hq : 2 ^ 52 <= z / 2 ^ e).
  { apply Z.div_le_lower_bound; [exact Hpow|].
    rewrite <- Z.pow_add_r by lia. replace (e + 52) with (Z.log2 z) by (subst e; lia).
    apply Z.log2_spec. exact Hpos. }
  assert (Htwo : 2 <= 2 ^ e).
  { change 2 with (2 ^ 1) at 1. apply Z.pow_le_mono_r; lia. }
  set (q := z / 2 ^ e) in *.
  assert (Hq' : q <= (if (z mod 2 ^ e <? 2 ^ (e - 1)) || ((z mod 2 ^ e =? 2 ^ (e - 1)) && Z.even q)
                      then q else q + 1)).
  { destruct ((z mod 2 ^ e <? 2 ^ (e - 1)) || _); lia. }
  match type of Hq' with _ <= ?t => set (q' := t) in * end.
  change (2 ^ 52) with 4503599627370496 in Hq. unfold exact_limit. nia.
Qed.

Lemma Number_increment_exact x :
  - exact_limit <= x + 1 <= exact_limit -> Number_increment x = x + 1.
Proof. apply Number_of_Z_exact. Qed.

Lemma Number_increment_positive x : 1 <= x -> 1 <= Number_increment x.
Proof.
  intros Hx. destruct (Z_lt_le_dec (x + 1) exact_limit) as [Hsmall|Hbig].
  - rewrite Number_increment_exact; unfold exact_limit in *; lia.
  - pose proof (Number_of_Z_large _ Hbig) as H. unfold Number_increment, exact_limit in *. lia.
Qed.

Lemma Number_increment_below x :
  1 <= x -> Number_increment x < exact_limit -> Number_increment x = x + 1.
Proof.
  intros Hx Hbelow. destruct (Z_lt_le_dec (x + 1) exact_limit) as [Hsmall|Hbig].
  - apply Number_increment_exact. unfold exact_limit in *. lia.
  - pose proof (Number_of_Z_large _ Hbig) as H. unfold Number_increment in Hbelow. lia.
Qed.

Lemma Number_increment_stuck : Number_increment exact_limit = exact_limit.
Proof. vm_compute. reflexivity. Qed.

(** ** Qualified names *)

Lemma split_nonempty separator s : split separator s <> [].
Proof. destruct s as [|c s]; simpl; [easy|]. destruct (Ascii.eqb c separator); [easy|]. now destruct (split separator s). Qed.

Lemma split_hd separator s : List.hd EmptyString (split separator s) = before_first separator s.
Proof.
  induction s as [|c s IH]; simpl; [reflexivity|].
  destruct (Ascii.eqb c separator); [reflexivity|].
  destruct (split separator s) as [|piece pieces] eqn:E.
  - now apply split_nonempty in E.
  - simpl in *. now rewrite IH.
Qed.

Lemma split_tl separator s :
  (0 < occurrences separator s)%nat ->
  List.tl (split separator s) = split separator (after_first separator s).
Proof.
  induction s as [|c s IH]; simpl; [lia|].
  destruct (Ascii.eqb c separator); [reflexivity|].
  intros H. simpl in H. specialize (IH H).
  destruct (split separator s) as [|piece pieces] eqn:E; [now apply split_nonempty in E|].
  exact IH.
Qed.

Lemma before_first_all separator s :
  occurrences separator s = 0%nat -> before_first separator s = s.
Proof.
  induction s as [|c s IH]; simpl; [reflexivity|].
  destruct (Ascii.eqb c separator); [lia|].
  intros H. now rewrite IH.
Qed.

Lemma occurrences_after_first separator s :
  occurrences separator (after_first separator s) = Nat.pred (occurrences separator s).
Proof.
  induction s as [|c s IH]; simpl; [reflexivity|].
  destruct (Ascii.eqb c separator); simpl; [reflexivity|exact IH].
Qed.

Lemma before_after_first separator s :
  (0 < occurrences separator s)%nat ->
  before_first separator s +:+ String separator (after_first separator s) = s.
Proof.
  induction s as [|c s IH]; simpl; [lia|].
  destruct (Ascii.eqb_spec c separator) as [->|Hne]; [reflexivity|].
  intros H. simpl in H. change (String c (before_first separator s) +:+ ?x) with
    (String c (before_first separator s +:+ x)). f_equal. now apply IH.
Qed.

(** What [splitQualifiedName] returns for a name with a dot: the part before
    the first dot, and the part between the first dot and the second (the
    end, when there is no second). *)
Lemma splitQualifiedName_dotted s :
  (0 < occurrences "." s)%nat ->
  splitQualifiedName s
  = (before_first "." s, Some (before_first "." (after_first "." s))).
Proof.
  intros H. unfold splitQualifiedName. rewrite split_hd. f_equal.
  pose proof (split_tl "." s H) as Htl.
  destruct (split "." s) as [|piece pieces] eqn:E; [now apply split_nonempty in E|].
  simpl in *. subst pieces.
  rewrite <- (split_hd "." (after_first "." s)).
  destruct (split "." (after_first "." s)) eqn:E2; [now apply split_nonempty in E2|reflexivity].
Qed.

(** C8, as amended. A name with exactly one dot is split into the part before
    the dot and the part after it, and [qualifyName] of the two parts is the
    name again. (With more dots the second part ends at the second dot:
    [splitQualifiedName_dotted].) *)
Theorem splitQualifiedName_one_dot (s : string) :
  occurrences "." s = 1%nat ->
  splitQualifiedName s = (before_first "." s, Some (after_first "." s))
  /\ qualifyName (before_first "." s) (after_first "." s) = s.
Proof.
  intros H. split.
  - rewrite splitQualifiedName_dotted by lia.
    rewrite (before_first_all "." (after_first "." s)); [reflexivity|].
    rewrite occurrences_after_first, H. reflexivity.
  - unfold qualifyName. apply before_after_first. lia.
Qed.

Lemma splitQualifiedName_one_dot_witness :
  splitQualifiedName "DOM.getBoxModel" = ("DOM", Some "getBoxModel")
  /\ qualifyName "DOM" "getBoxModel" = "DOM.getBoxModel".
Proof. exact (splitQualifiedName_one_dot "DOM.getBoxModel" eq_refl). Defined.

(** C8 as stated fails: of ["A.b.c"] the second part is ["b"], not
    ["b.c"], and the two parts make ["A.b"]. *)
Lemma splitQualifiedName_two_dots :
  ~ (forall s : string,
        (0 < occurrences "." s)%nat ->
        exists domain name,
          splitQualifiedName s = (domain, Some name)
          /\ domain = before_first "." s
          /\ name = after_first "." s
          /\ qualifyName domain name = s).
Proof.
  intros claim.
  destruct (claim "A.b.c" ltac:(simpl; lia)) as (domain & name & Hsplit & _ & Hname & _).
  vm_compute in Hsplit, Hname. congruence.
Qed.

(** ** Construction of a target *)

Lemma constructor_rejects_iff parentTarget sessionId connection :
  constructor_rejects parentTarget sessionId connection = true
  <-> (parentTarget = None /\ connection <> None)
      \/ (parentTarget = None /\ sessionId <> "")
      \/ (connection <> None /\ sessionId <> "").
Proof.
  unfold constructor_rejects, truthy.
  destruct parentTarget, connection, (String.eqb_spec sessionId ""); subst; simpl;
    split; intros H; try discriminate; try reflexivity;
    try (destruct H as [[? ?]|[[? ?]|[? ?]]]; congruence);
    auto 6 with nocore datatypes; repeat (first [left; split; congruence | right]); split; congruence.
Qed.

(** C4, as amended. The constructor throws its construction error exactly
    when there is no parent target and a connection or a session id is
    supplied, or a connection and a session id are both supplied; any other
    exception is the missing connection factory, which only a call without a
    connection reaches. So a connection without a session id is accepted
    when a parent target comes with it, a connection with a session id is an
    error, and a target with neither connection nor session id is accepted
    with or without a parent. *)
Theorem TargetBase_new_throws (needsNodeJSPatching : bool) (parentTarget : option nat)
    (sessionId : string) (connection : option nat) (w : World.t) :
  (TargetBase_new needsNodeJSPatching parentTarget sessionId connection w
     = inl construction_error
   <-> (parentTarget = None /\ connection <> None)
       \/ (parentTarget = None /\ sessionId <> "")
       \/ (connection <> None /\ sessionId <> ""))
  /\ (forall e,
        TargetBase_new needsNodeJSPatching parentTarget sessionId connection w = inl e ->
        e = construction_error
        \/ (connection = None /\ World.connectionFactory w = None)).
Proof.
  assert (Hother : forall e,
    constructor_rejects parentTarget sessionId connection = false ->
    TargetBase_new needsNodeJSPatching parentTarget sessionId connection w = inl e ->
    e <> construction_error /\ connection = None /\ World.connectionFactory w = None).
  { intros e Hguard. unfold TargetBase_new. rewrite Hguard.
    destruct (if truthy (JsString sessionId) then _ else None) as [r|].
    - destruct (World.routers _ !! r); [|discriminate].
      destruct (SessionRouter_registerSession _ _ _ _). discriminate.
    - destruct connection as [c|].
      + unfold World_newRouter.
        match goal with |- context [World.routers ?w !! ?r] => destruct (World.routers w !! r) end;
          [|discriminate].
        destruct (SessionRouter_registerSession _ _ _ _). discriminate.
      + destruct (World.connectionFactory w) as [c|].
        * unfold World_newRouter.
          match goal with |- context [World.routers ?w !! ?r] => destruct (World.routers w !! r) end;
            [|discriminate].
          destruct (SessionRouter_registerSession _ _ _ _). discriminate.
        * intros [= <-]. split; [discriminate|]. split; reflexivity. }
  split.
  - rewrite <- constructor_rejects_iff. split.
    + intros H. destruct (constructor_rejects parentTarget sessionId connection) eqn:E;
        [reflexivity|]. destruct (Hother _ eq_refl H) as [Hne _]. congruence.
    + intros H. unfold TargetBase_new. now rewrite H.
  - intros e H. destruct (constructor_rejects parentTarget sessionId connection) eqn:E.
    + left. unfold TargetBase_new in H. rewrite E in H. congruence.
    + right. apply (Hother _ eq_refl H).
Qed.

(** C4 as stated fails: a connection supplied alone, with neither a parent
    target nor a session id, is rejected. *)
Lemma TargetBase_new_connection_alone :
  TargetBase_new false None "" (Some 0%nat) (initial_world plain_globals (Some 1%nat) ∅)
  = inl construction_error.
Proof. reflexivity. Qed.

(** ** The undo stack *)

Lemma resume_keeps_stack (n : nat) (u : Undo.t) (this : DOMModelUndoStack.t) :
  Undo.DOMModelUndoStackInstance u = Some this ->
  exists this',
    Undo.DOMModelUndoStackInstance (Nat.iter n resume_markUndoableState u) = Some this'
    /\ DOMModelUndoStack._stack this' = DOMModelUndoStack._stack this
    /\ DOMModelUndoStack._index this' = DOMModelUndoStack._index this.
Proof.
  intros H. induction n as [|n (this' & Hi & Hs & Hx)].
  - simpl. eauto.
  - rewrite Nat.iter_succ. set (v := Nat.iter n resume_markUndoableState u) in *.
    unfold resume_markUndoableState.
    destruct (Undo.awaiting v); [eauto|].
    unfold DOMModelUndoStack_instance. rewrite Hi. simpl. eauto.
Qed.

(** C6, as amended. From an empty undo stack, three minor edits of one model
    and then a major edit of another leave three entries: the minor edits of
    the first model as one entry, the major commit of the first model that
    the switch of model forces, and the major edit of the second model; the
    index is past the last entry, and what runs after the two awaited
    backend calls changes neither. *)
Theorem three_minor_then_major (A B : nat) :
  A <> B ->
  exists u this,
    mark_all [(A, true); (A, true); (A, true); (B, false)] undo_initial = Some u
    /\ Undo.DOMModelUndoStackInstance u = Some this
    /\ DOMModelUndoStack._stack this = [A; A; B]
    /\ DOMModelUndoStack._index this = 3
    /\ Undo.calls u = [invoke_markUndoableState A; invoke_markUndoableState B]
    /\ forall n, exists this',
         Undo.DOMModelUndoStackInstance (Nat.iter n resume_markUndoableState u) = Some this'
         /\ DOMModelUndoStack._stack this' = [A; A; B]
         /\ DOMModelUndoStack._index this' = 3.
Proof.
  intros Hne.
  assert (HAA : Nat.eqb A A = true) by apply Nat.eqb_refl.
  assert (HBA : Nat.eqb B A = false) by (apply Nat.eqb_neq; congruence).
  eexists. eexists. split.
  - cbn.
    repeat (first [ rewrite bool_decide_eq_true_2 by congruence
                  | rewrite bool_decide_eq_false_2 by congruence
                  | rewrite HAA | rewrite HBA | progress cbn ]).
    reflexivity.
  - cbn. repeat (split; [reflexivity|]).
    intros n.
    match goal with |- context [Nat.iter n _ ?u] =>
      destruct (resume_keeps_stack n u _ eq_refl) as (this' & H1 & H2 & H3) end.
    exists this'. auto.
Qed.

Lemma three_minor_then_major_witness :
  exists u this,
    mark_all [(1, true); (1, true); (1, true); (2, false)]%nat undo_initial = Some u
    /\ Undo.DOMModelUndoStackInstance u = Some this
    /\ DOMModelUndoStack._stack this = [1; 1; 2]%nat
    /\ DOMModelUndoStack._index this = 3
    /\ Undo.calls u = [invoke_markUndoableState 1; invoke_markUndoableState 2]
    /\ forall n, exists this',
         Undo.DOMModelUndoStackInstance (Nat.iter n resume_markUndoableState u) = Some this'
         /\ DOMModelUndoStack._stack this' = [1; 1; 2]%nat
         /\ DOMModelUndoStack._index this' = 3.
Proof. apply (three_minor_then_major 1 2). discriminate. Defined.

(** C6 as stated fails: the stack then has three entries, not two. *)
Lemma three_minor_then_major_entries :
  exists u this,
    mark_all [(1, true); (1, true); (1, true); (2, false)]%nat undo_initial = Some u
    /\ Undo.DOMModelUndoStackInstance u = Some this
    /\ length (DOMModelUndoStack._stack this) <> 2%nat.
Proof. eexists. eexists. split; [reflexivity|]. split; [reflexivity|]. discriminate. Qed.

(** The nesting of [markUndoableState] never exceeds [enough]: with that
    bound or a greater one the call returns. *)
Lemma DOMModel_markUndoableState_returns (depth model : nat) (minorChange : option bool)
    (u : Undo.t) :
  exists u',
    DOMModel_markUndoableState (enough + depth) model minorChange u = Some u'.
Proof.
  assert (Hone : forall d model minorChange u this,
            DOMModelUndoStack._lastModelWithMinorChange (fst (DOMModelUndoStack_instance u))
              = Some model \/
            DOMModelUndoStack._lastModelWithMinorChange (fst (DOMModelUndoStack_instance u))
              = None ->
            this = fst (DOMModelUndoStack_instance u) ->
            exists u', DOMModel_markUndoableState (S d) model minorChange u = Some u').
  { intros d m mc v this Hlast _. remember d as inner eqn:Hinner.
    cbn [DOMModel_markUndoableState].
    destruct (DOMModelUndoStack_instance v) as [this' v'] eqn:E. simpl in Hlast.
    destruct Hlast as [-> | ->].
    - rewrite Nat.eqb_refl. simpl.
      destruct (default false mc && _); [eauto|]. destruct (default false mc); eauto.
    - destruct (default false mc && _); [eauto|]. destruct (default false mc); eauto. }
  change (enough + depth)%nat with (S (S depth)).
  remember (S depth) as inner eqn:Hinner.
  cbn [DOMModel_markUndoableState].
  destruct (DOMModelUndoStack_instance u) as [this v] eqn:E.
  destruct (DOMModelUndoStack._lastModelWithMinorChange this) as [last|] eqn:Hlast.
  - destruct (Nat.eqb model last) eqn:Hm; simpl.
    + destruct (default false minorChange && _); [eauto|].
      destruct (default false minorChange); eauto.
    + assert (Hv : DOMModelUndoStack_instance v = (this, v)).
      { unfold DOMModelUndoStack_instance in *.
        destruct (Undo.DOMModelUndoStackInstance u) eqn:Hu.
        - injection E as <- <-. now rewrite Hu.
        - injection E as <- <-. reflexivity. }
      destruct (Hone depth last None v this) as [v' Hv'].
      { left. now rewrite Hv. }
      { now rewrite Hv. }
      rewrite Hinner, Hv'.
      destruct (default false minorChange && _); [eauto|].
      destruct (default false minorChange); eauto.
  - destruct (default false minorChange && _); [eauto|].
    destruct (default false minorChange); eauto.
Qed.

(** ** Validation of the arguments of a command *)

Lemma prepare_from_no_arguments `{Externals} method schema remaining params hasParams :
  Exists (fun p => CommandParameter.optional p = false) remaining ->
  exists text,
    text <> "" /\ prepare_from method schema remaining [] params hasParams = (None, [text]).
Proof.
  induction remaining as [|param rest IH]; intros Hex.
  - inversion Hex.
  - cbn [prepare_from]. destruct (CommandParameter.optional param) eqn:Hopt.
    + simpl. apply IH. inversion Hex as [? ? Hp|? ? Hrest]; subst; [congruence|exact Hrest].
    + simpl. eexists. split; [|reflexivity]. discriminate.
Qed.

(** C7. The method generated for a command whose schema has a parameter that
    is not optional, called with no argument: the error is written to the
    console, the promise of the call is resolved with [null], and nothing
    else happens: nothing is handed to a router, no timer is set, nothing is
    thrown. *)
Theorem command_without_arguments `{Externals} (w : World.t) (target : nat)
    (agentDomain methodName : string) (parameters : list CommandParameter.t)
    (t : TargetBase.t) (a : AgentPrototype.t) :
  agent_of w target agentDomain = Some (t, a) ->
  AgentPrototype.commands a !! methodName = Some parameters ->
  Exists (fun p => CommandParameter.optional p = false) parameters ->
  exists text,
    text <> ""
    /\ AgentPrototype_command target agentDomain methodName [] w
       = with_log
           (World.log w
              ++ [ConsoleError text;
                  PromiseResolved (World.promises w) (ResolvedValue JsNull)])
           (with_promises (S (World.promises w)) w).
Proof.
  intros Hagent Hcommand Hrequired.
  destruct (prepare_from_no_arguments
              (qualifyName (AgentPrototype._domain a) methodName)
              parameters parameters [] false Hrequired) as (text & Hne & Hprep).
  exists text. split; [exact Hne|].
  unfold AgentPrototype_command. rewrite Hagent, Hcommand.
  unfold AgentPrototype_sendMessageToBackendPromise. rewrite Hagent.
  unfold AgentPrototype_prepareParameters. rewrite Hprep.
  cbn [map List.last truthy].
  destruct (String.eqb_spec text "") as [->|_]; [congruence|].
  cbn [negb]. unfold promise_created, emit. destruct w. cbn.
  rewrite !app_nil_r, <- app_assoc. reflexivity.
Qed.

Lemma command_without_arguments_witness :
  let w :=
    @run plain_externals
      [RegisterCommand "Foo.bar"
         [{| CommandParameter.name := "x";
             CommandParameter.type := "number";
             CommandParameter.optional := false |}] [];
       NewTarget false None "" None]
      (initial_world plain_globals (Some 0%nat) ∅) in
  exists text,
    text <> ""
    /\ @AgentPrototype_command plain_externals 0 "Foo" "bar" [] w
       = with_log
           (World.log w
              ++ [ConsoleError text;
                  PromiseResolved (World.promises w) (ResolvedValue JsNull)])
           (with_promises (S (World.promises w)) w).
Proof.
  intros w.
  refine (@command_without_arguments plain_externals w 0%nat "Foo" "bar" _ _ _ _ _ _).
  - vm_compute. reflexivity.
  - vm_compute. reflexivity.
  - apply Exists_cons_hd. reflexivity.
Defined.

(** ** Dispatch of events *)

Lemma registered_dispatchers eventArgs handlers :
  DispatcherManager.dispatchers (registered eventArgs handlers) = handlers
  /\ DispatcherManager.eventArgs (registered eventArgs handlers) = eventArgs.
Proof.
  unfold registered.
  assert (G : forall m,
    DispatcherManager.dispatchers (fold_left DispatcherManager_addDomainDispatcher handlers m)
      = DispatcherManager.dispatchers m ++ handlers
    /\ DispatcherManager.eventArgs (fold_left DispatcherManager_addDomainDispatcher handlers m)
      = DispatcherManager.eventArgs m).
  { induction handlers as [|h hs IH]; intros m; simpl.
    - now rewrite app_nil_r.
    - destruct (IH (DispatcherManager_addDomainDispatcher m h)) as [-> ->]. simpl.
      now rewrite <- app_assoc. }
  apply (G (DispatcherManager_new eventArgs)).
Qed.

(** C5, as amended. With no handler registered, [dispatch] does nothing,
    whatever the event. With handlers registered, for an event whose
    qualified method name (the [method] of the message) is a key of the
    table of the domain, and whose payload decodes when it is compressed,
    [dispatch] makes one parameter object and calls, in the order of
    registration, exactly the handlers that have a property of the
    unqualified name, each with that object. *)
Theorem dispatch_reaches_handlers `{Externals} (eventArgs : gmap string (list string))
    (handlers : list Handler.t) (event : string) (messageObject : Message.t)
    (payload : JsValue) (heap : list Obj) :
  DispatcherManager_dispatch (registered eventArgs []) event messageObject heap = (heap, [])
  /\ (handlers <> [] ->
      eventArgs_has eventArgs (Message.method messageObject) = true ->
      event_payload messageObject = Some payload ->
      DispatcherManager_dispatch (registered eventArgs handlers) event messageObject heap
      = (heap ++ [spread payload],
         map (fun h => HandlerInvoked (Handler.object h) event (length heap))
             (List.filter (implements event) handlers))).
Proof.
  split; [reflexivity|].
  intros Hsome Hhas Hpayload. unfold DispatcherManager_dispatch.
  destruct (registered_dispatchers eventArgs handlers) as [-> ->].
  destruct handlers as [|h hs]; [congruence|].
  unfold event_payload in Hpayload. rewrite Hhas.
  destruct (Message.compress messageObject).
  - rewrite Hpayload. reflexivity.
  - injection Hpayload as <-. reflexivity.
Qed.

Lemma dispatch_reaches_handlers_witness :
  let h1 := {| Handler.object := 1%nat; Handler.properties := ["bar"] |} in
  let h2 := {| Handler.object := 2%nat; Handler.properties := ["baz"] |} in
  let h3 := {| Handler.object := 3%nat; Handler.properties := ["foo"; "bar"] |} in
  let messageObject := event_message "Foo.bar" (JsObject [("x", JsNumber 1)]) in
  @DispatcherManager_dispatch plain_externals (registered {["Foo.bar" := ["x"]]} [h1; h2; h3])
    "bar" messageObject []
  = ([[("x", JsNumber 1)]], [HandlerInvoked 1 "bar" 0; HandlerInvoked 3 "bar" 0]).
Proof.
  intros h1 h2 h3 messageObject.
  refine (proj2 (@dispatch_reaches_handlers plain_externals {["Foo.bar" := ["x"]]}
                   [h1; h2; h3] "bar" messageObject (JsObject [("x", JsNumber 1)]) [])
                _ _ _).
  - discriminate.
  - vm_compute. reflexivity.
  - reflexivity.
Defined.

(** C5 as stated fails. The table of a domain is looked up with the
    qualified name of the message: a table that has the unqualified name
    ["bar"] as a key does not let the event ["Foo.bar"] through, and a table
    that has ["Foo.bar"] does not let ["Foo.bar.baz"] through, whose
    unqualified name is ["bar"] too. In both cases a handler with the
    property ["bar"] is registered and is not called. *)
Lemma dispatch_unqualified_name :
  let h := {| Handler.object := 1%nat; Handler.properties := ["bar"] |} in
  let target table :=
    {| TargetBase._needsNodeJSPatching := false;
       TargetBase._sessionId := "";
       TargetBase._router := None;
       TargetBase.agents := ∅;
       TargetBase.dispatchers := {["Foo" := registered table [h]]} |} in
  (implements "bar" h = true
   /\ is_Some (({["bar" := []]} : gmap string (list string)) !! "bar")
   /\ splitQualifiedName "Foo.bar" = ("Foo", Some "bar")
   /\ handlers_invoked
        (snd (@TargetBase_dispatch plain_externals (target {["bar" := []]})
                (event_message "Foo.bar" (JsObject [])) [])) = [])
  /\ (is_Some (({["Foo.bar" := []]} : gmap string (list string)) !! qualifyName "Foo" "bar")
      /\ splitQualifiedName "Foo.bar.baz" = ("Foo", Some "bar")
      /\ handlers_invoked
           (snd (@TargetBase_dispatch plain_externals (target {["Foo.bar" := []]})
                   (event_message "Foo.bar.baz" (JsObject [])) [])) = []).
Proof.
  intros h target. repeat split; try (vm_compute; eauto; fail).
Qed.

(** ** The log *)

Lemma scheduled_reports effects : Forall reports_only effects -> scheduled effects = [].
Proof.
  induction 1 as [|e es He _ IH]; [reflexivity|].
  destruct e; simpl in *; try contradiction; exact IH.
Qed.

Lemma emit_reports effects w :
  Forall reports_only effects -> emit effects w = with_log (World.log w ++ effects) w.
Proof.
  intros H. unfold emit. rewrite (scheduled_reports _ H). destruct w; simpl.
  now rewrite app_nil_r.
Qed.

Lemma with_log_with_log l1 l2 w : with_log l2 (with_log l1 w) = with_log l2 w.
Proof. reflexivity. Qed.

Lemma forward_to_proxies_reports handlers messageObject sessions :
  Forall reports_only (fst (forward_to_proxies handlers messageObject sessions)).
Proof.
  induction sessions as [|session rest IH]; simpl; [constructor|].
  destruct (forward_to_proxies handlers messageObject rest) as [effects suppress].
  destruct (Session.proxyConnection session); [|exact IH].
  destruct (bool_decide _); simpl; [constructor; [exact I|exact IH]|exact IH].
Qed.

(** ** Messages for a proxy session *)

(** C10. A message whose session id is that of a session with a proxy
    connection is not handled by the router itself: [_onMessage] reports to
    the hooks of [test], forwards to the proxy connections, and returns. The
    routers (their callbacks, their counters), the targets, the timers and
    the parameter objects are as before, and no callback and no handler has
    been called. *)
Theorem proxied_message_not_handled `{Externals} (w : World.t) (r : nat)
    (router : SessionRouter.t) (messageObject : Message.t) (session : Session.t)
    (connection : nat) :
  World.routers w !! r = Some router ->
  map_get (default "" (Message.sessionId messageObject)) (SessionRouter._sessions router)
    = Some session ->
  Session.proxyConnection session = Some connection ->
  exists effects,
    SessionRouter_onMessage r (Some messageObject) w = with_log (World.log w ++ effects) w
    /\ Forall reports_only effects
    /\ invoked effects = []
    /\ handlers_invoked effects = [].
Proof.
  intros Hrouter Hsession Hproxy.
  pose proof (forward_to_proxies_reports (World.onMessageHandlers w) messageObject
                (map_values (SessionRouter._sessions router))) as Hforward.
  assert (Hquiet : forall effects,
            Forall reports_only effects -> invoked effects = [] /\ handlers_invoked effects = []).
  { induction 1 as [|e es He _ [IH1 IH2]]; [split; reflexivity|].
    destruct e; simpl in *; try contradiction; split; assumption. }
  unfold SessionRouter_onMessage. rewrite Hrouter.
  set (dumped := if Globals.dumpProtocol (World.globals w)
                 then [DumpProtocol false (Some messageObject)] else []).
  set (received := if Globals.onMessageReceived (World.globals w)
                   then [OnMessageReceived messageObject
                           (SessionRouter_getTargetBySessionId router
                              (Message.sessionId messageObject))] else []).
  assert (Hdumped : Forall reports_only dumped).
  { subst dumped. destruct (Globals.dumpProtocol _); repeat constructor. }
  assert (Hreceived : Forall reports_only received).
  { subst received. destruct (Globals.onMessageReceived _); repeat constructor. }
  destruct (forward_to_proxies _ _ _) as [forwarded suppress] eqn:Eforward.
  simpl in Hforward.
  exists (dumped ++ received ++ forwarded).
  assert (Hall : Forall reports_only (dumped ++ received ++ forwarded)).
  { repeat (apply Forall_app; split); assumption. }
  split; [|split; [exact Hall|apply Hquiet, Hall]].
  assert (E1 : (if Globals.dumpProtocol (World.globals w)
                then emit [DumpProtocol false (Some messageObject)] w else w)
               = with_log (World.log w ++ dumped) w).
  { subst dumped. destruct (Globals.dumpProtocol _).
    - apply emit_reports. repeat constructor.
    - rewrite app_nil_r. now destruct w. }
  rewrite E1.
  assert (E2 : forall w', World.globals w' = World.globals w ->
               (if Globals.onMessageReceived (World.globals w)
                then emit [OnMessageReceived messageObject
                             (SessionRouter_getTargetBySessionId router
                                (Message.sessionId messageObject))] w' else w')
               = with_log (World.log w' ++ received) w').
  { intros w' _. subst received. destruct (Globals.onMessageReceived _).
    - apply emit_reports. repeat constructor.
    - rewrite app_nil_r. now destruct w'. }
  rewrite E2 by reflexivity.
  change (World.onMessageHandlers (with_log _ (with_log _ w))) with (World.onMessageHandlers w).
  rewrite Eforward, Hsession.
  unfold has_proxyConnection. rewrite Hproxy.
  rewrite emit_reports by assumption.
  simpl. rewrite <- !app_assoc. reflexivity.
Qed.

(** A response for the session ["s1"], which has a proxy connection and a
    waiting callback. *)
Lemma proxied_message_not_handled_witness :
  let w := @run plain_externals
             [NewTarget false None "" None; RegisterSession 0 0 "s1" (Some 5%nat);
              SendMessage 0 "s1" "DOM" "DOM.enable" JsNull 7]
             (initial_world plain_globals (Some 0%nat) ∅) in
  let messageObject := response_message "s1" 1 JsNull in
  exists effects,
    @SessionRouter_onMessage plain_externals 0 (Some messageObject) w
    = with_log (World.log w ++ effects) w
    /\ Forall reports_only effects
    /\ invoked effects = []
    /\ handlers_invoked effects = [].
Proof.
  intros w messageObject.
  eapply (@proxied_message_not_handled plain_externals w 0%nat)
    with (connection := 5%nat).
  - vm_compute. reflexivity.
  - vm_compute. reflexivity.
  - reflexivity.
Defined.

(** ** Frames: what an operation leaves alone *)

Lemma map_get_In {K V} `{EqDecision K} (k : K) (v : V) m :
  map_get k m = Some v -> In v (map_values m).
Proof.
  induction m as [|[k' v'] m IH]; simpl; [discriminate|].
  destruct (decide (k' = k)); [intros [= ->]; now left|intros H'; right; auto].
Qed.

Lemma map_values_set {K V} `{EqDecision K} (k : K) (v x : V) m :
  In x (map_values (map_set k v m)) -> x = v \/ In x (map_values m).
Proof.
  induction m as [|[k' v'] m IH]; simpl.
  - intros [->|[]]. now left.
  - destruct (decide (k' = k)); simpl.
    + intros [->|H']; auto.
    + intros [->|H']; auto. destruct (IH H'); auto.
Qed.

Lemma map_values_delete {K V} `{EqDecision K} (k : K) (x : V) m :
  In x (map_values (map_delete k m)) -> In x (map_values m).
Proof.
  induction m as [|[k' v'] m IH]; simpl; [tauto|].
  destruct (decide (k' = k)); simpl; [auto|]. intros [->|H']; auto.
Qed.

Lemma In_insert {A} (i : nat) (x y : A) l : In x (<[i:=y]> l) -> x = y \/ In x l.
Proof.
  revert i. induction l as [|z l IH]; intros [|i]; simpl; try tauto.
  - intros [->|H]; auto.
  - intros [->|H]; auto. destruct (IH _ H); auto.
Qed.

Lemma pending_In c router :
  In c (pending_callbacks router) <->
  exists session entry,
    In session (map_values (SessionRouter._sessions router))
    /\ In entry (map_values (Session.callbacks session))
    /\ CallbackWithDebugInfo.callback entry = c.
Proof.
  unfold pending_callbacks. rewrite in_concat. split.
  - intros (l & Hl & Hc). apply in_map_iff in Hl as (session & <- & Hs).
    apply in_map_iff in Hc as (entry & <- & He). eauto.
  - intros (session & entry & Hs & He & <-). eexists. split.
    + apply in_map_iff. eauto.
    + apply in_map_iff. eauto.
Qed.

Lemma pending_with_callbacks c sessionId session callbacks router :
  In session (map_values (SessionRouter._sessions router)) ->
  In c (pending_callbacks (router_with_callbacks sessionId session callbacks router)) ->
  (exists entry, In entry (map_values callbacks) /\ CallbackWithDebugInfo.callback entry = c)
  \/ In c (pending_callbacks router).
Proof.
  intros _. rewrite !pending_In. intros (s & entry & Hs & He & <-).
  simpl in Hs. apply map_values_set in Hs as [->|Hs]; simpl in *; eauto 6.
Qed.

Lemma routers_In c routers :
  In c (concat (map pending_callbacks routers)) <->
  exists router, In router routers /\ In c (pending_callbacks router).
Proof.
  rewrite in_concat. split.
  - intros (l & Hl & Hc). apply in_map_iff in Hl as (router & <- & Hr). eauto.
  - intros (router & Hr & Hc). eexists. split; [apply in_map_iff|]; eauto.
Qed.

Lemma cached_In c prototypes :
  In c (cached_callbacks prototypes) <->
  exists a prototype method message,
    prototypes !! a = Some prototype
    /\ AgentPrototype._cachedMessages prototype !! method = Some (message, c).
Proof.
  unfold cached_callbacks. rewrite in_concat. split.
  - intros (l & Hl & Hc). apply in_map_iff in Hl as ([a prototype] & <- & Hp).
    apply in_map_iff in Hc as ([method [message c']] & <- & Hm).
    apply list_elem_of_In, elem_of_map_to_list in Hp, Hm. simpl in *. eauto 8.
  - intros (a & prototype & method & message & Hp & Hm).
    exists (map (fun cached : string * (Message.t * Callback) => snd (snd cached))
                (map_to_list (AgentPrototype._cachedMessages prototype))).
    split.
    + apply in_map_iff. exists (a, prototype). split; [reflexivity|].
      now apply list_elem_of_In, elem_of_map_to_list.
    + apply in_map_iff. exists (method, (message, c)). split; [reflexivity|].
      now apply list_elem_of_In, elem_of_map_to_list.
Qed.

Lemma held_iff c w :
  held c w <->
  (exists router, In router (World.routers w) /\ In c (pending_callbacks router))
  \/ In c (timer_callbacks (World.timers w))
  \/ (exists a prototype method message,
        World._agentPrototypes w !! a = Some prototype
        /\ AgentPrototype._cachedMessages prototype !! method = Some (message, c)).
Proof.
  unfold held, held_callbacks.
  rewrite list_elem_of_In, !in_app_iff, routers_In, cached_In. reflexivity.
Qed.

(** ** Frames *)

Lemma sent_ids_app r l1 l2 : sent_ids r (l1 ++ l2) = sent_ids r l1 ++ sent_ids r l2.
Proof.
  induction l1 as [|e l1 IH]; simpl; [reflexivity|].
  destruct e; simpl; try exact IH.
  destruct (Nat.eqb router r); [|exact IH].
  destruct (Message.id message); simpl; now rewrite IH.
Qed.

Lemma invoked_app l1 l2 : invoked (l1 ++ l2) = invoked l1 ++ invoked l2.
Proof.
  induction l1 as [|e l1 IH]; simpl; [reflexivity|].
  destruct e; simpl; try exact IH. now rewrite IH.
Qed.

Lemma scheduled_app l1 l2 : scheduled (l1 ++ l2) = scheduled l1 ++ scheduled l2.
Proof.
  induction l1 as [|e l1 IH]; simpl; [reflexivity|].
  destruct e; simpl; try exact IH. now rewrite IH.
Qed.

Lemma timer_callbacks_app l1 l2 :
  timer_callbacks (l1 ++ l2) = timer_callbacks l1 ++ timer_callbacks l2.
Proof.
  induction l1 as [|e l1 IH]; simpl; [reflexivity|].
  destruct e; simpl; try exact IH. now rewrite IH.
Qed.

Lemma sent_ids_none r effects : sent_messages effects = [] -> sent_ids r effects = [].
Proof.
  induction effects as [|e es IH]; simpl; [reflexivity|].
  destruct e; simpl; try exact IH. discriminate.
Qed.

Lemma advance_refl r w : advance r w w.
Proof.
  split; [tauto|]. exists []. rewrite app_nil_r. split; [reflexivity|].
  intros _ _. split; [lia|]. split; constructor.
Qed.

Lemma advance_trans r w1 w2 w3 : advance r w1 w2 -> advance r w2 w3 -> advance r w1 w3.
Proof.
  intros (Hp1 & n1 & Hs1 & Hi1) (Hp2 & n2 & Hs2 & Hi2).
  split; [tauto|]. exists (n1 ++ n2). split; [now rewrite Hs2, Hs1, app_assoc|].
  intros Hpositive Hbelow.
  destruct (Hi2 (Hp1 Hpositive) Hbelow) as (Hb2 & Ho2 & Hr2).
  destruct (Hi1 Hpositive ltac:(lia)) as (Hb1 & Ho1 & Hr1).
  split; [lia|]. split.
  - clear Hs1 Hs2 Hi1 Hi2. induction Ho1 as [|x n1 Ho1 IH Hx]; simpl; [exact Ho2|].
    inversion Hr1 as [|? ? Hx1 Hr1']; subst. constructor; [apply IH, Hr1'|].
    apply Forall_app. split; [exact Hx|].
    eapply Forall_impl; [exact Hr2|]. simpl. intros y Hy. lia.
  - apply Forall_app. split; (eapply Forall_impl; [eassumption|]); simpl; intros; lia.
Qed.

Lemma advance_same r w w' :
  World.routers w' = World.routers w -> World.log w' = World.log w -> advance r w w'.
Proof.
  intros Hr Hl. unfold advance, next_id. rewrite Hr, Hl. split; [tauto|].
  exists []. rewrite app_nil_r. split; [reflexivity|].
  intros _ _. split; [lia|]. split; constructor.
Qed.

Lemma calm_refl c w : calm c w w.
Proof. intros H. split; [exact H|]. exists []. now rewrite app_nil_r. Qed.

Lemma calm_trans c w1 w2 w3 : calm c w1 w2 -> calm c w2 w3 -> calm c w1 w3.
Proof.
  intros H12 H23 H1. destruct (H12 H1) as (H2 & n1 & Hl1 & Hn1).
  destruct (H23 H2) as (H3 & n2 & Hl2 & Hn2). split; [exact H3|].
  exists (n1 ++ n2). split; [now rewrite Hl2, Hl1, app_assoc|].
  rewrite invoked_app, in_app_iff. tauto.
Qed.

Lemma moves_refl r c w : moves r c w w.
Proof. split; [apply advance_refl|apply calm_refl]. Qed.

Lemma moves_trans r c w1 w2 w3 : moves r c w1 w2 -> moves r c w2 w3 -> moves r c w1 w3.
Proof.
  intros [A1 C1] [A2 C2]. split; [eapply advance_trans|eapply calm_trans]; eassumption.
Qed.

Lemma safe_timers c w : safe c w -> ~ In c (timer_callbacks (World.timers w)).
Proof.
  intros [H _] Hin. apply H. unfold held, held_callbacks.
  rewrite list_elem_of_In, !in_app_iff. tauto.
Qed.

Lemma safe_cached c w : safe c w -> ~ In c (cached_callbacks (World._agentPrototypes w)).
Proof.
  intros [H _] Hin. apply H. unfold held, held_callbacks.
  rewrite list_elem_of_In, !in_app_iff. tauto.
Qed.

Lemma safe_pending c w router :
  safe c w -> In router (World.routers w) -> ~ In c (pending_callbacks router).
Proof.
  intros [H _] Hr Hin. apply H. apply held_iff. left. eauto.
Qed.

(** A change that leaves the routers and the log alone, and neither takes
    promises back nor gives a callback to a timer or a cache. *)
Lemma moves_frame r c w w' :
  World.routers w' = World.routers w ->
  World.log w' = World.log w ->
  (World.promises w <= World.promises w')%nat ->
  (safe c w -> ~ In c (timer_callbacks (World.timers w'))) ->
  (safe c w -> ~ In c (cached_callbacks (World._agentPrototypes w'))) ->
  moves r c w w'.
Proof.
  intros Hr Hl Hp Ht Ha. split; [now apply advance_same|].
  intros Hsafe. split.
  - split.
    + intros Hheld. apply held_iff in Hheld. rewrite Hr in Hheld.
      destruct Hheld as [(x & Hx & Hc)|[Hin|Hin]].
      * now apply (safe_pending c w x).
      * now apply Ht.
      * apply Ha; [exact Hsafe|]. now apply cached_In.
    + destruct Hsafe as [_ Hs]. destruct c; simpl in *; trivial; lia.
  - exists []. now rewrite app_nil_r.
Qed.

Lemma moves_emit r c effects w :
  sent_messages effects = [] ->
  (safe c w -> ~ In c (invoked effects) /\ ~ In c (timer_callbacks (scheduled effects))) ->
  moves r c w (emit effects w).
Proof.
  intros Hsent Hside. split.
  - split; [intros Hpositive; exact Hpositive|]. exists []. simpl.
    rewrite sent_ids_app, (sent_ids_none _ _ Hsent). split; [reflexivity|].
    intros _ _. split; [apply Z.le_refl|]. split; constructor.
  - intros Hsafe. destruct (Hside Hsafe) as [Hinv Htim]. split.
    + destruct Hsafe as [Hheld Hstale]. split; [|destruct c; exact Hstale].
      unfold held, held_callbacks in *. simpl.
      rewrite list_elem_of_In, !in_app_iff, timer_callbacks_app, in_app_iff in *. tauto.
    + exists effects. split; [reflexivity|exact Hinv].
Qed.

Lemma moves_put_router r c r' router router' w :
  World.routers w !! r' = Some router ->
  SessionRouter._lastMessageId router' = SessionRouter._lastMessageId router ->
  (safe c w -> ~ In c (pending_callbacks router')) ->
  moves r c w (put_router r' router' w).
Proof.
  intros Hlookup Hid Hside. split.
  - assert (Hnext : next_id r (put_router r' router' w) = next_id r w).
    { unfold next_id, put_router. simpl. destruct (decide (r' = r)) as [->|Hne].
      - rewrite list_lookup_insert_eq by (eapply lookup_lt_Some; eassumption).
        now rewrite Hlookup, Hid.
      - now rewrite list_lookup_insert_ne by exact Hne. }
    split; [rewrite Hnext; tauto|].
    exists []. simpl. rewrite app_nil_r. split; [reflexivity|].
    intros _ _. rewrite Hnext. split; [lia|]. split; constructor.
  - intros Hsafe. split.
    + split; [|destruct Hsafe as [_ Hs]; destruct c; exact Hs].
      intros Hheld. apply held_iff in Hheld. simpl in Hheld.
      destruct Hheld as [(x & Hx & Hc)|[Ht|Ha]].
      * apply In_insert in Hx as [->|Hx]; [now apply Hside|].
        now apply (safe_pending c w x).
      * now apply (safe_timers c w).
      * apply (safe_cached c w Hsafe). now apply cached_In.
    + exists []. simpl. now rewrite app_nil_r.
Qed.

Lemma moves_put_agent r c a prototype w :
  (safe c w ->
   forall method message,
     AgentPrototype._cachedMessages prototype !! method = Some (message, c) -> False) ->
  moves r c w (put_agent a prototype w).
Proof.
  intros Hside. apply moves_frame; [reflexivity|reflexivity|apply Nat.le_refl|exact (safe_timers c w)|].
  intros Hsafe Hin. apply cached_In in Hin as (a' & p' & method & message & Hp & Hm).
  simpl in Hp. destruct (decide (a = a')) as [->|Hne].
  - rewrite lookup_insert_eq in Hp. injection Hp as <-. eapply Hside; eassumption.
  - rewrite lookup_insert_ne in Hp by exact Hne.
    apply (safe_cached c w Hsafe). apply cached_In. eauto 8.
Qed.

(** A router is replaced and effects happen: the step every method of a
    router amounts to. *)
Lemma moves_router_step r c r' router router' effects w :
  World.routers w !! r' = Some router ->
  (1 <= SessionRouter._lastMessageId router -> 1 <= SessionRouter._lastMessageId router') ->
  (1 <= SessionRouter._lastMessageId router ->
   SessionRouter._lastMessageId router' < exact_limit ->
   SessionRouter._lastMessageId router <= SessionRouter._lastMessageId router'
   /\ StronglySorted Z.lt (sent_ids r' effects)
   /\ Forall (fun i => SessionRouter._lastMessageId router <= i
                       < SessionRouter._lastMessageId router') (sent_ids r' effects)) ->
  (forall r'', r'' <> r' -> sent_ids r'' effects = []) ->
  (safe c w ->
   ~ In c (pending_callbacks router') /\ ~ In c (invoked effects)
   /\ ~ In c (timer_callbacks (scheduled effects))) ->
  moves r c w (emit effects (put_router r' router' w)).
Proof.
  intros Hlookup Hpositive Hids Hother Hside.
  assert (Hlen : (r' < length (World.routers w))%nat) by (eapply lookup_lt_Some; eassumption).
  split.
  - unfold advance, next_id. simpl. rewrite sent_ids_app.
    destruct (decide (r' = r)) as [->|Hne].
    + rewrite list_lookup_insert_eq by exact Hlen. rewrite Hlookup.
      split; [exact Hpositive|]. eauto.
    + rewrite list_lookup_insert_ne by exact Hne. split; [tauto|].
      exists []. rewrite (Hother r) by congruence. split; [reflexivity|].
      intros _ _. split; [lia|]. split; constructor.
  - intros Hsafe. destruct (Hside Hsafe) as (Hpend & Hinv & Htim). split.
    + split; [|destruct Hsafe as [_ Hs]; destruct c; exact Hs].
      intros Hheld. apply held_iff in Hheld. simpl in Hheld.
      rewrite timer_callbacks_app, in_app_iff in Hheld.
      destruct Hheld as [(x & Hx & Hc)|[[Ht|Ht]|Ha]].
      * apply In_insert in Hx as [->|Hx]; [now apply Hpend|].
        now apply (safe_pending c w x).
      * now apply (safe_timers c w).
      * now apply Htim.
      * apply (safe_cached c w Hsafe). now apply cached_In.
    + exists effects. split; [reflexivity|exact Hinv].
Qed.

Lemma moves_tame r c r' router result w :
  World.routers w !! r' = Some router ->
  tame router result ->
  moves r c w (emit (snd result) (put_router r' (fst result) w)).
Proof.
  intros Hlookup (Hid & Hpend & Hsent & Hinv & Htim).
  assert (Hin : In router (World.routers w)).
  { apply list_elem_of_In. eapply list_elem_of_lookup_2. eassumption. }
  apply (moves_router_step r c r' router); try assumption.
  - lia.
  - intros _ _. rewrite (sent_ids_none _ _ Hsent). split; [lia|]. split; constructor.
  - intros. now apply sent_ids_none.
  - intros Hsafe. rewrite Hinv. repeat split.
    + intros H. eapply safe_pending; eauto.
    + tauto.
    + intros H. eapply safe_pending; eauto.
Qed.

Lemma In_lookup {A} (l : list A) i x : l !! i = Some x -> In x l.
Proof. intros H. apply list_elem_of_In. eapply list_elem_of_lookup_2. eassumption. Qed.

Lemma moves_sendMessage r c r' sessionId domain method params callback w :
  (safe c w -> callback <> c) ->
  moves r c w (World_sendMessage r' sessionId domain method params callback w).
Proof.
  intros Hside. unfold World_sendMessage.
  destruct (World.routers w !! r') as [router|] eqn:Hlookup; [|apply moves_refl].
  pose proof (In_lookup _ _ _ Hlookup) as Hin.
  unfold SessionRouter_sendMessage, SessionRouter_nextMessageId. cbn [fst snd].
  match goal with |- context [map_get sessionId ?s] =>
    change s with (SessionRouter._sessions router) end.
  destruct (map_get sessionId (SessionRouter._sessions router)) as [session|] eqn:Hsession.
  - apply (moves_router_step r c r' router); try assumption.
    + simpl. apply Number_increment_positive.
    + simpl. intros Hpositive Hbelow.
      rewrite (Number_increment_below _ Hpositive Hbelow). split; [lia|].
      rewrite !sent_ids_app. destruct (Globals.dumpProtocol _), (Globals.onMessageSent _),
        (statsRecording _); simpl; rewrite Nat.eqb_refl; repeat constructor; lia.
    + intros r'' Hne. rewrite !sent_ids_app.
      apply Nat.eqb_neq in Hne. rewrite Nat.eqb_sym in Hne.
      destruct (Globals.dumpProtocol _), (Globals.onMessageSent _),
        (statsRecording _); simpl; rewrite Hne; reflexivity.
    + intros Hsafe. split; [|split].
      * intros Hc. apply pending_with_callbacks in Hc.
        -- destruct Hc as [(entry & He & Hcb)|Hc].
           ++ apply map_values_set in He as [->|He].
              ** simpl in Hcb. now apply (Hside Hsafe).
              ** eapply (safe_pending c w router); try eassumption.
                 apply pending_In. exists session, entry. repeat split; try assumption.
                 eapply map_get_In. eassumption.
           ++ now apply (safe_pending c w router).
        -- simpl. eapply map_get_In. eassumption.
      * destruct (Globals.dumpProtocol _), (Globals.onMessageSent _),
          (statsRecording _); simpl; tauto.
      * destruct (Globals.dumpProtocol _), (Globals.onMessageSent _),
          (statsRecording _); simpl; tauto.
  - apply (moves_router_step r c r' router); try assumption.
    + simpl. apply Number_increment_positive.
    + simpl. intros Hpositive Hbelow.
      rewrite (Number_increment_below _ Hpositive Hbelow). split; [lia|].
      destruct (Globals.dumpProtocol _), (Globals.onMessageSent _); simpl;
        split; constructor.
    + intros. destruct (Globals.dumpProtocol _), (Globals.onMessageSent _); reflexivity.
    + intros Hsafe. split; [|split].
      * now apply (safe_pending c w router).
      * destruct (Globals.dumpProtocol _), (Globals.onMessageSent _); simpl; tauto.
      * destruct (Globals.dumpProtocol _), (Globals.onMessageSent _); simpl; tauto.
Qed.

Lemma timer_callbacks_unregister entries :
  timer_callbacks (scheduled (map dispatchUnregisterSessionError entries))
  = map CallbackWithDebugInfo.callback entries.
Proof. induction entries as [|e es IH]; simpl; [reflexivity|now rewrite IH]. Qed.

Lemma sent_messages_unregister entries :
  sent_messages (map dispatchUnregisterSessionError entries) = []
  /\ invoked (map dispatchUnregisterSessionError entries) = [].
Proof. induction entries as [|e es [IH1 IH2]]; simpl; auto. Qed.

Lemma tame_registerSession router target sessionId proxyConnection :
  tame router (SessionRouter_registerSession router target sessionId proxyConnection).
Proof.
  unfold tame, SessionRouter_registerSession. cbn [fst snd]. split; [reflexivity|].
  split; [|destruct proxyConnection; [destruct (existsb _ _)|]; simpl; tauto].
  intros c. rewrite !pending_In. intros (s & entry & Hs & He & <-).
  simpl in Hs. apply map_values_set in Hs as [->|Hs]; [destruct He|eauto].
Qed.

Lemma tame_unregisterSession router sessionId :
  tame router (SessionRouter_unregisterSession router sessionId).
Proof.
  unfold tame, SessionRouter_unregisterSession.
  destruct (map_get sessionId (SessionRouter._sessions router)) as [session|] eqn:Hs;
    cbn [fst snd]; [|simpl; tauto].
  split; [reflexivity|]. split; [|split; [|split]].
  - intros c. rewrite !pending_In. intros (s & entry & H1 & He & <-).
    simpl in H1. apply map_values_delete in H1. eauto.
  - apply sent_messages_unregister.
  - apply sent_messages_unregister.
  - intros c. rewrite timer_callbacks_unregister. intros Hc.
    apply in_map_iff in Hc as (entry & <- & He). apply pending_In.
    exists session, entry. repeat split; [|assumption]. eapply map_get_In. eassumption.
Qed.

Lemma tame_runAfter self router script :
  tame router (SessionRouter_deprecatedRunAfterPendingDispatches self router script).
Proof. unfold tame. destruct script; simpl; tauto. Qed.

Lemma tame_executeAfter router :
  tame router (SessionRouter_executeAfterPendingDispatches router).
Proof.
  unfold tame, SessionRouter_executeAfterPendingDispatches.
  destruct (SessionRouter_hasOutstandingNonLongPollingRequests router); cbn [fst snd];
    [simpl; tauto|].
  split; [reflexivity|]. split; [tauto|].
  induction (SessionRouter._pendingScripts router) as [|s l (H1 & H2 & H3)]; simpl; tauto.
Qed.

Lemma moves_on_router r c r' f w :
  (forall router, tame router (f router)) ->
  moves r c w (on_router r' f w).
Proof.
  intros Hf. unfold on_router.
  destruct (World.routers w !! r') as [router|] eqn:Hlookup; [|apply moves_refl].
  specialize (Hf router). destruct (f router) as [router' effects] eqn:E.
  apply (moves_tame r c r' router (router', effects)); assumption.
Qed.

Lemma moves_unregisterSession r c r' sessionId w :
  moves r c w (World_unregisterSession r' sessionId w).
Proof.
  unfold World_unregisterSession.
  destruct (World.routers w !! r') as [router|] eqn:Hlookup; [|apply moves_refl].
  pose proof (tame_unregisterSession router sessionId) as Htame.
  destruct (SessionRouter_unregisterSession router sessionId) as [router' effects].
  apply (moves_tame r c r' router (router', effects)); assumption.
Qed.

Lemma moves_send_destructed r c r' message w :
  (safe c w -> snd message <> c) ->
  moves r c w (send_destructed r' message w).
Proof.
  intros Hside. unfold send_destructed. destruct message as [m callback].
  now apply moves_sendMessage.
Qed.

Lemma moves_with_promises r c n w :
  (World.promises w <= n)%nat -> moves r c w (with_promises n w).
Proof.
  intros Hn. apply moves_frame; [reflexivity|reflexivity|exact Hn| |].
  - exact (safe_timers c w).
  - exact (safe_cached c w).
Qed.

Lemma moves_same r c w w' :
  World.routers w' = World.routers w ->
  World.log w' = World.log w ->
  World.promises w' = World.promises w ->
  World.timers w' = World.timers w ->
  World._agentPrototypes w' = World._agentPrototypes w ->
  moves r c w w'.
Proof.
  intros Hr Hl Hp Ht Ha. apply moves_frame; try assumption.
  - rewrite Hp. apply Nat.le_refl.
  - rewrite Ht. apply safe_timers.
  - rewrite Ha. apply safe_cached.
Qed.

(** A callback the agent code is about to create is not safe yet, so one
    that is safe is another. *)
Lemma safe_not_new c w :
  safe c w ->
  forall target agentDomain method,
    CommandCallback target agentDomain method (World.promises w) <> c
    /\ InvokeCallback target agentDomain method (World.promises w) <> c.
Proof.
  intros [_ Hstale] target agentDomain method.
  split; intros <-; simpl in Hstale; lia.
Qed.

Lemma safe_cached_lookup c w a prototype method message :
  safe c w ->
  World._agentPrototypes w !! a = Some prototype ->
  AgentPrototype._cachedMessages prototype !! method = Some (message, c) -> False.
Proof.
  intros Hsafe Hp Hm. apply (safe_cached c w Hsafe). apply cached_In. eauto 8.
Qed.

Lemma agent_of_prototype w target agentDomain t a :
  agent_of w target agentDomain = Some (t, a) ->
  World.targets w !! target = Some t /\ World._agentPrototypes w !! agentDomain = Some a.
Proof.
  unfold agent_of. destruct (World.targets w !! target) as [t'|]; [|discriminate].
  destruct (bool_decide _); [|discriminate].
  destruct (World._agentPrototypes w !! agentDomain); [|discriminate].
  now intros [= <- <-].
Qed.

Lemma sendMessage_fields r sessionId domain method params callback w :
  let w' := World_sendMessage r sessionId domain method params callback w in
  World.targets w' = World.targets w
  /\ World._agentPrototypes w' = World._agentPrototypes w
  /\ World.promises w' = World.promises w
  /\ World.globals w' = World.globals w.
Proof.
  unfold World_sendMessage. destruct (World.routers w !! r); [|tauto].
  destruct (SessionRouter_sendMessage _ _ _ _ _ _ _ _). simpl. tauto.
Qed.

Lemma send_destructed_fields r message w :
  let w' := send_destructed r message w in
  World.targets w' = World.targets w
  /\ World._agentPrototypes w' = World._agentPrototypes w
  /\ World.promises w' = World.promises w
  /\ World.globals w' = World.globals w.
Proof. destruct message. apply sendMessage_fields. Qed.

Lemma moves_promise_created r c w : moves r c w (promise_created w).
Proof. apply moves_with_promises. lia. Qed.

Lemma moves_later r c callback method w :
  (safe c w -> callback <> c) ->
  moves r c w (emit [dispatchConnectionError callback method] w).
Proof.
  intros Hside. apply moves_emit; [reflexivity|]. intros Hsafe. simpl.
  specialize (Hside Hsafe). split; [tauto|]. intros [H|[]]. congruence.
Qed.

(** [moves w (f x)] from [moves w x] and [moves x (f x)]. *)
Ltac peel :=
  match goal with
  | |- moves ?r ?c ?w (?f ?x) => apply (moves_trans r c w x)
  end.

Ltac chain := peel; [|apply moves_promise_created].

Lemma moves_invoke r c target agentDomain method request w :
  moves r c w (AgentPrototype_invoke target agentDomain method request w).
Proof.
  unfold AgentPrototype_invoke.
  destruct (agent_of w target agentDomain) as [[t a]|] eqn:Hagent; [|apply moves_refl].
  apply agent_of_prototype in Hagent as [Ht Ha].
  chain.
  destruct (TargetBase._router t) as [r'|].
  - destruct (bool_decide _).
    + destruct (negb (unresolved a method)).
      * destruct (AgentPrototype._cachedMessages a !! method) as [cached|] eqn:Hcached.
        -- peel.
           ++ apply moves_send_destructed. intros Hsafe Heq.
              destruct cached as [m' c']. simpl in Heq. subst c'.
              eapply safe_cached_lookup; eassumption.
           ++ apply moves_put_agent. intros Hsafe method' message' Hin. simpl in Hin.
              destruct (send_destructed_fields r' cached w) as (_ & Hp & Hn & _).
              destruct (decide (method = method')) as [->|Hne].
              ** rewrite lookup_insert_eq in Hin. injection Hin as _ Hc.
                 apply (safe_not_new c _ Hsafe target agentDomain method').
                 now rewrite Hn.
              ** rewrite lookup_insert_ne in Hin by exact Hne.
                 eapply (safe_cached_lookup c _ agentDomain a); try eassumption.
                 now rewrite Hp.
        -- peel.
           ++ apply moves_put_agent. intros Hsafe method' message' Hin. simpl in Hin.
              eapply safe_cached_lookup; eassumption.
           ++ apply moves_send_destructed. intros Hsafe. simpl.
              apply (safe_not_new c _ Hsafe).
      * apply moves_put_agent. intros Hsafe method' message' Hin. simpl in Hin.
        destruct (decide (method = method')) as [->|Hne].
        -- rewrite lookup_insert_eq in Hin. injection Hin as _ Hc.
           now apply (safe_not_new c _ Hsafe target agentDomain method').
        -- rewrite lookup_insert_ne in Hin by exact Hne.
           eapply safe_cached_lookup; eassumption.
    + apply moves_sendMessage. intros Hsafe. apply (safe_not_new c _ Hsafe).
  - apply moves_later. intros Hsafe. apply (safe_not_new c _ Hsafe).
Qed.

Lemma moves_reports r c effects w :
  Forall reports_only effects -> moves r c w (emit effects w).
Proof.
  intros H. apply moves_emit.
  - induction H as [|e es He _ IH]; [reflexivity|]. destruct e; simpl in *; tauto.
  - intros _. rewrite (scheduled_reports _ H). split; [|simpl; tauto].
    induction H as [|e es He _ IH]; [simpl; tauto|]. destruct e; simpl in *; tauto.
Qed.

Lemma moves_resolved r c promise value w :
  moves r c w (emit [PromiseResolved promise value] w).
Proof. apply moves_emit; [reflexivity|]. simpl. tauto. Qed.

Lemma moves_thrown r c text w : moves r c w (emit [Thrown text] w).
Proof. apply moves_emit; [reflexivity|]. simpl. tauto. Qed.

Lemma moves_sendMessageToBackendPromise `{Externals} r c target agentDomain method
    parameters args w :
  moves r c w
    (AgentPrototype_sendMessageToBackendPromise target agentDomain method parameters args w).
Proof.
  unfold AgentPrototype_sendMessageToBackendPromise.
  destruct (agent_of w target agentDomain) as [[t a]|] eqn:Hagent; [|apply moves_refl].
  destruct (AgentPrototype_prepareParameters method parameters args) as [params errors].
  chain.
  assert (Herrors : moves r c w (emit (map ConsoleError errors) w)).
  { apply moves_reports. induction errors; constructor; [exact I|assumption]. }
  destruct (truthy _); [peel; [exact Herrors|apply moves_resolved]|].
  destruct (TargetBase._router t) as [r'|].
  - peel; [peel; [exact Herrors|apply moves_reports; repeat constructor]|].
    apply moves_sendMessage. intros Hsafe. apply (safe_not_new c _ Hsafe).
  - peel; [exact Herrors|].
    apply moves_later. intros Hsafe. apply (safe_not_new c _ Hsafe).
Qed.

Lemma moves_command `{Externals} r c target agentDomain methodName args w :
  moves r c w (AgentPrototype_command target agentDomain methodName args w).
Proof.
  unfold AgentPrototype_command.
  destruct (agent_of w target agentDomain) as [[t a]|]; [|apply moves_refl].
  destruct (AgentPrototype.commands a !! methodName); [|apply moves_thrown].
  apply moves_sendMessageToBackendPromise.
Qed.

Lemma moves_CommandCallback_body `{Externals} r c target agentDomain method promise error
    result w :
  moves r c w
    (fst (CommandCallback_body target agentDomain method promise error result w)).
Proof.
  unfold CommandCallback_body.
  destruct (agent_of w target agentDomain) as [[t a]|]; [|apply moves_refl].
  destruct error as [e|]; cbn [fst].
  - apply moves_emit.
    + destruct (_ && _); reflexivity.
    + intros _. destruct (_ && _); simpl; tauto.
  - destruct (truthy result); [|apply moves_resolved].
    destruct (AgentPrototype._replyArgs a !! method) as [[|first rest]|]; cbn [fst];
      first [apply moves_resolved | apply moves_thrown].
Qed.

Lemma moves_InvokeCallback_body `{Externals} r c target agentDomain method promise error
    result w :
  (safe c w -> InvokeCallback target agentDomain method promise <> c) ->
  moves r c w
    (fst (InvokeCallback_body target agentDomain method promise error result w)).
Proof.
  intros Hself. unfold InvokeCallback_body.
  destruct (agent_of w target agentDomain) as [[t a]|] eqn:Hagent; [|apply moves_refl].
  apply agent_of_prototype in Hagent as [Ht Ha].
  cbn [fst]. peel; [|apply moves_resolved].
  set (w1 := warn_failed method error w).
  assert (H1 : moves r c w w1).
  { subst w1. unfold warn_failed. destruct error as [e|]; [|apply moves_refl].
    destruct (_ && _); [|apply moves_refl]. apply moves_reports. repeat constructor. }
  assert (Hf1 : World._agentPrototypes w1 = World._agentPrototypes w
                /\ World.promises w1 = World.promises w).
  { subst w1. unfold warn_failed. destruct error as [e|]; [|tauto].
    destruct (_ && _); simpl; tauto. }
  destruct Hf1 as [Hp1 Hn1].
  destruct (bool_decide _); [|exact H1].
  set (a1 := agent_with_messages (AgentPrototype._cachedMessages a)
               (delete method (AgentPrototype._unresolvedMessages a)) a).
  assert (H2 : moves r c w (put_agent agentDomain a1 w1)).
  { peel; [exact H1|]. apply moves_put_agent. intros Hsafe method' message' Hin.
    simpl in Hin. eapply (safe_cached_lookup c w1 agentDomain a); try eassumption.
    now rewrite Hp1. }
  change (AgentPrototype._cachedMessages a1) with (AgentPrototype._cachedMessages a).
  destruct (AgentPrototype._cachedMessages a !! method) as [cached|] eqn:Hcached;
    [|exact H2].
  assert (Hlookup : World._agentPrototypes (put_agent agentDomain a1 w1) !! agentDomain
                    = Some a1).
  { simpl. apply lookup_insert_eq. }
  destruct (TargetBase._router t) as [r'|].
  - peel; [peel; [exact H2|]|].
    + apply moves_send_destructed. intros Hsafe Heq.
      destruct cached as [m' c']. simpl in Heq. subst c'.
      eapply (safe_cached_lookup c _ agentDomain a1); eassumption.
    + apply moves_put_agent. intros Hsafe method' message' Hin. simpl in Hin.
      apply lookup_delete_Some in Hin as [Hne Hin].
      destruct (send_destructed_fields r' cached (put_agent agentDomain a1 w1))
        as (_ & Hp & _).
      eapply (safe_cached_lookup c _ agentDomain a1); try eassumption.
      now rewrite Hp.
  - peel; [exact H2|]. apply moves_later. intros Hsafe. apply Hself.
    (* safe in the world before follows from safe after, for this callback *)
    destruct Hsafe as [Hheld Hstale]. split.
    + intros Hin. apply Hheld. apply held_iff. apply held_iff in Hin.
      destruct Hin as [Hin|[Hin|(a' & p' & method' & message' & Hp' & Hm')]].
      * left. subst w1. unfold warn_failed.
        destruct error as [e|]; [destruct (_ && _)|]; exact Hin.
      * right. left. subst w1. unfold warn_failed.
        destruct error as [e|]; [destruct (_ && _)|]; simpl;
          rewrite ?app_nil_r; exact Hin.
      * right. right. simpl. destruct (decide (agentDomain = a')) as [<-|Hne].
        -- exists agentDomain, a1, method', message'. rewrite lookup_insert_eq.
           split; [reflexivity|]. rewrite Ha in Hp'. injection Hp' as <-. exact Hm'.
        -- exists a', p', method', message'. rewrite lookup_insert_ne by exact Hne.
           rewrite Hp1. tauto.
    + destruct c; simpl in *; trivial; rewrite <- Hn1; exact Hstale.
Qed.

Lemma moves_call `{Externals} r c callback error result w :
  (safe c w -> callback <> c) ->
  moves r c w (fst (call callback error result w)).
Proof.
  intros Hside. unfold call.
  assert (H0 : moves r c w (emit [CallbackInvoked callback error result] w)).
  { apply moves_emit; [reflexivity|]. intros Hsafe. specialize (Hside Hsafe). simpl.
    split; [|tauto]. intros [Heq|[]]. congruence. }
  assert (Hsafe' : safe c (emit [CallbackInvoked callback error result] w) -> safe c w).
  { intros [Hheld Hstale]. split; [|destruct c; exact Hstale].
    intros Hin. apply Hheld. apply held_iff. apply held_iff in Hin. simpl.
    rewrite app_nil_r. exact Hin. }
  destruct callback; cbn [fst]; try exact H0.
  - eapply moves_trans; [exact H0|]. apply moves_CommandCallback_body.
  - eapply moves_trans; [exact H0|]. apply moves_InvokeCallback_body. auto.
Qed.

Lemma moves_assuming r c w w' :
  advance r w w' -> (safe c w -> moves r c w w') -> moves r c w w'.
Proof.
  intros Hadvance Hmoves. split; [exact Hadvance|].
  intros Hsafe. now apply (Hmoves Hsafe).
Qed.

Lemma another_other callback : callback <> another callback.
Proof. destruct callback; discriminate. Qed.

Lemma moves_inert r c effects w :
  sent_messages effects = [] -> invoked effects = [] ->
  timer_callbacks (scheduled effects) = [] ->
  moves r c w (emit effects w).
Proof.
  intros Hs Hi Ht. apply moves_emit; [exact Hs|]. rewrite Hi, Ht. simpl. tauto.
Qed.

Lemma handler_calls_inert event messageParams dispatchers :
  let effects := handler_calls event messageParams dispatchers in
  sent_messages effects = [] /\ invoked effects = []
  /\ timer_callbacks (scheduled effects) = [].
Proof.
  unfold handler_calls.
  induction (List.filter (implements event) dispatchers) as [|h l IH]; simpl; tauto.
Qed.

Lemma dispatch_inert `{Externals} t eventMessage heap :
  let effects := snd (TargetBase_dispatch t eventMessage heap) in
  sent_messages effects = [] /\ invoked effects = []
  /\ timer_callbacks (scheduled effects) = [].
Proof.
  unfold TargetBase_dispatch.
  destruct (Message.method eventMessage) as [qualified|]; [|simpl; tauto].
  destruct (splitQualifiedName qualified) as [domainName method].
  destruct (TargetBase.dispatchers t !! domainName) as [dispatcher|]; [|simpl; tauto].
  unfold DispatcherManager_dispatch.
  destruct (DispatcherManager.dispatchers dispatcher); [simpl; tauto|].
  destruct (if Message.compress eventMessage then _ else _); [|simpl; tauto].
  destruct (eventArgs_has _ _); [|simpl; tauto].
  apply handler_calls_inert.
Qed.

Lemma moves_with_heap r c heap w : moves r c w (with_heap heap w).
Proof. now apply moves_same. Qed.

Lemma moves_handle_message `{Externals} r0 c r sessionId session suppress messageObject
    router w :
  World.routers w !! r = Some router ->
  map_get sessionId (SessionRouter._sessions router) = Some session ->
  moves r0 c w (handle_message r sessionId session suppress messageObject w).
Proof.
  intros Hlookup Hsession. unfold handle_message.
  set (patched := match World.targets w !! Session.target session with
                  | Some t => if TargetBase._needsNodeJSPatching t
                              then NodeURL_patch messageObject else messageObject
                  | None => messageObject
                  end).
  clearbody patched.
  pose proof (In_lookup _ _ _ Hlookup) as Hin.
  pose proof (map_get_In _ _ _ Hsession) as Hsin.
  destruct (Message.id patched) as [id|].
  - rewrite Hlookup.
    set (w1 := put_router r
                 (router_with_callbacks sessionId session
                    (map_delete id (Session.callbacks session)) router) w).
    assert (H1 : moves r0 c w w1).
    { subst w1. apply (moves_put_router r0 c r router); [exact Hlookup|reflexivity|].
      intros Hsafe Hc. apply pending_with_callbacks in Hc; [|exact Hsin].
      apply (safe_pending c w router Hsafe Hin).
      destruct Hc as [(entry & He & <-)|Hc]; [|exact Hc].
      apply map_values_delete in He. apply pending_In. eauto. }
    destruct (map_get id (Session.callbacks session)) as [entry|] eqn:Hentry.
    + assert (Hne : safe c w -> CallbackWithDebugInfo.callback entry <> c).
      { intros Hsafe <-. apply (safe_pending _ w router Hsafe Hin).
        apply pending_In. exists session, entry. repeat split; [exact Hsin|].
        eapply map_get_In. eassumption. }
      assert (H2 : moves r0 c w
                     (fst (call (CallbackWithDebugInfo.callback entry) (Message.error patched)
                             (or_null (Message.result patched)) w1))).
      { apply moves_assuming.
        - eapply advance_trans; [apply H1|].
          apply (moves_call r0 (another (CallbackWithDebugInfo.callback entry))).
          intros _. apply another_other.
        - intros Hsafe. eapply moves_trans; [exact H1|].
          apply moves_call. intros _. now apply Hne. }
      destruct (call _ _ _ w1) as [w2 threw]. cbn [fst] in H2.
      destruct threw; [exact H2|].
      destruct (World.routers w2 !! r) as [router2|] eqn:Hlookup2; [|exact H2].
      set (router3 := router_with_pending _ _ router2).
      assert (H3 : moves r0 c w (put_router r router3 w2)).
      { peel; [exact H2|]. apply (moves_put_router r0 c r router2);
          [exact Hlookup2|reflexivity|].
        intros Hsafe. exact (safe_pending c w2 router2 Hsafe (In_lookup _ _ _ Hlookup2)). }
      destruct (_ && _); [|exact H3].
      eapply moves_trans; [exact H3|].
      pose proof (tame_runAfter r router3 None) as Htame.
      destruct (SessionRouter_deprecatedRunAfterPendingDispatches r router3 None)
        as [router4 effects].
      apply (moves_tame r0 c r router3 (router4, effects)); [|exact Htame].
      simpl. apply list_lookup_insert_eq. eapply lookup_lt_Some. eassumption.
    + peel; [exact H1|]. apply moves_reports. destruct suppress; constructor.
  - destruct (Message.method patched).
    + destruct (World.targets w !! Session.target session) as [t|]; [|apply moves_refl].
      pose proof (dispatch_inert t patched (World.heap w)) as (Hs & Hi & Ht).
      destruct (TargetBase_dispatch t patched (World.heap w)) as [heap effects].
      peel; [apply moves_with_heap|]. now apply moves_inert.
    + apply moves_reports. constructor.
Qed.

Lemma moves_onMessage `{Externals} r0 c r message w :
  moves r0 c w (SessionRouter_onMessage r message w).
Proof.
  unfold SessionRouter_onMessage.
  destruct (World.routers w !! r) as [router|] eqn:Hlookup; [|apply moves_refl].
  set (w1 := if Globals.dumpProtocol (World.globals w)
             then emit [DumpProtocol false message] w else w).
  assert (H1 : moves r0 c w w1 /\ World.routers w1 = World.routers w).
  { subst w1. destruct (Globals.dumpProtocol _); split; try reflexivity;
      [apply moves_reports; repeat constructor|apply moves_refl]. }
  destruct H1 as [H1 Hr1]. clearbody w1.
  destruct message as [messageObject|]; [|exact H1].
  set (w2 := if Globals.onMessageReceived (World.globals w) then emit _ w1 else w1).
  assert (H2 : moves r0 c w w2 /\ World.routers w2 = World.routers w).
  { subst w2. destruct (Globals.onMessageReceived _); split; try assumption.
    peel; [exact H1|]. apply moves_reports. repeat constructor. }
  destruct H2 as [H2 Hr2]. clearbody w2.
  pose proof (forward_to_proxies_reports (World.onMessageHandlers w2) messageObject
                (map_values (SessionRouter._sessions router))) as Hforward.
  destruct (forward_to_proxies _ _ _) as [forwarded suppress]. simpl in Hforward.
  assert (H3 : moves r0 c w (emit forwarded w2)).
  { peel; [exact H2|]. now apply moves_reports. }
  destruct (map_get _ (SessionRouter._sessions router)) as [session|] eqn:Hsession.
  - destruct (has_proxyConnection session); [exact H3|].
    eapply moves_trans; [exact H3|].
    apply (moves_handle_message r0 c r _ session suppress messageObject router);
      [|exact Hsession].
    simpl. now rewrite Hr2.
  - peel; [exact H3|]. apply moves_reports. destruct suppress; constructor.
Qed.

Lemma moves_run_timer `{Externals} r c w : moves r c w (run_timer w).
Proof.
  unfold run_timer. destruct (World.timers w) as [|task rest] eqn:Htimers; [apply moves_refl|].
  assert (H1 : moves r c w (with_timers rest w)).
  { apply moves_frame; [reflexivity|reflexivity|apply Nat.le_refl| |exact (safe_cached c w)].
    intros Hsafe Hin. apply (safe_timers c w Hsafe). rewrite Htimers.
    destruct task; simpl; auto. }
  destruct task as [callback error|r'].
  - apply moves_assuming.
    + eapply advance_trans; [apply H1|].
      apply (moves_call r (another callback)). intros _. apply another_other.
    + intros Hsafe. eapply moves_trans; [exact H1|]. apply moves_call. intros _ <-.
      apply (safe_timers _ w Hsafe). rewrite Htimers. simpl. now left.
  - change (World.routers (with_timers rest w)) with (World.routers w).
    destruct (World.routers w !! r') as [router|] eqn:Hlookup; [|exact H1].
    destruct (negb _).
    + pose proof (tame_executeAfter router) as Htame.
      destruct (SessionRouter_executeAfterPendingDispatches router) as [router' effects].
      eapply moves_trans; [exact H1|].
      apply (moves_tame r c r' router (router', effects)); assumption.
    + pose proof (tame_runAfter r' router None) as Htame.
      destruct (SessionRouter_deprecatedRunAfterPendingDispatches r' router None)
        as [router' effects].
      eapply moves_trans; [exact H1|].
      apply (moves_tame r c r' router (router', effects)); assumption.
Qed.

Lemma moves_newRouter r c connection w : moves r c w (snd (World_newRouter connection w)).
Proof.
  unfold World_newRouter. cbn [snd]. split.
  - match goal with |- advance r w ?w' =>
      assert (Hnext : next_id r w' = next_id r w) end.
    { unfold next_id. simpl.
      destruct (World.routers w !! r) as [router|] eqn:Hlookup.
      - rewrite lookup_app_l by (eapply lookup_lt_Some; eassumption). now rewrite Hlookup.
      - apply lookup_ge_None in Hlookup.
        destruct (decide (r = length (World.routers w))) as [->|Hne].
        + now rewrite (list_lookup_middle (World.routers w) [] _ _ eq_refl).
        + now rewrite lookup_ge_None_2 by (rewrite length_app; simpl; lia). }
    split; [rewrite Hnext; tauto|].
    exists []. simpl. rewrite app_nil_r. split; [reflexivity|].
    intros _ _. rewrite Hnext. split; [lia|]. split; constructor.
  - intros Hsafe. split.
    + split; [|destruct Hsafe as [_ Hs]; destruct c; exact Hs].
      intros Hheld. apply held_iff in Hheld. simpl in Hheld.
      destruct Hheld as [(x & Hx & Hc)|[Ht|Ha]].
      * apply in_app_iff in Hx as [Hx|[<-|[]]]; [|destruct Hc].
        now apply (safe_pending c w x).
      * now apply (safe_timers c w).
      * apply (safe_cached c w Hsafe). now apply cached_In.
    + exists []. simpl. now rewrite app_nil_r.
Qed.

Lemma moves_with_targets r c targets w : moves r c w (with_targets targets w).
Proof. now apply moves_same. Qed.

Lemma moves_TargetBase_new r c needsNodeJSPatching parentTarget sessionId connection w w' :
  TargetBase_new needsNodeJSPatching parentTarget sessionId connection w = inr w' ->
  moves r c w w'.
Proof.
  unfold TargetBase_new. destruct (constructor_rejects _ _ _); [discriminate|].
  set (chosen := match (if truthy (JsString sessionId) then _ else None) with
                 | Some r' => inr (r', w)
                 | None => _
                 end).
  assert (Hchosen : forall r' w0, chosen = inr (r', w0) -> moves r c w w0).
  { subst chosen. intros r' w0.
    destruct (if truthy (JsString sessionId) then _ else None).
    - intros [= <- <-]. apply moves_refl.
    - destruct connection as [conn|].
      + intros Heq. inversion Heq; subst. exact (moves_newRouter r c conn w).
      + destruct (World.connectionFactory w) as [conn|]; [|discriminate].
        intros Heq. inversion Heq; subst. exact (moves_newRouter r c conn w). }
  destruct chosen as [e|[r' w0]]; [discriminate|].
  specialize (Hchosen r' w0 eq_refl).
  match goal with |- context [with_targets ?ts w0] => set (w1 := with_targets ts w0) end.
  assert (H1 : moves r c w w1).
  { subst w1. eapply moves_trans; [exact Hchosen|]. apply moves_with_targets. }
  destruct (World.routers w1 !! r') as [router|] eqn:Hlookup.
  - pose proof (tame_registerSession router (length (World.targets w0)) sessionId None)
      as Htame.
    destruct (SessionRouter_registerSession router _ sessionId None) as [router' effects].
    intros [= <-]. eapply moves_trans; [exact H1|].
    apply (moves_tame r c r' router (router', effects)); assumption.
  - intros [= <-]. exact H1.
Qed.

Lemma moves_dispose r c target w : moves r c w (TargetBase_dispose target w).
Proof.
  unfold TargetBase_dispose.
  destruct (World.targets w !! target) as [t|]; [|apply moves_refl].
  destruct (TargetBase._router t) as [r'|]; [|apply moves_refl].
  unfold put_target. peel; [apply moves_unregisterSession|apply moves_with_targets].
Qed.

Lemma moves_onDisconnect r c r' w : moves r c w (SessionRouter_onDisconnect r' w).
Proof.
  unfold SessionRouter_onDisconnect.
  destruct (World.routers w !! r') as [router|]; [|apply moves_refl].
  destruct (map_get "" _); [apply moves_dispose|apply moves_refl].
Qed.

Lemma moves_registerCommand r c method parameters replyArgs w :
  moves r c w (InspectorBackend_registerCommand method parameters replyArgs w).
Proof.
  unfold InspectorBackend_registerCommand.
  destruct (splitQualifiedName method) as [domain command].
  apply moves_frame; [reflexivity|reflexivity|apply Nat.le_refl|exact (safe_timers c w)|].
  intros Hsafe Hin. apply cached_In in Hin as (a & p & method' & message & Hp & Hm).
  simpl in Hp. destruct (decide (domain = a)) as [->|Hne].
  - rewrite lookup_insert_eq in Hp. injection Hp as <-. simpl in Hm.
    destruct (World._agentPrototypes w !! a) as [p0|] eqn:Hp0; simpl in Hm.
    + apply (safe_cached c w Hsafe). apply cached_In. eauto 8.
    + now rewrite lookup_empty in Hm.
  - rewrite lookup_insert_ne in Hp by exact Hne.
    apply (safe_cached c w Hsafe). apply cached_In. eauto 8.
Qed.

(** Every operation of the front end and of the connection keeps the ids of
    the messages of each router increasing, and leaves alone a callback that
    nothing holds, unless the operation itself brings it in. *)
Lemma moves_step `{Externals} r c op w :
  ~ introduces c op -> moves r c w (step w op).
Proof.
  intros Hnew. destruct op; simpl.
  - destruct (TargetBase_new _ _ _ _ w) as [e|w'] eqn:Hnewt.
    + apply moves_thrown.
    + eapply moves_TargetBase_new. eassumption.
  - apply moves_dispose.
  - destruct (World.targets w !! target); [apply moves_with_targets|apply moves_refl].
  - destruct (World.targets w !! target); [apply moves_with_targets|apply moves_refl].
  - apply moves_registerCommand.
  - apply moves_command.
  - apply moves_invoke.
  - apply moves_on_router. intros. apply tame_registerSession.
  - apply moves_unregisterSession.
  - apply moves_sendMessage. intros _ Heq. apply Hnew. simpl. congruence.
  - destruct (Globals.sendRawMessage (World.globals w)) as [r'|]; [|apply moves_thrown].
    change (on_router r' _ w)
      with (World_sendMessage r' "" (List.hd EmptyString (split "." method)) method params
              (default NoopCallback (ExternalCallback <$> callback)) w).
    apply moves_sendMessage. intros _ Heq. apply Hnew. simpl. congruence.
  - destruct (Globals.deprecatedRunAfterPendingDispatches (World.globals w)) as [r'|];
      [|apply moves_thrown].
    apply moves_on_router. intros. apply tame_runAfter.
  - apply moves_onMessage.
  - apply moves_onDisconnect.
  - apply moves_run_timer.
Qed.

Lemma moves_run `{Externals} r c ops w :
  Forall (fun op => ~ introduces c op) ops -> moves r c w (run ops w).
Proof.
  intros Hops. revert w. induction Hops as [|op ops Hop _ IH]; intros w.
  - apply moves_refl.
  - simpl. eapply moves_trans; [apply moves_step; exact Hop|apply IH].
Qed.

(** ** Message ids *)

Lemma next_ids_from (n : nat) (router : SessionRouter.t) :
  1 <= SessionRouter._lastMessageId router ->
  SessionRouter._lastMessageId router + Z.of_nat n <= exact_limit + 1 ->
  next_ids n router
  = map (fun k => SessionRouter._lastMessageId router + Z.of_nat k) (seq 0 n).
Proof.
  revert router. induction n as [|n IH]; intros router Hfirst Hlast; [reflexivity|].
  cbn [next_ids SessionRouter_nextMessageId seq map]. rewrite Z.add_0_r. f_equal.
  destruct n as [|n]; [reflexivity|].
  rewrite IH; cbn [SessionRouter._lastMessageId];
    rewrite Number_increment_exact by (unfold exact_limit in *; lia); [|lia|lia].
  rewrite <- seq_shift, map_map. apply map_ext. intros k. lia.
Qed.

Lemma next_ids_stuck (n : nat) (router : SessionRouter.t) :
  SessionRouter._lastMessageId router = exact_limit ->
  next_ids n router = repeat exact_limit n.
Proof.
  revert router. induction n as [|n IH]; intros router Hstuck; [reflexivity|].
  cbn [next_ids SessionRouter_nextMessageId repeat]. rewrite Hstuck. f_equal.
  apply IH. cbn [SessionRouter._lastMessageId]. apply Number_increment_stuck.
Qed.

(** The ids up to the limit, and those after it. *)
Lemma next_ids_reach (n m : nat) (router : SessionRouter.t) :
  1 <= SessionRouter._lastMessageId router ->
  SessionRouter._lastMessageId router + Z.of_nat n = exact_limit ->
  next_ids (n + m) router
  = map (fun k => SessionRouter._lastMessageId router + Z.of_nat k) (seq 0 n)
    ++ repeat exact_limit m.
Proof.
  revert router. induction n as [|n IH]; intros router Hfirst Hreach.
  - rewrite Nat.add_0_l. apply next_ids_stuck. lia.
  - rewrite Nat.add_succ_l. cbn [next_ids SessionRouter_nextMessageId seq map app].
    rewrite Z.add_0_r. f_equal.
    rewrite IH; cbn [SessionRouter._lastMessageId];
      rewrite Number_increment_exact by (unfold exact_limit in *; lia); [|lia|lia].
    f_equal. rewrite <- seq_shift, map_map. apply map_ext. intros k. lia.
Qed.

Lemma increasing_from (first : Z) (start n : nat) :
  StronglySorted Z.lt (map (fun k => first + Z.of_nat k) (seq start n)).
Proof.
  revert start. induction n as [|n IH]; intros start; simpl; constructor; [apply IH|].
  apply List.Forall_forall. intros x Hx. apply in_map_iff in Hx as (k & <- & Hk).
  apply in_seq in Hk. lia.
Qed.

Lemma increasing_NoDup (l : list Z) : StronglySorted Z.lt l -> NoDup l.
Proof.
  intros Hsorted. induction Hsorted as [|x l _ IH Hx]; constructor; [|exact IH].
  intros Hin. apply list_elem_of_In in Hin. rewrite List.Forall_forall in Hx.
  specialize (Hx x Hin). lia.
Qed.

Lemma never_introduced op : ~ introduces (CommandCallback 0 "" "" 0) op.
Proof. destruct op; simpl; try tauto; try discriminate. destruct callback; discriminate. Qed.

(** C2, as amended. [_nextMessageId] returns the counter and moves it up by
    one as long as the counter is below 2^53: the ids a router returns are
    1, 2, 3, ... from its construction, and up to 2^53 each is greater than
    all before it and none is returned twice. Whatever else happens in
    between, as long as the counter of a router is below 2^53 the ids of the
    messages it has put on the wire are strictly increasing, at least 1 and
    below the id it will return next. A counter that has reached 2^53
    stays there: every further call returns 2^53. *)
Theorem message_ids_increase `{Externals} (n : nat) (connection : nat)
    (router : SessionRouter.t) (g : Globals.t) (connectionFactory : option nat)
    (onMessageHandlers : gset nat) (ops : list Op) (r : nat) :
  1 <= SessionRouter._lastMessageId router ->
  SessionRouter._lastMessageId router + Z.of_nat n <= exact_limit + 1 ->
  let w := run ops (initial_world g connectionFactory onMessageHandlers) in
  next_id r w < exact_limit ->
  fst (SessionRouter_nextMessageId router) = SessionRouter._lastMessageId router
  /\ next_ids n router
     = map (fun k => SessionRouter._lastMessageId router + Z.of_nat k) (seq 0 n)
  /\ next_ids n (SessionRouter_new connection) = map Z.of_nat (seq 1 n)
  /\ StronglySorted Z.lt (next_ids n router)
  /\ NoDup (next_ids n router)
  /\ StronglySorted Z.lt (sent_ids r (World.log w))
  /\ Forall (fun i => 1 <= i < next_id r w) (sent_ids r (World.log w))
  /\ forall (m : nat) (stuck : SessionRouter.t),
       SessionRouter._lastMessageId stuck = exact_limit ->
       next_ids m stuck = repeat exact_limit m.
Proof.
  intros Hfirst Hlast w Hbelow.
  assert (Hsorted : StronglySorted Z.lt (next_ids n router)).
  { rewrite next_ids_from by assumption. apply increasing_from. }
  split; [reflexivity|]. split; [now apply next_ids_from|].
  split; [|split; [exact Hsorted|split; [now apply increasing_NoDup|]]].
  - rewrite next_ids_from; cbn [SessionRouter_new SessionRouter._lastMessageId];
      [|lia|lia].
    rewrite <- seq_shift, map_map. apply map_ext. intros k. lia.
  - destruct (moves_run r (CommandCallback 0 "" "" 0) ops
                (initial_world g connectionFactory onMessageHandlers)) as [Hadvance _].
    { apply List.Forall_forall. intros op _. apply never_introduced. }
    destruct Hadvance as (_ & new & Hsent & Hids). fold w in Hsent, Hids.
    destruct (Hids ltac:(reflexivity) Hbelow) as (_ & Hnew & Hrange).
    simpl in Hsent. rewrite Hsent.
    split; [exact Hnew|]. split; [exact Hrange|].
    intros m stuck. apply next_ids_stuck.
Qed.

(** Three calls on a new router, and two requests of the root target. *)
Lemma message_ids_increase_witness :
  let w := @run plain_externals
             [NewTarget false None "" None;
              SendMessage 0 "" "DOM" "DOM.enable" JsUndefined 7;
              SendMessage 0 "" "CSS" "CSS.enable" JsUndefined 8]
             (initial_world plain_globals (Some 0%nat) ∅) in
  next_ids 3 (SessionRouter_new 0) = [1; 2; 3]
  /\ sent_ids 0 (World.log w) = [1; 2]
  /\ StronglySorted Z.lt (sent_ids 0 (World.log w)).
Proof.
  intros w.
  destruct (@message_ids_increase plain_externals 3 0%nat (SessionRouter_new 0) plain_globals
              (Some 0%nat) ∅
              [NewTarget false None "" None;
               SendMessage 0 "" "DOM" "DOM.enable" JsUndefined 7;
               SendMessage 0 "" "CSS" "CSS.enable" JsUndefined 8] 0%nat)
    as (_ & _ & Hnew & _ & _ & Hwire & _).
  - simpl. lia.
  - vm_compute. discriminate.
  - vm_compute. reflexivity.
  - split; [exact Hnew|]. split; [vm_compute; reflexivity|exact Hwire].
Defined.

(** C2 as stated fails: the counter is a double, and from 2^53 on the
    increment leaves it where it is. The router a connection is given
    returns the ids 1 to 2^53 and then 2^53 again. *)
Lemma message_id_repeats :
  ~ (forall (connection : nat) (n : nat), NoDup (next_ids n (SessionRouter_new connection))).
Proof.
  intros claim.
  remember (Z.to_nat (exact_limit - 1)) as n eqn:Hn.
  assert (Hreach : 1 + Z.of_nat n = exact_limit).
  { rewrite Hn, Z2Nat.id by (unfold exact_limit; lia). lia. }
  specialize (claim 0%nat (n + 2)%nat).
  rewrite (next_ids_reach n 2 (SessionRouter_new 0)) in claim;
    [|cbn [SessionRouter_new SessionRouter._lastMessageId]; lia|exact Hreach].
  apply NoDup_app in claim as (_ & _ & Htwice).
  cbn [repeat] in Htwice. apply NoDup_cons in Htwice as [Hfresh _].
  apply Hfresh. apply list_elem_of_singleton. reflexivity.
Qed.

(** ** Messages for a session that is not registered *)





(** ** A session registered twice *)

Lemma map_get_set_eq {K V} `{EqDecision K} (k : K) (v : V) m :
  map_get k (map_set k v m) = Some v.
Proof.
  induction m as [|[k' v'] m IH]; simpl.
  - now destruct (decide (k = k)).
  - destruct (decide (k' = k)) as [->|Hne]; simpl.
    + now destruct (decide (k = k)).
    + now destruct (decide (k' = k)).
Qed.

Lemma map_get_set_ne {K V} `{EqDecision K} (k k' : K) (v : V) m :
  k' <> k -> map_get k' (map_set k v m) = map_get k' m.
Proof.
  intros Hne. induction m as [|[k0 v0] m IH]; simpl.
  - destruct (decide (k = k')); congruence.
  - destruct (decide (k0 = k)) as [->|Hne0]; simpl.
    + destruct (decide (k = k')); congruence.
    + destruct (decide (k0 = k')); congruence.
Qed.

Lemma map_set_length {K V} `{EqDecision K} (k : K) (v v0 : V) m :
  map_get k m = Some v0 -> length (map_set k v m) = length m.
Proof.
  induction m as [|[k' v'] m IH]; simpl; [discriminate|].
  destruct (decide (k' = k)); simpl; [reflexivity|]. intros Hm. now rewrite IH.
Qed.

Lemma map_values_set_delete {K V} `{EqDecision K} (k : K) (v x : V) m :
  In x (map_values (map_set k v m)) -> x = v \/ In x (map_values (map_delete k m)).
Proof.
  induction m as [|[k' v'] m IH]; simpl.
  - intros [->|[]]. now left.
  - destruct (decide (k' = k)); simpl.
    + intros [->|Hin]; auto.
    + intros [->|Hin]; auto. destruct (IH Hin); auto.
Qed.

Lemma In_insert_lookup {A} (i : nat) (x y : A) l :
  In x (<[i:=y]> l) -> x = y \/ exists j, j <> i /\ l !! j = Some x.
Proof.
  revert i. induction l as [|z l IH]; intros [|i]; simpl; try tauto.
  - intros [->|Hin]; auto. right. apply list_elem_of_In, list_elem_of_lookup in Hin as [j Hj].
    exists (S j). split; [discriminate|exact Hj].
  - intros [->|Hin].
    + right. exists 0%nat. split; [discriminate|reflexivity].
    + destruct (IH _ Hin) as [->|(j & Hne & Hj)]; auto.
      right. exists (S j). split; [congruence|exact Hj].
Qed.

(** C9. Registering a session under an id that is registered already
    replaces the entry by a fresh one, with the new target and no callback;
    the other sessions stay. Nothing is thrown, nothing is called and no
    timer is set: at most the complaint about a second proxy connection is
    written to the console. A callback the replaced session was waiting
    with, unless something else holds it too, is held by nothing afterwards
    and is never called, whatever happens later. *)
Theorem registerSession_replaces `{Externals} (w : World.t) (r : nat)
    (router : SessionRouter.t) (target : nat) (sessionId : string)
    (proxyConnection : option nat) (replaced : Session.t) :
  World.routers w !! r = Some router ->
  map_get sessionId (SessionRouter._sessions router) = Some replaced ->
  let w' := step w (RegisterSession r target sessionId proxyConnection) in
  (exists router',
     World.routers w' !! r = Some router'
     /\ map_get sessionId (SessionRouter._sessions router')
        = Some {| Session.target := target;
                  Session.callbacks := [];
                  Session.proxyConnection := proxyConnection |}
     /\ length (SessionRouter._sessions router') = length (SessionRouter._sessions router)
     /\ forall other,
          other <> sessionId ->
          map_get other (SessionRouter._sessions router')
          = map_get other (SessionRouter._sessions router))
  /\ (exists effects,
        World.log w' = World.log w ++ effects
        /\ Forall reports_only effects /\ invoked effects = [])
  /\ World.timers w' = World.timers w
  /\ forall c,
       In c (map CallbackWithDebugInfo.callback (map_values (Session.callbacks replaced))) ->
       ~ held c (without_session r sessionId w) ->
       stale c w ->
       ~ held c w'
       /\ forall ops,
            Forall (fun op => ~ introduces c op) ops ->
            exists new,
              World.log (run ops w') = World.log w ++ new /\ ~ In c (invoked new).
Proof.
  intros Hrouter Hsession w'.
  assert (Hlen : (r < length (World.routers w))%nat) by (eapply lookup_lt_Some; eassumption).
  pose (fresh := {| Session.target := target;
                    Session.callbacks := [];
                    Session.proxyConnection := proxyConnection |}).
  pose (router' := router_with_sessions
                     (map_set sessionId fresh (SessionRouter._sessions router)) router).
  pose (effects := snd (SessionRouter_registerSession router target sessionId
                          proxyConnection)).
  assert (Hreports : Forall reports_only effects /\ invoked effects = []).
  { subst effects. unfold SessionRouter_registerSession. cbn [snd].
    destruct proxyConnection; [destruct (existsb _ _)|]; split;
      repeat constructor. }
  destruct Hreports as [Hreports Hinvoked].
  assert (Hw' : w' = with_log (World.log w ++ effects) (put_router r router' w)).
  { subst w'. cbn [step]. unfold on_router. rewrite Hrouter.
    change (SessionRouter_registerSession router target sessionId proxyConnection)
      with (router', effects).
    cbv iota beta. now rewrite emit_reports by exact Hreports. }
  split; [|split; [|split]].
  - exists router'. rewrite Hw'. simpl. rewrite list_lookup_insert_eq by exact Hlen.
    split; [reflexivity|]. split; [apply map_get_set_eq|]. split.
    + eapply map_set_length. eassumption.
    + intros other Hne. now apply map_get_set_ne.
  - exists effects. rewrite Hw'. auto.
  - now rewrite Hw'.
  - intros c _ Hheld Hstale.
    assert (Hheld' : ~ held c w').
    { intros Hin. apply Hheld. apply held_iff. apply held_iff in Hin.
      unfold without_session. rewrite Hrouter. rewrite Hw' in Hin. simpl in *.
      destruct Hin as [(x & Hx & Hc)|Hin]; [|tauto]. left.
      apply In_insert_lookup in Hx as [->|(j & Hne & Hj)].
      - eexists. split.
        + apply list_elem_of_In. apply list_elem_of_insert. exact Hlen.
        + apply pending_In in Hc as (s & entry & Hs & He & <-). simpl in Hs.
          apply map_values_set_delete in Hs as [->|Hs]; [destruct He|].
          apply pending_In. simpl. eauto.
      - exists x. split; [|exact Hc]. eapply In_lookup.
        rewrite list_lookup_insert_ne by (intros Heq; apply Hne; now rewrite Heq).
        exact Hj. }
    split; [exact Hheld'|]. intros ops Hops.
    destruct (moves_run r c ops w' Hops) as [_ Hcalm].
    destruct Hcalm as (_ & new & Hlog & Hnew).
    { split; [exact Hheld'|]. rewrite Hw'. destruct c; exact Hstale. }
    exists (effects ++ new). split.
    + rewrite Hlog, Hw'. simpl. now rewrite app_assoc.
    + rewrite invoked_app, Hinvoked. exact Hnew.
Qed.

(** A request waits on the session [""] with the callback 7; the session is
    registered again; the response to the request calls nothing. *)
Lemma registerSession_replaces_witness :
  let w := @run plain_externals
             [RegisterCommand "DOM.enable" [] []; NewTarget false None "" None;
              SendMessage 0 "" "DOM" "DOM.enable" JsNull 7]
             (initial_world plain_globals (Some 0%nat) ∅) in
  let w' := @step plain_externals w (RegisterSession 0 0 "" None) in
  held (ExternalCallback 7) w
  /\ ~ held (ExternalCallback 7) w'
  /\ exists new,
       World.log (@run plain_externals
                    [Receive 0 (Some (response_message "" 1 JsNull)); Timer] w')
       = World.log w ++ new
       /\ ~ In (ExternalCallback 7) (invoked new).
Proof.
  intros w w'.
  edestruct (@registerSession_replaces plain_externals w 0%nat)
    with (target := 0%nat) (sessionId := "") (proxyConnection := @None nat)
    as (_ & _ & _ & Hcallbacks).
  - vm_compute. reflexivity.
  - vm_compute. reflexivity.
  - destruct (Hcallbacks (ExternalCallback 7)) as (Hheld & Hnever).
    + vm_compute. left. reflexivity.
    + refine (bool_decide_unpack _ _). vm_compute. exact I.
    + exact I.
    + split; [refine (bool_decide_unpack _ _); vm_compute; exact I|].
      split; [exact Hheld|].
      apply (Hnever [Receive 0 (Some (response_message "" 1 JsNull)); Timer]).
      repeat constructor; simpl; tauto.
Defined.

(** ** Coalescing of debounced calls *)

Lemma sent_messages_app l1 l2 : sent_messages (l1 ++ l2) = sent_messages l1 ++ sent_messages l2.
Proof.
  induction l1 as [|e l1 IH]; simpl; [reflexivity|].
  destruct e; simpl; try exact IH. now rewrite IH.
Qed.

Lemma reports_quiet effects :
  Forall reports_only effects ->
  sent_messages effects = [] /\ invoked effects = [] /\ scheduled effects = [].
Proof.
  induction 1 as [|e es He _ (IH1 & IH2 & IH3)]; [auto|].
  destruct e; simpl in *; tauto.
Qed.

Lemma World_sendMessage_known r router sessionId session domain method params callback w :
  World.routers w !! r = Some router ->
  map_get sessionId (SessionRouter._sessions router) = Some session ->
  exists before after,
    Forall reports_only before /\ Forall reports_only after
    /\ World_sendMessage r sessionId domain method params callback w
       = emit (before
                 ++ [SendRawMessage r (SessionRouter._connection router)
                       (command_message (SessionRouter._lastMessageId router) method params
                          sessionId)]
                 ++ after)
           (put_router r (router_after_send router sessionId session method callback) w).
Proof.
  intros Hrouter Hsession. unfold World_sendMessage. rewrite Hrouter.
  unfold SessionRouter_sendMessage, router_after_send. cbn [SessionRouter_nextMessageId].
  match goal with |- context [map_get sessionId ?s] =>
    change s with (SessionRouter._sessions router) end.
  rewrite Hsession.
  eexists (_ ++ _), _. split; [|split; [|rewrite <- app_assoc; reflexivity]].
  - destruct (Globals.dumpProtocol _), (Globals.onMessageSent _); repeat constructor.
  - destruct (statsRecording _); repeat constructor.
Qed.

Lemma waiting_app method l1 l2 :
  waiting method (l1 ++ l2) = (waiting method l1 + waiting method l2)%nat.
Proof. unfold waiting. now rewrite List.filter_app, length_app. Qed.

Lemma outstanding_sessions method router :
  outstanding method router
  = waiting method
      (concat (map (fun session => map_values (Session.callbacks session))
                   (map_values (SessionRouter._sessions router)))).
Proof. reflexivity. Qed.

Lemma waiting_replaced method (sessionId : string) (old new : Session.t)
    (sessions : list (string * Session.t)) :
  map_get sessionId sessions = Some old ->
  (waiting method
     (concat (map (fun session => map_values (Session.callbacks session))
                  (map_values (map_set sessionId new sessions))))
   + waiting method (map_values (Session.callbacks old))
   = waiting method
       (concat (map (fun session => map_values (Session.callbacks session))
                    (map_values sessions)))
     + waiting method (map_values (Session.callbacks new)))%nat.
Proof.
  induction sessions as [|[k s] sessions IH]; simpl; [discriminate|].
  destruct (decide (k = sessionId)) as [->|Hne]; simpl.
  - intros [= ->]. rewrite !waiting_app. lia.
  - intros Hold. specialize (IH Hold). rewrite !waiting_app. lia.
Qed.

Lemma waiting_set method (k : Z) entry (entries : list (Z * CallbackWithDebugInfo.t)) :
  (waiting method (map_values (map_set k entry entries))
   <= waiting method (map_values entries) + 1)%nat.
Proof.
  unfold waiting. induction entries as [|[k' e'] entries IH]; simpl.
  - destruct (String.eqb _ _); simpl; lia.
  - destruct (decide (k' = k)); simpl.
    + destruct (String.eqb (CallbackWithDebugInfo.method entry) method),
        (String.eqb (CallbackWithDebugInfo.method e') method); simpl; lia.
    + destruct (String.eqb (CallbackWithDebugInfo.method e') method); simpl; lia.
Qed.

Lemma waiting_delete method (k : Z) (entries : list (Z * CallbackWithDebugInfo.t)) :
  (waiting method (map_values (map_delete k entries))
   <= waiting method (map_values entries))%nat.
Proof.
  unfold waiting. induction entries as [|[k' e'] entries IH]; simpl; [lia|].
  destruct (decide (k' = k)); simpl.
  - destruct (String.eqb (CallbackWithDebugInfo.method e') method); simpl; lia.
  - destruct (String.eqb (CallbackWithDebugInfo.method e') method); simpl; lia.
Qed.

Lemma map_delete_set {K V} `{EqDecision K} (k : K) (v : V) m :
  map_delete k (map_set k v m) = map_delete k m.
Proof.
  induction m as [|[k' v'] m IH]; simpl.
  - now destruct (decide (k = k)).
  - destruct (decide (k' = k)) as [->|Hne]; simpl.
    + now destruct (decide (k = k)).
    + destruct (decide (k' = k)); [congruence|]. now rewrite IH.
Qed.

Lemma waiting_member method (sessionId : string) (old : Session.t)
    (sessions : list (string * Session.t)) :
  map_get sessionId sessions = Some old ->
  (waiting method (map_values (Session.callbacks old))
   <= waiting method
        (concat (map (fun session => map_values (Session.callbacks session))
                     (map_values sessions))))%nat.
Proof.
  induction sessions as [|[k s] sessions IH]; simpl; [discriminate|].
  destruct (decide (k = sessionId)) as [->|Hne]; rewrite waiting_app.
  - intros [= ->]. lia.
  - intros Hold. specialize (IH Hold). lia.
Qed.

Lemma outstanding_with_callbacks method sessionId old session callbacks router :
  map_get sessionId (SessionRouter._sessions router) = Some old ->
  (outstanding method (router_with_callbacks sessionId session callbacks router)
   + waiting method (map_values (Session.callbacks old))
   = outstanding method router + waiting method (map_values callbacks))%nat.
Proof.
  intros Hold. rewrite !outstanding_sessions. simpl.
  now rewrite (waiting_replaced method sessionId old _ _ Hold).
Qed.

Lemma outstanding_after_send method sessionId session method' callback router :
  map_get sessionId (SessionRouter._sessions router) = Some session ->
  (outstanding method (router_after_send router sessionId session method' callback)
   <= outstanding method router + 1)%nat.
Proof.
  intros Hs. unfold router_after_send. cbn [SessionRouter_nextMessageId].
  match goal with |- (outstanding method (router_with_callbacks _ _ ?cbs ?inner) <= _)%nat =>
    pose proof (outstanding_with_callbacks method sessionId session session cbs inner Hs)
      as Heq;
    pose proof (waiting_set method (SessionRouter._lastMessageId router)
                  {| CallbackWithDebugInfo.callback := callback;
                     CallbackWithDebugInfo.method := method' |}
                  (Session.callbacks session)) as Hle;
    change (outstanding method inner) with (outstanding method router) in Heq
  end.
  lia.
Qed.

(** ** Coalescing of debounced methods *)

Section Coalescing.
Context `{Externals}.
Variables (w0 : World.t) (target : nat) (agentDomain method : string).
Variables (request1 request2 request3 : JsValue) (response : Message.t).
Variables (t : TargetBase.t) (a : AgentPrototype.t) (r : nat).
Variables (router : SessionRouter.t) (session : Session.t).

Hypothesis Hagent : agent_of w0 target agentDomain = Some (t, a).
Hypothesis Hdebounced : method ∈ AgentPrototype._debouncedMethods a.
Hypothesis Hidle : unresolved a method = false.
Hypothesis Hnone : AgentPrototype._cachedMessages a !! method = None.
Hypothesis Hattached : TargetBase._router t = Some r.
Hypothesis Hrouter : World.routers w0 !! r = Some router.
Hypothesis Hsession :
  map_get (TargetBase._sessionId t) (SessionRouter._sessions router) = Some session.
Hypothesis Hdirect : Session.proxyConnection session = None.
Hypothesis Hquiet : outstanding method router = 0%nat.
Hypothesis Hcreated : Forall (fun c => stale c w0) (held_callbacks w0).
Hypothesis Hid : Message.id response = Some (SessionRouter._lastMessageId router).
Hypothesis Hto : default "" (Message.sessionId response) = TargetBase._sessionId t.

Local Abbreviation sid := (TargetBase._sessionId t).
Local Abbreviation id0 := (SessionRouter._lastMessageId router).
Local Abbreviation p0 := (World.promises w0).
Local Abbreviation cb0 := (InvokeCallback target agentDomain method p0).
Local Abbreviation cb1 := (InvokeCallback target agentDomain method (S p0)).
Local Abbreviation cb2 := (InvokeCallback target agentDomain method (S (S p0))).
Local Abbreviation msg request :=
  (invoke_message sid (AgentPrototype._domain a) method request).
Local Abbreviation A1 :=
  (agent_with_messages (AgentPrototype._cachedMessages a)
     (<[method := 1]> (AgentPrototype._unresolvedMessages a)) a).
Local Abbreviation A2 :=
  (agent_with_messages (<[method := (msg request2, cb1)]> (AgentPrototype._cachedMessages A1))
     (AgentPrototype._unresolvedMessages A1) A1).
Local Abbreviation A3 :=
  (agent_with_messages (<[method := (msg request3, cb2)]> (AgentPrototype._cachedMessages A2))
     (AgentPrototype._unresolvedMessages A2) A2).
Local Abbreviation R1 := (router_after_send router sid session method cb0).
Local Abbreviation w1 := (step w0 (Invoke target agentDomain method request1)).
Local Abbreviation w2 := (step w1 (Invoke target agentDomain method request2)).
Local Abbreviation w3 := (step w2 (Invoke target agentDomain method request3)).
Local Abbreviation w4 := (step w3 (Receive r (Some response))).

Lemma router_in_range : (r < length (World.routers w0))%nat.
Proof. eapply lookup_lt_Some. exact Hrouter. Qed.

Lemma agent_target :
  World.targets w0 !! target = Some t
  /\ bool_decide (agentDomain ∈ TargetBase.agents t) = true
  /\ World._agentPrototypes w0 !! agentDomain = Some a.
Proof.
  pose proof Hagent as Hag. unfold agent_of in Hag.
  destruct (World.targets w0 !! target) as [t'|]; [|discriminate].
  destruct (bool_decide (agentDomain ∈ TargetBase.agents t')) eqn:Hb; [|discriminate].
  destruct (World._agentPrototypes w0 !! agentDomain); [|discriminate].
  injection Hag as -> ->. auto.
Qed.

(** An agent keeps its target; its prototype is the one put last. *)
Lemma agent_of_put w prototype :
  World.targets w = World.targets w0 ->
  World._agentPrototypes w !! agentDomain = Some prototype ->
  agent_of w target agentDomain = Some (t, prototype).
Proof.
  intros Ht Hp. destruct agent_target as (H1 & H2 & _).
  unfold agent_of. now rewrite Ht, H1, H2, Hp.
Qed.

Lemma stage1 :
  exists before after,
    Forall reports_only before /\ Forall reports_only after
    /\ w1 = promise_created
              (emit (before
                       ++ [SendRawMessage r (SessionRouter._connection router)
                             (command_message id0 method request1 sid)]
                       ++ after)
                 (put_router r R1 (put_agent agentDomain A1 w0))).
Proof.
  cbn [step]. unfold AgentPrototype_invoke. rewrite Hagent, Hattached.
  rewrite (bool_decide_eq_true_2 _ Hdebounced), Hidle, Hnone. cbn [negb].
  unfold send_destructed, invoke_message. cbn [Message.sessionId Message.domain
    Message.method Message.params default from_option id].
  destruct (World_sendMessage_known r router sid session (AgentPrototype._domain a) method
              request1 cb0 (put_agent agentDomain A1 w0) Hrouter Hsession)
    as (before & after & Hb & Ha & Heq).
  exists before, after. split; [exact Hb|]. split; [exact Ha|].
  rewrite Heq. reflexivity.
Qed.

Lemma unresolved_A1 : unresolved A1 method = true.
Proof. unfold unresolved. simpl. now rewrite lookup_insert_eq. Qed.

Lemma stage2 w :
  World.targets w = World.targets w0 ->
  World._agentPrototypes w !! agentDomain = Some A1 ->
  step w (Invoke target agentDomain method request2)
  = promise_created
      (put_agent agentDomain
         (agent_with_messages
            (<[method := (msg request2, InvokeCallback target agentDomain method
                                          (World.promises w))]>
               (AgentPrototype._cachedMessages A1))
            (AgentPrototype._unresolvedMessages A1) A1) w).
Proof.
  intros Ht Hp. cbn [step]. unfold AgentPrototype_invoke.
  rewrite (agent_of_put w A1 Ht Hp), Hattached.
  change (AgentPrototype._debouncedMethods A1) with (AgentPrototype._debouncedMethods a).
  rewrite (bool_decide_eq_true_2 _ Hdebounced), unresolved_A1. reflexivity.
Qed.

Lemma stage3 w :
  World.targets w = World.targets w0 ->
  World._agentPrototypes w !! agentDomain = Some A2 ->
  step w (Invoke target agentDomain method request3)
  = promise_created
      (put_agent agentDomain
         (agent_with_messages
            (<[method := (msg request3, InvokeCallback target agentDomain method
                                          (World.promises w))]>
               (AgentPrototype._cachedMessages A2))
            (AgentPrototype._unresolvedMessages A2) A2) w).
Proof.
  intros Ht Hp. cbn [step]. unfold AgentPrototype_invoke.
  rewrite (agent_of_put w A2 Ht Hp), Hattached.
  change (AgentPrototype._debouncedMethods A2) with (AgentPrototype._debouncedMethods a).
  change (unresolved A2 method) with (unresolved A1 method).
  rewrite (bool_decide_eq_true_2 _ Hdebounced), unresolved_A1. reflexivity.
Qed.

(** The world after the three calls: the first request is on the wire, the
    third waits in the cache, the second is gone. *)
Lemma stage123 :
  exists before after,
    Forall reports_only before /\ Forall reports_only after
    /\ w3 = promise_created
              (put_agent agentDomain A3
                 (promise_created
                    (put_agent agentDomain A2
                       (promise_created
                          (emit (before
                                   ++ [SendRawMessage r (SessionRouter._connection router)
                                         (command_message id0 method request1 sid)]
                                   ++ after)
                             (put_router r R1 (put_agent agentDomain A1 w0))))))).
Proof.
  destruct stage1 as (before & after & Hb & Ha & H1).
  exists before, after. split; [exact Hb|]. split; [exact Ha|].
  rewrite H1.
  rewrite stage2; [|reflexivity|simpl; apply lookup_insert_eq].
  rewrite stage3; [|reflexivity|simpl; apply lookup_insert_eq].
  reflexivity.
Qed.

Local Abbreviation S1 :=
  {| Session.target := Session.target session;
     Session.callbacks :=
       map_set id0
         {| CallbackWithDebugInfo.callback := cb0; CallbackWithDebugInfo.method := method |}
         (Session.callbacks session);
     Session.proxyConnection := None |}.

Lemma R1_session : map_get sid (SessionRouter._sessions R1) = Some S1.
Proof. unfold router_after_send. simpl. rewrite Hdirect. apply map_get_set_eq. Qed.

Local Abbreviation A3' :=
  (agent_with_messages (AgentPrototype._cachedMessages A3)
     (delete method (AgentPrototype._unresolvedMessages A3)) A3).
Local Abbreviation A4 :=
  (agent_with_messages (delete method (AgentPrototype._cachedMessages A3'))
     (<[method := 1]> (AgentPrototype._unresolvedMessages A3')) A3').

Lemma send_destructed_invoke r' sessionId domain method' request callback w :
  send_destructed r' (invoke_message sessionId domain method' request, callback) w
  = World_sendMessage r' sessionId domain method' request callback w.
Proof. reflexivity. Qed.

Lemma warn_failed_fields error u :
  World.targets (warn_failed method error u) = World.targets u
  /\ World.routers (warn_failed method error u) = World.routers u
  /\ World._agentPrototypes (warn_failed method error u) = World._agentPrototypes u
  /\ exists reports,
       World.log (warn_failed method error u) = World.log u ++ reports
       /\ Forall reports_only reports.
Proof.
  unfold warn_failed. destruct error as [e|]; [destruct (_ && _)|]; simpl;
    repeat split; try reflexivity;
    first [ exists [ConsoleWarn (request_failed method e)]; split;
              [reflexivity|repeat constructor]
          | exists []; split; [now rewrite app_nil_r|constructor] ].
Qed.

(** The closure of the first call, called with the response: it sends the
    cached request of the third call. *)
Lemma first_callback_resends error result u router' session' :
  World.targets u = World.targets w0 ->
  World._agentPrototypes u !! agentDomain = Some A3 ->
  World.routers u !! r = Some router' ->
  map_get sid (SessionRouter._sessions router') = Some session' ->
  exists before after,
    Forall reports_only before /\ Forall reports_only after
    /\ InvokeCallback_body target agentDomain method p0 error result u
       = (emit [PromiseResolved p0
                  (ResolvedResponse result
                     (match error with
                      | Some e => Some (MessageError.message e)
                      | None => None
                      end))]
            (put_agent agentDomain A4
               (emit (before
                        ++ [SendRawMessage r (SessionRouter._connection router')
                              (command_message (SessionRouter._lastMessageId router') method
                                 request3 sid)]
                        ++ after)
                  (put_router r (router_after_send router' sid session' method cb2)
                     (put_agent agentDomain A3' (warn_failed method error u))))),
          false).
Proof.
  intros Ht Hp Hr Hs. unfold InvokeCallback_body.
  rewrite (agent_of_put u A3 Ht Hp).
  change (AgentPrototype._debouncedMethods A3) with (AgentPrototype._debouncedMethods a).
  rewrite (bool_decide_eq_true_2 _ Hdebounced). cbv zeta.
  change (AgentPrototype._cachedMessages A3')
    with (<[method := (msg request3, cb2)]> (AgentPrototype._cachedMessages A2)).
  rewrite lookup_insert_eq, Hattached.
  destruct (warn_failed_fields error u) as (Hwt & Hwr & Hwp & _).
  destruct (World_sendMessage_known r router' sid session' (AgentPrototype._domain a) method
              request3 cb2 (put_agent agentDomain A3' (warn_failed method error u)))
    as (before & after & Hb & Ha & Heq).
  { simpl. now rewrite Hwr. }
  { exact Hs. }
  exists before, after. split; [exact Hb|]. split; [exact Ha|].
  rewrite send_destructed_invoke, Heq. reflexivity.
Qed.

Lemma handle_response v suppress :
  World.targets v = World.targets w0 ->
  World.routers v !! r = Some R1 ->
  World._agentPrototypes v !! agentDomain = Some A3 ->
  exists new R4,
    World.log (handle_message r sid S1 suppress response v) = World.log v ++ new
    /\ sent_messages new = [command_message (Number_increment id0) method request3 sid]
    /\ World.routers (handle_message r sid S1 suppress response v) !! r = Some R4
    /\ (outstanding method R4 <= 1)%nat.
Proof.
  intros Ht Hr Hp. unfold handle_message.
  set (patched := match World.targets v !! Session.target S1 with
                  | Some t' => if TargetBase._needsNodeJSPatching t'
                               then NodeURL_patch response else response
                  | None => response
                  end).
  assert (Hpid : Message.id patched = Some id0).
  { subst patched. destruct (World.targets v !! _) as [t'|]; [|exact Hid].
    destruct (TargetBase._needsNodeJSPatching t'); exact Hid. }
  clearbody patched. rewrite Hpid, Hr.
  cbn [Session.callbacks]. rewrite map_get_set_eq, map_delete_set.
  cbn [CallbackWithDebugInfo.callback].
  set (R2 := router_with_callbacks sid S1 (map_delete id0 (Session.callbacks session)) R1).
  set (error := Message.error patched). set (result := or_null (Message.result patched)).
  change (call cb0 error result (put_router r R2 v))
    with (InvokeCallback_body target agentDomain method p0 error result
            (emit [CallbackInvoked cb0 error result] (put_router r R2 v))).
  assert (Hlen2 : (r < length (World.routers v))%nat) by (eapply lookup_lt_Some; eassumption).
  destruct (first_callback_resends error result
              (emit [CallbackInvoked cb0 error result] (put_router r R2 v)) R2
              {| Session.target := Session.target S1;
                 Session.callbacks := map_delete id0 (Session.callbacks session);
                 Session.proxyConnection := Session.proxyConnection S1 |})
    as (before & after & Hb & Ha & Heq).
  { exact Ht. }
  { exact Hp. }
  { simpl. now apply list_lookup_insert_eq. }
  { subst R2. simpl. apply map_get_set_eq. }
  rewrite Heq. clear Heq.
  set (S2 := {| Session.target := Session.target S1;
                Session.callbacks := map_delete id0 (Session.callbacks session);
                Session.proxyConnection := Session.proxyConnection S1 |}).
  set (R3 := router_after_send R2 sid S2 method cb2).
  destruct (warn_failed_fields error
              (emit [CallbackInvoked cb0 error result] (put_router r R2 v)))
    as (Hwt & Hwr & Hwp & reports & Hwl & Hreports).
  set (u3 := warn_failed method error _) in *.
  set (sent := before
                 ++ [SendRawMessage r (SessionRouter._connection R2)
                       (command_message (SessionRouter._lastMessageId R2) method request3
                          sid)]
                 ++ after).
  set (resolved := [PromiseResolved p0 _]).
  set (u5 := emit resolved _).
  assert (Hr5 : World.routers u5 !! r = Some R3).
  { subst u5. simpl. rewrite Hwr. simpl. apply list_lookup_insert_eq.
    rewrite length_insert. exact Hlen2. }
  assert (Hl5 : World.log u5
                = World.log v
                    ++ ([CallbackInvoked cb0 error result] ++ reports ++ sent ++ resolved)).
  { subst u5. simpl. rewrite Hwl. simpl. rewrite <- !app_assoc. reflexivity. }
  assert (Hsent : sent_messages
                    ([CallbackInvoked cb0 error result] ++ reports ++ sent ++ resolved)
                  = [command_message (Number_increment id0) method request3 sid]).
  { subst sent resolved. rewrite !sent_messages_app.
    destruct (reports_quiet _ Hreports) as (-> & _).
    destruct (reports_quiet _ Hb) as (-> & _).
    destruct (reports_quiet _ Ha) as (-> & _). reflexivity. }
  assert (Hout : (outstanding method R3 <= 1)%nat).
  { pose proof (waiting_member method sid session _ Hsession) as Hmember.
    rewrite <- outstanding_sessions, Hquiet in Hmember.
    assert (H1 : outstanding method R1
                 = waiting method (map_values (Session.callbacks S1))).
    { unfold router_after_send. cbn [SessionRouter_nextMessageId].
      match goal with |- outstanding method (router_with_callbacks _ _ ?cbs ?inner) = _ =>
        pose proof (outstanding_with_callbacks method sid session session cbs inner Hsession)
          as Heq1;
        change (outstanding method inner) with (outstanding method router) in Heq1
      end.
      simpl in *. lia. }
    assert (H2 : outstanding method R2 = 0%nat).
    { pose proof (outstanding_with_callbacks method sid S1 S1
                    (map_delete id0 (Session.callbacks session)) R1 R1_session) as Heq2.
      pose proof (waiting_delete method id0 (Session.callbacks session)) as Hdel.
      fold R2 in Heq2. lia. }
    assert (Hs2 : map_get sid (SessionRouter._sessions R2) = Some S2).
    { subst R2. simpl. apply map_get_set_eq. }
    pose proof (outstanding_after_send method sid S2 method cb2 R2 Hs2) as H3.
    fold R3 in H3. lia. }
  rewrite Hr5. set (R4 := router_with_pending _ _ R3).
  assert (Hout4 : (outstanding method R4 <= 1)%nat) by exact Hout.
  assert (Hlen5 : (r < length (World.routers u5))%nat) by (eapply lookup_lt_Some; eassumption).
  clearbody u5 R4.
  destruct (_ && _).
  - cbn [SessionRouter_deprecatedRunAfterPendingDispatches].
    exists (([CallbackInvoked cb0 error result] ++ reports ++ sent ++ resolved)
              ++ [SetTimeout (CheckPendingDispatches r)]), R4.
    split; [|split; [|split]].
    + simpl. rewrite Hl5. now rewrite <- !app_assoc.
    + rewrite sent_messages_app, Hsent. reflexivity.
    + simpl. apply list_lookup_insert_eq. rewrite length_insert. exact Hlen5.
    + exact Hout4.
  - exists ([CallbackInvoked cb0 error result] ++ reports ++ sent ++ resolved), R4.
    split; [|split; [|split]].
    + simpl. exact Hl5.
    + exact Hsent.
    + simpl. apply list_lookup_insert_eq. exact Hlen5.
    + exact Hout4.
Qed.

Lemma stage4 w :
  World.targets w = World.targets w0 ->
  World.routers w !! r = Some R1 ->
  World._agentPrototypes w !! agentDomain = Some A3 ->
  exists new R4,
    World.log (step w (Receive r (Some response))) = World.log w ++ new
    /\ sent_messages new = [command_message (Number_increment id0) method request3 sid]
    /\ World.routers (step w (Receive r (Some response))) !! r = Some R4
    /\ (outstanding method R4 <= 1)%nat.
Proof.
  intros Ht Hr Hp. cbn [step]. unfold SessionRouter_onMessage.
  rewrite Hr.
  set (wa := if Globals.dumpProtocol (World.globals w) then _ else w).
  set (wb := if Globals.onMessageReceived (World.globals w) then _ else wa).
  assert (Hwb : World.targets wb = World.targets w /\ World.routers wb = World.routers w
                /\ World._agentPrototypes wb = World._agentPrototypes w
                /\ exists reports,
                     World.log wb = World.log w ++ reports /\ Forall reports_only reports).
  { subst wb wa.
    destruct (Globals.onMessageReceived _), (Globals.dumpProtocol _); simpl;
      repeat split; try reflexivity.
    - eexists [_; _]. rewrite <- app_assoc. split; [reflexivity|repeat constructor].
    - eexists [_]. split; [reflexivity|repeat constructor].
    - eexists [_]. split; [reflexivity|repeat constructor].
    - exists []. rewrite app_nil_r. split; [reflexivity|constructor]. }
  destruct Hwb as (Hbt & Hbr & Hbp & reports & Hbl & Hreports). clearbody wb. clear wa.
  pose proof (forward_to_proxies_reports (World.onMessageHandlers wb) response
                (map_values (SessionRouter._sessions R1))) as Hforward.
  destruct (forward_to_proxies (World.onMessageHandlers wb) response
              (map_values (SessionRouter._sessions R1))) as [forwarded suppress].
  simpl in Hforward.
  rewrite Hto, R1_session. cbn [has_proxyConnection Session.proxyConnection].
  destruct (handle_response (emit forwarded wb) suppress)
    as (new & R4 & Hlog & Hsent & Hrouters & Hout).
  { simpl. congruence. }
  { simpl. rewrite Hbr. exact Hr. }
  { simpl. rewrite Hbp. exact Hp. }
  exists (reports ++ forwarded ++ new), R4. split; [|split; [|split]].
  - rewrite Hlog. simpl. rewrite Hbl. now rewrite <- !app_assoc.
  - rewrite !sent_messages_app.
    destruct (reports_quiet _ Hreports) as (-> & _).
    destruct (reports_quiet _ Hforward) as (-> & _). exact Hsent.
  - exact Hrouters.
  - exact Hout.
Qed.

Lemma not_yet_held : forall k, ~ held (InvokeCallback target agentDomain method (k + p0)) w0.
Proof.
  intros k Hheld. unfold held in Hheld.
  rewrite Forall_forall in Hcreated. specialize (Hcreated _ Hheld). simpl in Hcreated. lia.
Qed.

Lemma cached_not_yet k method' message :
  AgentPrototype._cachedMessages a !! method'
  = Some (message, InvokeCallback target agentDomain method (k + p0)) -> False.
Proof.
  intros Hin. apply (not_yet_held k). apply held_iff. right. right.
  destruct agent_target as (_ & _ & Hp). eauto 8.
Qed.

Lemma R1_pending c : In c (pending_callbacks R1) -> c = cb0 \/ In c (pending_callbacks router).
Proof.
  unfold router_after_send. cbn [SessionRouter_nextMessageId]. intros Hin.
  apply pending_with_callbacks in Hin; [|simpl; eapply map_get_In; exact Hsession].
  destruct Hin as [(entry & He & <-)|Hin]; [|right; exact Hin].
  apply map_values_set in He as [->|He]; [now left|].
  right. apply pending_In. exists session, entry.
  split; [eapply map_get_In; exact Hsession|]. split; [exact He|reflexivity].
Qed.

(** After the three calls nothing holds the callback of the second. *)
Lemma second_dropped : safe cb1 w3.
Proof.
  destruct stage123 as (before & after & Hb & Ha & ->). split; [|simpl; lia].
  rewrite held_iff. simpl.
  intros [(router' & Hin & Hpending)|[Htimer|(d & prototype & m & message & Hp & Hc)]].
  - apply In_insert in Hin as [->|Hin].
    + apply R1_pending in Hpending as [Heq|Hpending]; [injection Heq; lia|].
      apply (not_yet_held 1). apply held_iff. left. exists router.
      split; [eapply In_lookup; exact Hrouter|exact Hpending].
    + apply (not_yet_held 1). apply held_iff. left. eauto.
  - destruct (reports_quiet _ Hb) as (_ & _ & Hsb).
    destruct (reports_quiet _ Ha) as (_ & _ & Hsa).
    rewrite scheduled_app, Hsb in Htimer. simpl in Htimer.
    rewrite Hsa, app_nil_r in Htimer.
    apply (not_yet_held 1). apply held_iff. right. now left.
  - destruct (decide (d = agentDomain)) as [->|Hd].
    + rewrite lookup_insert_eq in Hp. injection Hp as <-. simpl in Hc.
      destruct (decide (m = method)) as [->|Hm].
      * rewrite lookup_insert_eq in Hc. injection Hc as _ Heq. lia.
      * rewrite !lookup_insert_ne in Hc by congruence.
        exact (cached_not_yet 1 m message Hc).
    + rewrite !lookup_insert_ne in Hp by congruence.
      apply (not_yet_held 1). apply held_iff. right. right. eauto 8.
Qed.

Lemma stages :
  w2 = promise_created (put_agent agentDomain A2 w1)
  /\ w3 = promise_created (put_agent agentDomain A3 w2).
Proof.
  destruct stage1 as (before & after & Hb & Ha & H1).
  assert (H2 : w2 = promise_created (put_agent agentDomain A2 w1)).
  { rewrite H1. rewrite stage2; [reflexivity|reflexivity|simpl; apply lookup_insert_eq]. }
  split; [exact H2|].
  rewrite H2, H1. rewrite stage3; [reflexivity|reflexivity|simpl; apply lookup_insert_eq].
Qed.

Lemma R1_outstanding : (outstanding method R1 <= 1)%nat.
Proof.
  pose proof (outstanding_after_send method sid session method cb0 router Hsession) as Hle.
  rewrite Hquiet in Hle. exact Hle.
Qed.

(** C1. A debounced method of an idle agent is called three times through
    [_invoke], and then the response to the first request arrives. The
    first call puts its request on the wire; the second and the third put
    nothing on the wire, each only takes the place of the cached call; the
    response puts the request of the third call on the wire, with the next
    id. So exactly two messages are sent, the first request and then the
    third. The callback of the second call, which the cache held after the
    second call, is never invoked, whatever happens after the third call.
    After each of the four steps at most one request for the method waits
    for its response at the router. *)
Theorem debounced_calls_coalesce :
  let first := command_message id0 method request1 sid in
  let third := command_message (Number_increment id0) method request3 sid in
  sent_messages (World.log w1) = sent_messages (World.log w0) ++ [first]
  /\ sent_messages (World.log w2) = sent_messages (World.log w0) ++ [first]
  /\ sent_messages (World.log w3) = sent_messages (World.log w0) ++ [first]
  /\ sent_messages (World.log w4) = sent_messages (World.log w0) ++ [first; third]
  /\ (exists prototype,
        World._agentPrototypes w2 !! agentDomain = Some prototype
        /\ AgentPrototype._cachedMessages prototype !! method = Some (msg request2, cb1))
  /\ (forall ops, exists new,
        World.log (run ops w3) = World.log w0 ++ new /\ ~ In cb1 (invoked new))
  /\ Forall (fun w => exists router',
                World.routers w !! r = Some router'
                /\ (outstanding method router' <= 1)%nat) [w1; w2; w3; w4].
Proof.
  intros first third.
  destruct stage1 as (before & after & Hb & Ha & H1).
  destruct stages as (H2 & H3).
  destruct (reports_quiet _ Hb) as (Hb1 & Hb2 & _).
  destruct (reports_quiet _ Ha) as (Ha1 & Ha2 & _).
  assert (Hlog1 : World.log w1
                  = World.log w0 ++ before
                      ++ [SendRawMessage r (SessionRouter._connection router) first] ++ after).
  { rewrite H1. reflexivity. }
  assert (Hlog2 : World.log w2 = World.log w1) by (rewrite H2; reflexivity).
  assert (Hlog3 : World.log w3 = World.log w1) by (rewrite H3; simpl; exact Hlog2).
  assert (Hsent1 : sent_messages (World.log w1) = sent_messages (World.log w0) ++ [first]).
  { rewrite Hlog1, !sent_messages_app, Hb1, Ha1. reflexivity. }
  assert (Hr1 : World.routers w1 !! r = Some R1).
  { rewrite H1. simpl. apply list_lookup_insert_eq. exact router_in_range. }
  assert (Hr2 : World.routers w2 !! r = Some R1) by (rewrite H2; exact Hr1).
  assert (Hr3 : World.routers w3 !! r = Some R1) by (rewrite H3; exact Hr2).
  assert (Ht3 : World.targets w3 = World.targets w0).
  { rewrite H3, H2, H1. reflexivity. }
  assert (Hp3 : World._agentPrototypes w3 !! agentDomain = Some A3).
  { rewrite H3. simpl. apply lookup_insert_eq. }
  destruct (stage4 w3 Ht3 Hr3 Hp3) as (new & R4 & Hlog4 & Hsent4 & Hr4 & Hout4).
  split; [exact Hsent1|]. split; [now rewrite Hlog2|]. split; [now rewrite Hlog3|].
  split; [|split; [|split]].
  - rewrite Hlog4, sent_messages_app, Hsent4, Hlog3, Hsent1, <- app_assoc. reflexivity.
  - exists A2. split; [rewrite H2; simpl; apply lookup_insert_eq|].
    simpl. apply lookup_insert_eq.
  - intros ops.
    destruct (moves_run r cb1 ops w3) as (_ & Hcalm).
    { apply Forall_forall. intros op _. destruct op; simpl; try tauto; try discriminate.
      destruct callback; discriminate. }
    destruct (Hcalm second_dropped) as (_ & later & Hlater & Hnot).
    exists ((before ++ [SendRawMessage r (SessionRouter._connection router) first] ++ after)
            ++ later).
    split.
    + rewrite Hlater, Hlog3, Hlog1, <- !app_assoc. reflexivity.
    + rewrite !invoked_app, Hb2, Ha2. simpl. exact Hnot.
  - pose proof R1_outstanding as Hone. repeat constructor; eauto.
Qed.

End Coalescing.

(** Three calls of [DOM.getBoxModel] on the root target, then the response
    to the first. *)
Lemma debounced_calls_coalesce_witness :
  let w0 := @run plain_externals
              [RegisterCommand "DOM.getBoxModel" [] []; NewTarget false None "" None]
              (initial_world plain_globals (Some 0%nat) ∅) in
  let request n := JsObject [("nodeId", JsNumber n)] in
  let calls := [Invoke 0 "DOM" "DOM.getBoxModel" (request 1);
                Invoke 0 "DOM" "DOM.getBoxModel" (request 2);
                Invoke 0 "DOM" "DOM.getBoxModel" (request 3)] in
  let w3 := @run plain_externals calls w0 in
  let w4 := @step plain_externals w3 (Receive 0 (Some (response_message "" 1 JsNull))) in
  sent_messages (World.log w3) = [command_message 1 "DOM.getBoxModel" (request 1) ""]
  /\ sent_messages (World.log w4)
     = [command_message 1 "DOM.getBoxModel" (request 1) "";
        command_message 2 "DOM.getBoxModel" (request 3) ""]
  /\ ~ In (InvokeCallback 0 "DOM" "DOM.getBoxModel" 1) (invoked (World.log w4)).
Proof.
  intros w0 request calls w3 w4.
  edestruct (@debounced_calls_coalesce plain_externals w0 0%nat "DOM" "DOM.getBoxModel"
               (request 1) (request 2) (request 3) (response_message "" 1 JsNull))
    as (_ & _ & H3 & H4 & _ & Hnever & _).
  - vm_compute. reflexivity.
  - simpl. constructor.
  - vm_compute. reflexivity.
  - vm_compute. reflexivity.
  - vm_compute. reflexivity.
  - vm_compute. reflexivity.
  - vm_compute. reflexivity.
  - vm_compute. reflexivity.
  - vm_compute. reflexivity.
  - vm_compute. constructor.
  - vm_compute. reflexivity.
  - vm_compute. reflexivity.
  - split; [exact H3|]. split; [exact H4|].
    destruct (Hnever [Receive 0 (Some (response_message "" 1 JsNull))]) as (new & Hlog & Hnot).
    change (World.log w4 = [] ++ new) in Hlog. simpl in Hlog.
    rewrite Hlog. exact Hnot.
Defined.

(** * Further properties *)

(** ** Responses *)

Lemma map_delete_absent {K V} `{EqDecision K} (k : K) (m : list (K * V)) :
  map_get k m = None -> map_delete k m = m.
Proof.
  induction m as [|[k' v'] m IH]; simpl; [reflexivity|].
  destruct (decide (k' = k)); [discriminate|]. intros Hm. now rewrite IH.
Qed.

Lemma map_set_same {K V} `{EqDecision K} (k : K) (v : V) m :
  map_get k m = Some v -> map_set k v m = m.
Proof.
  induction m as [|[k' v'] m IH]; simpl; [discriminate|].
  destruct (decide (k' = k)) as [->|Hne]; [intros [= ->]; reflexivity|].
  intros Hm. now rewrite IH.
Qed.

Lemma map_set_set {K V} `{EqDecision K} (k : K) (v v' : V) m :
  map_set k v' (map_set k v m) = map_set k v' m.
Proof.
  induction m as [|[k0 v0] m IH]; simpl.
  - now destruct (decide (k = k)).
  - destruct (decide (k0 = k)) as [->|Hne]; simpl.
    + now destruct (decide (k = k)).
    + destruct (decide (k0 = k)); [congruence|]. now rewrite IH.
Qed.

Lemma callback_calls_app l1 l2 :
  callback_calls (l1 ++ l2) = callback_calls l1 ++ callback_calls l2.
Proof.
  induction l1 as [|e l1 IH]; simpl; [reflexivity|].
  destruct e; simpl; try exact IH. now rewrite IH.
Qed.


Lemma with_log_same w : with_log (World.log w) w = w.
Proof. now destruct w. Qed.

Lemma with_routers_same w : with_routers (World.routers w) w = w.
Proof. now destruct w. Qed.

(** The session a router has under an id, with the callbacks it has, put
    back: the router is the same. *)
Lemma router_with_callbacks_same sessionId session router :
  map_get sessionId (SessionRouter._sessions router) = Some session ->
  router_with_callbacks sessionId session (Session.callbacks session) router = router.
Proof.
  intros Hs. unfold router_with_callbacks. destruct router as [c l p i sessions scripts].
  simpl in *. f_equal. apply map_set_same. rewrite Hs. now destruct session.
Qed.

Lemma hooks_report effects : Forall is_hook effects -> Forall reports_only effects.
Proof.
  induction 1 as [|e es He _ IH]; constructor; [|exact IH].
  destruct e; simpl in *; tauto.
Qed.

Lemma forward_to_proxies_hooks handlers messageObject sessions :
  Forall is_hook (fst (forward_to_proxies handlers messageObject sessions)).
Proof.
  induction sessions as [|session rest IH]; simpl; [constructor|].
  destruct (forward_to_proxies handlers messageObject rest) as [effects suppress].
  destruct (Session.proxyConnection session); [|exact IH].
  destruct (bool_decide _); simpl; [constructor; [exact I|exact IH]|exact IH].
Qed.

(** What [_onMessage] does before it looks for the session: it tells the
    hooks of [test] and the proxy connections. *)
Lemma onMessage_prelude `{Externals} r router m w :
  World.routers w !! r = Some router ->
  exists reports suppress,
    Forall is_hook reports
    /\ SessionRouter_onMessage r (Some m) w
       = let w' := with_log (World.log w ++ reports) w in
         match map_get (default "" (Message.sessionId m)) (SessionRouter._sessions router) with
         | None =>
             emit (if suppress then []
                   else reportProtocolError
                          "Protocol Error: the message with wrong session id" m) w'
         | Some session =>
             if has_proxyConnection session then w'
             else handle_message r (default "" (Message.sessionId m)) session suppress m w'
         end.
Proof.
  intros Hr. unfold SessionRouter_onMessage. rewrite Hr.
  set (wa := if Globals.dumpProtocol (World.globals w) then _ else w).
  set (wb := if Globals.onMessageReceived (World.globals w) then _ else wa).
  assert (Hwb : exists reports,
             wb = with_log (World.log w ++ reports) w /\ Forall is_hook reports).
  { subst wb wa.
    destruct (Globals.onMessageReceived _), (Globals.dumpProtocol _).
    - eexists [_; _]. split.
      + unfold emit. simpl. rewrite !app_nil_r, <- app_assoc. now destruct w.
      + repeat constructor.
    - eexists [_]. split.
      + unfold emit. simpl. rewrite !app_nil_r. now destruct w.
      + repeat constructor.
    - eexists [_]. split.
      + unfold emit. simpl. rewrite !app_nil_r. now destruct w.
      + repeat constructor.
    - exists []. rewrite app_nil_r. split; [now destruct w|constructor]. }
  destruct Hwb as (reports & -> & Hreports).
  pose proof (forward_to_proxies_hooks (World.onMessageHandlers w) m
                (map_values (SessionRouter._sessions router))) as Hforward.
  change (World.onMessageHandlers (with_log _ w)) with (World.onMessageHandlers w).
  destruct (forward_to_proxies (World.onMessageHandlers w) m
              (map_values (SessionRouter._sessions router))) as [forwarded suppress].
  simpl in Hforward.
  exists (reports ++ forwarded), suppress. split; [apply Forall_app; auto|].
  rewrite (emit_reports forwarded) by (apply hooks_report; exact Hforward).
  simpl. rewrite <- app_assoc. reflexivity.
Qed.

Lemma put_router_same r router w :
  World.routers w !! r = Some router -> put_router r router w = w.
Proof.
  intros Hr. unfold put_router. rewrite list_insert_id by exact Hr. apply with_routers_same.
Qed.

Lemma patched_id `{Externals} w session m :
  Message.id (as_received w session m) = Message.id m
  /\ Message.method (as_received w session m) = Message.method m.
Proof.
  unfold as_received. destruct (World.targets w !! Session.target session) as [t|]; [|auto].
  destruct (TargetBase._needsNodeJSPatching t); auto.
Qed.

(** A response whose id no callback of the session waits for, and a message
    that has neither an id nor a method, change nothing. *)
Lemma handle_message_dropped `{Externals} r router sessionId session suppress m w :
  World.routers w !! r = Some router ->
  map_get sessionId (SessionRouter._sessions router) = Some session ->
  match Message.id m with
  | Some id => map_get id (Session.callbacks session) = None
  | None => Message.method m = None
  end ->
  handle_message r sessionId session suppress m w = w.
Proof.
  intros Hr Hs Hm. unfold handle_message.
  fold (as_received w session m).
  destruct (patched_id w session m) as [-> ->].
  destruct (Message.id m) as [id|].
  - rewrite Hm, Hr, (map_delete_absent _ _ Hm), (router_with_callbacks_same _ _ _ Hs).
    rewrite (put_router_same _ _ _ Hr).
    destruct suppress; unfold reportProtocolError, emit; simpl; rewrite !app_nil_r;
      now destruct w.
  - rewrite Hm. unfold reportProtocolError, emit; simpl; rewrite !app_nil_r. now destruct w.
Qed.

(** X1. A message the router has no receiver for is dropped: a message for a
    session that is not registered, a response whose id no callback of its
    session waits for (an unknown id, or a response that comes a second
    time), and a message with neither an id nor a method. The hooks of
    [test] and the proxy connections see it; the routers, the targets, the
    timers and the agents are as before, and nothing is called. *)
Theorem message_without_receiver `{Externals} (w : World.t) (r : nat)
    (router : SessionRouter.t) (m : Message.t) :
  World.routers w !! r = Some router ->
  (let sessionId := default "" (Message.sessionId m) in
   map_get sessionId (SessionRouter._sessions router) = None
   \/ exists session,
        map_get sessionId (SessionRouter._sessions router) = Some session
        /\ Session.proxyConnection session = None
        /\ match Message.id m with
           | Some id => map_get id (Session.callbacks session) = None
           | None => Message.method m = None
           end) ->
  exists reports,
    step w (Receive r (Some m)) = with_log (World.log w ++ reports) w
    /\ Forall reports_only reports.
Proof.
  intros Hr Hcase. cbn [step].
  destruct (onMessage_prelude r router m w Hr) as (reports & suppress & Hreports & ->).
  exists reports. split; [|apply hooks_report; exact Hreports]. cbv zeta.
  destruct Hcase as [Hnone|(session & Hs & Hdirect & Hm)].
  - rewrite Hnone. destruct suppress; unfold reportProtocolError, emit; simpl;
      now rewrite !app_nil_r.
  - rewrite Hs. unfold has_proxyConnection. rewrite Hdirect.
    apply (handle_message_dropped r router); [exact Hr|exact Hs|exact Hm].
Qed.

Lemma put_router_put_router r router router' w :
  put_router r router' (put_router r router w) = put_router r router' w.
Proof. unfold put_router. destruct w. simpl. now rewrite list_insert_insert_eq. Qed.

Lemma put_router_emit r router effects w :
  put_router r router (emit effects w) = emit effects (put_router r router w).
Proof. reflexivity. Qed.

Lemma emit_emit effects effects' w :
  emit effects' (emit effects w) = emit (effects ++ effects') w.
Proof.
  unfold emit. destruct w. simpl. now rewrite scheduled_app, <- !app_assoc.
Qed.

Lemma put_router_lookup r router router' w :
  World.routers w !! r = Some router -> World.routers (put_router r router' w) !! r = Some router'.
Proof. intros Hr. simpl. apply list_lookup_insert_eq. eapply lookup_lt_Some. exact Hr. Qed.


(** A response for which a function of the caller of [sendMessage] waits. *)
Lemma handle_message_external `{Externals} r router sessionId session suppress m w id f method :
  World.routers w !! r = Some router ->
  Message.id m = Some id ->
  map_get id (Session.callbacks session)
  = Some {| CallbackWithDebugInfo.callback := ExternalCallback f;
            CallbackWithDebugInfo.method := method |} ->
  handle_message r sessionId session suppress m w
  = let received := as_received w session m in
    let router' :=
      router_with_pending
        (SessionRouter._pendingResponsesCount router - 1)
        (SessionRouter._pendingLongPollingMessageIds router ∖ {[id]})
        (router_with_callbacks sessionId session
           (map_delete id (Session.callbacks session)) router) in
    emit (CallbackInvoked (ExternalCallback f) (Message.error received)
            (or_null (Message.result received))
          :: map SetTimeout (polls r router'))
      (put_router r router' w).
Proof.
  intros Hr Hid Hcb. unfold handle_message. fold (as_received w session m).
  destruct (patched_id w session m) as [-> _]. rewrite Hid, Hcb, Hr.
  cbn [CallbackWithDebugInfo.callback call].
  match goal with |- context [World.routers (emit ?e (put_router r ?R w)) !! r] =>
    change (World.routers (emit e (put_router r R w)) !! r)
      with (World.routers (put_router r R w) !! r);
    rewrite (put_router_lookup r router R w Hr) end.
  cbv zeta. unfold polls, SessionRouter_deprecatedRunAfterPendingDispatches.
  set (router' := router_with_pending _ _ _).
  destruct (negb (Nat.eqb (length (SessionRouter._pendingScripts router')) 0)
            && negb (SessionRouter_hasOutstandingNonLongPollingRequests router')).
  - rewrite !put_router_emit, !put_router_put_router, emit_emit. reflexivity.
  - rewrite !put_router_emit, !put_router_put_router. reflexivity.
Qed.

Lemma router_after_send_session router sessionId session method callback :
  map_get sessionId
    (SessionRouter._sessions (router_after_send router sessionId session method callback))
  = Some {| Session.target := Session.target session;
            Session.callbacks :=
              map_set (SessionRouter._lastMessageId router)
                {| CallbackWithDebugInfo.callback := callback;
                   CallbackWithDebugInfo.method := method |}
                (Session.callbacks session);
            Session.proxyConnection := Session.proxyConnection session |}.
Proof. unfold router_after_send. simpl. apply map_get_set_eq. Qed.

(** The router after a request and its response: only the id is used up. *)
Lemma router_after_round_trip router sessionId session method callback :
  map_get sessionId (SessionRouter._sessions router) = Some session ->
  map_get (SessionRouter._lastMessageId router) (Session.callbacks session) = None ->
  SessionRouter._lastMessageId router ∉ SessionRouter._pendingLongPollingMessageIds router ->
  let sent := router_after_send router sessionId session method callback in
  let waiting :=
    {| Session.target := Session.target session;
       Session.callbacks :=
         map_set (SessionRouter._lastMessageId router)
           {| CallbackWithDebugInfo.callback := callback;
              CallbackWithDebugInfo.method := method |}
           (Session.callbacks session);
       Session.proxyConnection := Session.proxyConnection session |} in
  router_with_pending
    (SessionRouter._pendingResponsesCount sent - 1)
    (SessionRouter._pendingLongPollingMessageIds sent ∖ {[SessionRouter._lastMessageId router]})
    (router_with_callbacks sessionId waiting
       (map_delete (SessionRouter._lastMessageId router) (Session.callbacks waiting)) sent)
  = snd (SessionRouter_nextMessageId router).
Proof.
  intros Hs Hfresh Hpolling sent waiting. subst sent waiting.
  unfold router_after_send, router_with_pending, router_with_callbacks. simpl.
  f_equal.
  - lia.
  - destruct (bool_decide _); [|set_solver].
    apply set_eq. intros x. rewrite elem_of_difference, elem_of_union, !elem_of_singleton.
    split; [tauto|]. intros Hx. split; [tauto|]. now intros ->.
  - rewrite map_set_set, map_delete_set, (map_delete_absent _ _ Hfresh).
    apply map_set_same. rewrite Hs. now destruct session.
Qed.


(** A response with an id nothing waits for, on the session of the root
    target. *)
Lemma message_without_receiver_witness :
  let w := @run plain_externals [NewTarget false None "" None]
             (initial_world plain_globals (Some 0%nat) ∅) in
  exists reports,
    @step plain_externals w (Receive 0 (Some (response_message "" 5 JsNull)))
    = with_log (World.log w ++ reports) w
    /\ Forall reports_only reports.
Proof.
  intros w.
  refine (@message_without_receiver plain_externals w 0%nat
            (SessionRouter.Build_t 0 1 0 ∅
               [("", {| Session.target := 0%nat; Session.callbacks := [];
                        Session.proxyConnection := None |})] [])
            (response_message "" 5 JsNull) _ _).
  - vm_compute. reflexivity.
  - right. eexists. split; [reflexivity|]. split; reflexivity.
Defined.


(** ** Sessions that go away *)

Lemma run_app `{Externals} ops ops' w : run (ops ++ ops') w = run ops' (run ops w).
Proof. unfold run. apply fold_left_app. Qed.

Lemma run_cons `{Externals} op ops w : run (op :: ops) w = run ops (step w op).
Proof. reflexivity. Qed.

(** The timers that only call functions of callers run one after the
    other: each calls its callback with its error and [null]. *)
Lemma run_call_later `{Externals} (calls : list (Callback * MessageError.t)) w :
  Forall (fun c => is_external (fst c) = true) calls ->
  World.timers w = map (fun c => CallLater (fst c) (snd c)) calls ->
  run (repeat Timer (length calls)) w
  = with_timers []
      (with_log (World.log w
                 ++ map (fun c => CallbackInvoked (fst c) (Some (snd c)) JsNull) calls) w).
Proof.
  intros Hexternal. revert w.
  induction Hexternal as [|[callback error] calls Hc _ IH]; intros w Htimers.
  - simpl in *. rewrite app_nil_r. destruct w; simpl in *. now subst.
  - cbn [length repeat]. rewrite run_cons.
    cbn [step]. unfold run_timer. rewrite Htimers. cbn [map fst snd].
    destruct callback; try discriminate. cbn [call fst].
    rewrite IH.
    + unfold emit. destruct w. simpl. now rewrite <- app_assoc.
    + simpl. apply app_nil_r.
Qed.

Lemma calls_of_invocations (calls : list (Callback * MessageError.t)) :
  callback_calls (map (fun c => CallbackInvoked (fst c) (Some (snd c)) JsNull) calls)
  = map (fun c => (fst c, Some (snd c), JsNull)) calls
  /\ sent_messages (map (fun c => CallbackInvoked (fst c) (Some (snd c)) JsNull) calls) = [].
Proof.
  induction calls as [|c calls [IH1 IH2]]; [auto|]. cbn [map callback_calls sent_messages].
  now rewrite IH1, IH2.
Qed.

(** X3. [unregisterSession] takes the session off the router and fails what
    waits on it: for each pending callback, in the order of the requests, a
    timer is set that calls it with the error "Session is unregistering,
    can't dispatch pending call to <method>" (code -32001) and [null]. No
    callback is called before its timer runs, nothing is sent, and the
    pending counter of the router is not touched. Once the timers have run,
    each function of a caller has been called exactly once. *)
Theorem unregisterSession_fails_pending `{Externals} (w : World.t) (r : nat)
    (router : SessionRouter.t) (sessionId : string) (session : Session.t) :
  World.routers w !! r = Some router ->
  map_get sessionId (SessionRouter._sessions router) = Some session ->
  World.timers w = [] ->
  Forall (fun entry => is_external (CallbackWithDebugInfo.callback entry) = true)
    (map_values (Session.callbacks session)) ->
  let pending := map_values (Session.callbacks session) in
  let failed entry :=
    (CallbackWithDebugInfo.callback entry,
     unregistering_error (CallbackWithDebugInfo.method entry)) in
  let w1 := step w (UnregisterSession r sessionId) in
  let w2 := run (repeat Timer (length pending)) w1 in
  World.routers w1
  = <[r := router_with_sessions (map_delete sessionId (SessionRouter._sessions router))
            router]> (World.routers w)
  /\ World.timers w1 = map (fun entry => CallLater (fst (failed entry)) (snd (failed entry)))
                         pending
  /\ (exists effects,
        World.log w1 = World.log w ++ effects
        /\ callback_calls effects = [] /\ sent_messages effects = [])
  /\ World.routers w2 = World.routers w1
  /\ World.timers w2 = []
  /\ exists effects,
       World.log w2 = World.log w1 ++ effects
       /\ callback_calls effects
          = map (fun entry => (fst (failed entry), Some (snd (failed entry)), JsNull)) pending
       /\ sent_messages effects = [].
Proof.
  intros Hr Hs Htimers Hexternal pending failed w1 w2.
  assert (H1 : w1 = emit (map dispatchUnregisterSessionError pending)
                      (put_router r
                         (router_with_sessions
                            (map_delete sessionId (SessionRouter._sessions router)) router) w)).
  { subst w1. cbn [step]. unfold World_unregisterSession, SessionRouter_unregisterSession.
    now rewrite Hr, Hs. }
  assert (Hscheduled : scheduled (map dispatchUnregisterSessionError pending)
                       = map (fun entry => CallLater (fst (failed entry)) (snd (failed entry)))
                           pending).
  { clear. induction pending as [|entry pending IH]; simpl; [reflexivity|]. now rewrite IH. }
  assert (Hquiet : callback_calls (map dispatchUnregisterSessionError pending) = []
                   /\ sent_messages (map dispatchUnregisterSessionError pending) = []).
  { clear. induction pending as [|entry pending IH]; simpl; auto. }
  assert (Ht1 : World.timers w1
                = map (fun entry => CallLater (fst (failed entry)) (snd (failed entry)))
                    pending).
  { rewrite H1. simpl. now rewrite Htimers, Hscheduled. }
  assert (H2 : w2 = with_timers []
                      (with_log (World.log w1
                                 ++ map (fun c => CallbackInvoked (fst c) (Some (snd c)) JsNull)
                                      (map failed pending)) w1)).
  { subst w2. rewrite <- (length_map failed pending). apply run_call_later.
    - apply Forall_map. exact Hexternal.
    - rewrite Ht1. now rewrite map_map. }
  split; [rewrite H1; reflexivity|]. split; [exact Ht1|]. split; [|split; [|split]].
  - exists (map dispatchUnregisterSessionError pending). split; [rewrite H1; reflexivity|].
    exact Hquiet.
  - rewrite H2. reflexivity.
  - rewrite H2. reflexivity.
  - eexists. split; [rewrite H2; reflexivity|].
    destruct (calls_of_invocations (map failed pending)) as [-> ->].
    now rewrite map_map.
Qed.

(** Two requests wait on the session of the root target when it is
    unregistered. *)
Lemma unregisterSession_fails_pending_witness :
  let w := @run plain_externals
             [NewTarget false None "" None;
              SendMessage 0 "" "DOM" "DOM.enable" JsNull 7;
              SendMessage 0 "" "CSS" "CSS.enable" JsNull 8]
             (initial_world plain_globals (Some 0%nat) ∅) in
  let w1 := @step plain_externals w (UnregisterSession 0 "") in
  let w2 := @run plain_externals (repeat Timer 2) w1 in
  World.timers w2 = []
  /\ exists effects,
       World.log w2 = World.log w1 ++ effects
       /\ callback_calls effects
          = [(ExternalCallback 7, Some (unregistering_error "DOM.enable"), JsNull);
             (ExternalCallback 8, Some (unregistering_error "CSS.enable"), JsNull)]
       /\ sent_messages effects = [].
Proof.
  intros w w1 w2.
  edestruct (@unregisterSession_fails_pending plain_externals w 0%nat) with (sessionId := "")
    as (_ & _ & _ & _ & Htimers & Hlog).
  - vm_compute. reflexivity.
  - vm_compute. reflexivity.
  - vm_compute. reflexivity.
  - repeat constructor.
  - split; [exact Htimers|exact Hlog].
Defined.

(** ** Commands of an agent *)


Lemma resolutions_app l1 l2 : resolutions (l1 ++ l2) = resolutions l1 ++ resolutions l2.
Proof.
  induction l1 as [|e l1 IH]; simpl; [reflexivity|].
  destruct e; simpl; try exact IH. now rewrite IH.
Qed.

Lemma console_errors_app l1 l2 :
  console_errors (l1 ++ l2) = console_errors l1 ++ console_errors l2.
Proof.
  induction l1 as [|e l1 IH]; simpl; [reflexivity|].
  destruct e; simpl; try exact IH. now rewrite IH.
Qed.

Lemma reports_no_resolutions effects :
  Forall reports_only effects -> resolutions effects = [].
Proof.
  induction 1 as [|e es He _ IH]; [reflexivity|].
  destruct e; simpl in *; try contradiction; exact IH.
Qed.

Lemma emit_nil w : emit [] w = w.
Proof. unfold emit. destruct w. simpl. now rewrite !app_nil_r. Qed.

Lemma World_sendMessage_hooks r router sessionId session domain method params callback w :
  World.routers w !! r = Some router ->
  map_get sessionId (SessionRouter._sessions router) = Some session ->
  exists before after,
    Forall is_hook before /\ Forall is_hook after
    /\ World_sendMessage r sessionId domain method params callback w
       = emit (before
                 ++ [SendRawMessage r (SessionRouter._connection router)
                       (command_message (SessionRouter._lastMessageId router) method params
                          sessionId)]
                 ++ after)
           (put_router r (router_after_send router sessionId session method callback) w).
Proof.
  intros Hrouter Hsession. unfold World_sendMessage. rewrite Hrouter.
  unfold SessionRouter_sendMessage, router_after_send. cbn [SessionRouter_nextMessageId].
  match goal with |- context [map_get sessionId ?s] =>
    change s with (SessionRouter._sessions router) end.
  rewrite Hsession.
  eexists (_ ++ _), _. split; [|split; [|rewrite <- app_assoc; reflexivity]].
  - destruct (Globals.dumpProtocol _), (Globals.onMessageSent _); repeat constructor.
  - destruct (statsRecording _); repeat constructor.
Qed.

(** What a list of effects that only tell hooks does not contain. *)
Lemma hooks_quiet effects :
  Forall is_hook effects ->
  scheduled effects = [] /\ sent_messages effects = [] /\ callback_calls effects = []
  /\ resolutions effects = [] /\ console_errors effects = [].
Proof.
  induction 1 as [|e es He _ IH]; [auto 6|].
  destruct e; simpl in *; try contradiction; exact IH.
Qed.



(** The callback of a command, called: it resolves the promise of the
    command and complains on the console about an error that is reported. *)
Lemma call_command `{Externals} v g target agentDomain method promise error result t a
    replyArgs :
  World.globals v = g ->
  agent_of v target agentDomain = Some (t, a) ->
  AgentPrototype._replyArgs a !! method = Some replyArgs ->
  call (CommandCallback target agentDomain method promise) error result v
  = (emit (CallbackInvoked (CommandCallback target agentDomain method promise) error result
           :: map ConsoleError (failure_report g method error)
           ++ [PromiseResolved promise
                 (ResolvedValue (command_reply replyArgs error result))]) v,
     false).
Proof.
  intros <- Hagent Hreply. cbn [call]. unfold CommandCallback_body.
  change (agent_of (emit _ v) target agentDomain) with (agent_of v target agentDomain).
  rewrite Hagent. unfold command_reply, failure_report.
  change (World.globals (emit _ v)) with (World.globals v).
  destruct error as [e|].
  - rewrite emit_emit. destruct (_ && _); reflexivity.
  - destruct (truthy result).
    + rewrite Hreply. destruct replyArgs; rewrite emit_emit; reflexivity.
    + rewrite emit_emit. reflexivity.
Qed.



(** ** Disposal of a target *)


Lemma map_get_delete_eq {K V} `{EqDecision K} (k : K) (m : list (K * V)) :
  NoDup (map fst m) -> map_get k (map_delete k m) = None.
Proof.
  induction m as [|[k' v'] m IH]; simpl; [reflexivity|].
  intros Hnodup. apply NoDup_cons in Hnodup as [Hfresh Hnodup].
  destruct (decide (k' = k)) as [->|Hne].
  - clear IH. induction m as [|[k0 v0] m IH]; simpl; [reflexivity|].
    simpl in Hfresh. apply not_elem_of_cons in Hfresh as [Hne Hfresh].
    apply NoDup_cons in Hnodup as [_ Hnodup].
    destruct (decide (k0 = k)); [congruence|]. apply IH; assumption.
  - simpl. destruct (decide (k' = k)); [contradiction|]. apply IH, Hnodup.
Qed.

Lemma map_set_keys {K V} `{EqDecision K} (k : K) (v : V) m :
  map_get k m <> None -> map fst (map_set k v m) = map fst m.
Proof.
  induction m as [|[k' v'] m IH]; simpl; [congruence|].
  destruct (decide (k' = k)) as [->|Hne]; simpl; [reflexivity|].
  intros Hm. now rewrite IH.
Qed.




Lemma unregisterSession_targets r sessionId w :
  World.targets (World_unregisterSession r sessionId w) = World.targets w.
Proof.
  unfold World_unregisterSession. destruct (World.routers w !! r); [|reflexivity].
  now destruct (SessionRouter_unregisterSession _ _).
Qed.

(** X6. [dispose] is idempotent: a target that has been disposed has no
    router, and disposing it again changes nothing (no session is
    unregistered twice, no callback is failed twice). *)
Theorem dispose_idempotent `{Externals} (w : World.t) (target : nat) :
  step (step w (Dispose target)) (Dispose target) = step w (Dispose target)
  /\ match World.targets (step w (Dispose target)) !! target with
     | Some t => TargetBase._router t = None
     | None => World.targets w !! target = None
     end.
Proof.
  cbn [step]. unfold TargetBase_dispose at 2 3 4.
  destruct (World.targets w !! target) as [t|] eqn:Ht.
  - destruct (TargetBase._router t) as [r|] eqn:Hrouter.
    + assert (Hdisposed : World.targets
                            (put_target target (target_with_router None t)
                               (World_unregisterSession r (TargetBase._sessionId t) w))
                          !! target = Some (target_with_router None t)).
      { simpl. rewrite unregisterSession_targets. apply list_lookup_insert_eq.
        eapply lookup_lt_Some. exact Ht. }
      split; [|now rewrite Hdisposed].
      unfold TargetBase_dispose. now rewrite Hdisposed.
    + split; [|now rewrite Ht].
      unfold TargetBase_dispose. now rewrite Ht, Hrouter.
  - split; [|now rewrite Ht]. unfold TargetBase_dispose. now rewrite Ht.
Qed.

(** X7. A command on a disposed target. Nothing is sent and no router is
    touched: a timer is set, and when it has run the promise of the command
    is resolved with [null]; nothing is written to the console. *)
Theorem command_on_disposed_target `{Externals} (w : World.t) (target : nat)
    (agentDomain methodName : string) (args : list JsValue) (t : TargetBase.t)
    (a : AgentPrototype.t) (parameters : list CommandParameter.t) (params : option Obj)
    (replyArgs : list string) :
  let method := qualifyName (AgentPrototype._domain a) methodName in
  agent_of w target agentDomain = Some (t, a) ->
  TargetBase._router t = None ->
  AgentPrototype.commands a !! methodName = Some parameters ->
  AgentPrototype_prepareParameters method parameters args = (params, []) ->
  AgentPrototype._replyArgs a !! method = Some replyArgs ->
  World.timers w = [] ->
  let w1 := step w (Command target agentDomain methodName args) in
  let w2 := step w1 Timer in
  World.routers w2 = World.routers w
  /\ World.timers w2 = []
  /\ (exists effects,
        World.log w1 = World.log w ++ effects
        /\ sent_messages effects = [] /\ resolutions effects = [])
  /\ exists effects,
       World.log w2 = World.log w1 ++ effects
       /\ sent_messages effects = []
       /\ resolutions effects = [(World.promises w, ResolvedValue JsNull)]
       /\ console_errors effects = [].
Proof.
  intros method Hagent Hdisposed Hcommand Hprepare Hreply Htimers w1 w2.
  set (callback := CommandCallback target agentDomain method (World.promises w)).
  assert (H1 : w1 = promise_created (emit [dispatchConnectionError callback method] w)).
  { subst w1. cbn [step]. unfold AgentPrototype_command. rewrite Hagent, Hcommand.
    unfold AgentPrototype_sendMessageToBackendPromise. rewrite Hagent.
    fold method. rewrite Hprepare. cbn [map List.last truthy].
    now rewrite emit_nil, Hdisposed. }
  clearbody w1.
  set (error := {| MessageError.message :=
                     "Connection is closed, can't dispatch pending call to " +:+ method;
                   MessageError.code := ConnectionClosedErrorCode;
                   MessageError.data := NullData |}).
  assert (H2 : w2 = emit [CallbackInvoked callback (Some error) JsNull;
                          PromiseResolved (World.promises w) (ResolvedValue JsNull)]
                      (with_timers [] w1)).
  { subst w2. cbn [step]. unfold run_timer.
    replace (World.timers w1) with [CallLater callback error]
      by (rewrite H1; simpl; now rewrite Htimers).
    rewrite (call_command (with_timers [] w1) (World.globals w) target agentDomain method
               (World.promises w) (Some error) JsNull t a replyArgs);
      [|rewrite H1; reflexivity|rewrite H1; exact Hagent|exact Hreply].
    unfold failure_report. cbn [fst]. now rewrite andb_false_r. }
  clearbody w2.
  split; [rewrite H2, H1; reflexivity|]. split; [rewrite H2; reflexivity|]. split.
  - eexists. split; [rewrite H1; reflexivity|]. auto.
  - eexists. split; [rewrite H2; reflexivity|]. auto.
Qed.


(** [DOM.enable()] on the root target after it has been disposed. *)
Lemma command_on_disposed_target_witness :
  let w := @run plain_externals
             [RegisterCommand "DOM.enable" [] []; NewTarget false None "" None; Dispose 0]
             (initial_world plain_globals (Some 0%nat) ∅) in
  let w1 := @step plain_externals w (Command 0 "DOM" "enable" []) in
  let w2 := @step plain_externals w1 Timer in
  World.routers w2 = World.routers w
  /\ World.timers w2 = []
  /\ exists effects,
       World.log w2 = World.log w1 ++ effects
       /\ sent_messages effects = []
       /\ resolutions effects = [(0%nat, ResolvedValue JsNull)]
       /\ console_errors effects = [].
Proof.
  intros w w1 w2.
  edestruct (@command_on_disposed_target plain_externals w 0%nat "DOM" "enable" [])
    as (Hrouters & Htimers & _ & (effects & Hlog & Hsent & Hresolved & Hconsole)).
  - vm_compute. reflexivity.
  - reflexivity.
  - vm_compute. reflexivity.
  - vm_compute. reflexivity.
  - vm_compute. reflexivity.
  - vm_compute. reflexivity.
  - split; [exact Hrouters|]. split; [exact Htimers|].
    exists effects. split; [exact Hlog|]. split; [exact Hsent|]. split; [|exact Hconsole].
    rewrite Hresolved. vm_compute. reflexivity.
Defined.

(** ** Validation of arguments *)

Lemma prepare_from_errors `{Externals} method schema remaining args params hasParams :
  let result := prepare_from method schema remaining args params hasParams in
  (length (snd result) <= 1)%nat
  /\ (snd result <> [] -> fst result = None)
  /\ Forall (fun message => message <> "") (snd result).
Proof.
  revert args params hasParams.
  induction remaining as [|param rest IH]; intros args params hasParams; cbn [prepare_from].
  - destruct args; cbn [fst snd length].
    + split; [lia|]. split; [congruence|constructor].
    + split; [lia|]. split; [reflexivity|]. repeat constructor. discriminate.
  - destruct (Nat.eqb (length args) 0 && negb (CommandParameter.optional param)).
    { cbn [fst snd length]. split; [lia|]. split; [reflexivity|].
      repeat constructor. discriminate. }
    destruct (CommandParameter.optional param
              && String.eqb (typeof (List.hd JsUndefined args)) "undefined"); [apply IH|].
    destruct (negb (String.eqb (typeof (List.hd JsUndefined args))
                      (CommandParameter.type param))); [|apply IH].
    cbn [fst snd length]. split; [lia|]. split; [reflexivity|].
    repeat constructor. discriminate.
Qed.

Lemma map_ConsoleError_quiet errors :
  sent_messages (map ConsoleError errors) = []
  /\ resolutions (map ConsoleError errors) = []
  /\ console_errors (map ConsoleError errors) = errors
  /\ scheduled (map ConsoleError errors) = [].
Proof.
  induction errors as [|e errors (IH1 & IH2 & IH3 & IH4)]; simpl; [auto|].
  rewrite IH3. auto.
Qed.

(** X8. A command whose arguments fail the validation. [_prepareParameters]
    calls its error callback at most once and then returns [null]; the
    command writes that one message to the console, resolves its promise
    with [null] at once, and hands nothing to a router: no message is sent
    and no timer is set, whether the target has a router or not. *)
Theorem invalid_command_resolves_null `{Externals} (w : World.t) (target : nat)
    (agentDomain methodName : string) (args : list JsValue) (t : TargetBase.t)
    (a : AgentPrototype.t) (parameters : list CommandParameter.t) :
  let method := qualifyName (AgentPrototype._domain a) methodName in
  let validated := AgentPrototype_prepareParameters method parameters args in
  agent_of w target agentDomain = Some (t, a) ->
  AgentPrototype.commands a !! methodName = Some parameters ->
  snd validated <> [] ->
  let w' := step w (Command target agentDomain methodName args) in
  fst validated = None
  /\ (exists message, snd validated = [message])
  /\ World.routers w' = World.routers w
  /\ World.timers w' = World.timers w
  /\ World.promises w' = S (World.promises w)
  /\ exists effects,
       World.log w' = World.log w ++ effects
       /\ sent_messages effects = []
       /\ console_errors effects = snd validated
       /\ resolutions effects = [(World.promises w, ResolvedValue JsNull)].
Proof.
  intros method validated Hagent Hcommand Herrors w'.
  destruct (prepare_from_errors method parameters parameters args [] false)
    as (Hone & Hnull & Hsaid).
  fold (AgentPrototype_prepareParameters method parameters args) in Hone, Hnull, Hsaid.
  fold validated in Hone, Hnull, Hsaid.
  assert (Hmessage : exists message, snd validated = [message]).
  { destruct (snd validated) as [|message [|]]; [congruence|eauto|simpl in Hone; lia]. }
  split; [exact (Hnull Herrors)|]. split; [exact Hmessage|].
  destruct Hmessage as [message Hmessage].
  assert (H1 : w' = promise_created
                      (emit [PromiseResolved (World.promises w) (ResolvedValue JsNull)]
                         (emit (map ConsoleError (snd validated)) w))).
  { subst w'. cbn [step]. unfold AgentPrototype_command. rewrite Hagent, Hcommand.
    unfold AgentPrototype_sendMessageToBackendPromise. rewrite Hagent. fold method.
    fold validated. destruct validated as [params errors]. cbn [snd] in *. subst errors.
    cbn [map List.last truthy]. apply Forall_cons in Hsaid as [Hsaid _].
    destruct (String.eqb_spec message ""); [contradiction|reflexivity]. }
  clearbody w'.
  destruct (map_ConsoleError_quiet (snd validated)) as (Hq1 & Hq2 & Hq3 & Hq4).
  split; [rewrite H1; reflexivity|]. split; [|split; [rewrite H1; reflexivity|]].
  - rewrite H1. simpl. now rewrite Hq4, !app_nil_r.
  - exists (map ConsoleError (snd validated)
            ++ [PromiseResolved (World.promises w) (ResolvedValue JsNull)]).
    split; [rewrite H1; simpl; now rewrite <- app_assoc|].
    rewrite sent_messages_app, console_errors_app, resolutions_app, Hq1, Hq2, Hq3.
    simpl. now rewrite app_nil_r.
Qed.

Lemma obj_set_fresh (o : Obj) key value :
  key ∉ map fst o -> obj_set o key value = o ++ [(key, value)].
Proof.
  induction o as [|[k v] o IH]; simpl; [reflexivity|].
  intros Hfresh. apply not_elem_of_cons in Hfresh as [Hne Hfresh].
  destruct (String.eqb_spec k key); [congruence|]. now rewrite IH.
Qed.

(** Optional parameters for which no argument is left are skipped. *)
Lemma prepare_from_omitted `{Externals} method schema omitted params hasParams :
  Forall (fun p => CommandParameter.optional p = true) omitted ->
  prepare_from method schema omitted [] params hasParams
  = (if hasParams then Some params else None, []).
Proof.
  induction 1 as [|p omitted Hp _ IH]; [reflexivity|].
  cbn [prepare_from]. rewrite Hp. cbn. exact IH.
Qed.

Lemma prepare_from_given `{Externals} method schema given omitted args params hasParams :
  Forall2 (fun p v => typeof v = CommandParameter.type p /\ typeof v <> "undefined")
    given args ->
  Forall (fun p => CommandParameter.optional p = true) omitted ->
  NoDup (map fst params ++ map CommandParameter.name given) ->
  prepare_from method schema (given ++ omitted) args params hasParams
  = (if hasParams || negb (Nat.eqb (length given) 0)
     then Some (params ++ zip (map CommandParameter.name given) args) else None, []).
Proof.
  intros Hgiven Homitted. revert params hasParams.
  induction Hgiven as [|p v given args [Htype Hdefined] _ IH]; intros params hasParams Hnodup.
  - cbn [app length Nat.eqb negb map zip zip_with]. rewrite orb_false_r, app_nil_r.
    apply prepare_from_omitted, Homitted.
  - cbn [app prepare_from length Nat.eqb andb List.hd List.tl].
    destruct (String.eqb_spec (typeof v) "undefined"); [contradiction|].
    rewrite andb_false_r, Htype, String.eqb_refl. cbn [negb].
    assert (Hfresh : CommandParameter.name p ∉ map fst params).
    { cbn [map] in Hnodup. apply NoDup_app in Hnodup as (_ & Hdisjoint & _).
      intros Hin. apply (Hdisjoint _ Hin). now left. }
    rewrite obj_set_fresh by exact Hfresh.
    rewrite IH.
    + cbn [map zip zip_with]. rewrite orb_true_r, <- app_assoc. reflexivity.
    + rewrite map_app. cbn [map fst app]. rewrite <- app_assoc. exact Hnodup.
Qed.

(** X9. Arguments that fit. When every argument is defined and has the
    type of its parameter, the names of the parameters are distinct, and the parameters
    for which no argument is given are optional, [_prepareParameters]
    reports no error and returns the object that has each argument under the
    name of its parameter, in the order of the parameters; with no argument
    at all it returns [null]. *)
Theorem prepareParameters_accepts `{Externals} (method : string)
    (given omitted : list CommandParameter.t) (args : list JsValue) :
  Forall2 (fun p v => typeof v = CommandParameter.type p /\ typeof v <> "undefined")
    given args ->
  Forall (fun p => CommandParameter.optional p = true) omitted ->
  NoDup (map CommandParameter.name given) ->
  AgentPrototype_prepareParameters method (given ++ omitted) args
  = (match given with
     | [] => None
     | _ :: _ => Some (zip (map CommandParameter.name given) args)
     end, []).
Proof.
  intros Hgiven Homitted Hnodup. unfold AgentPrototype_prepareParameters.
  rewrite (prepare_from_given method (given ++ omitted) given omitted args [] false
             Hgiven Homitted Hnodup).
  destruct given; reflexivity.
Qed.

(** [querySelector(nodeId, selector)] with its two arguments, and a third,
    optional parameter that is left out. *)
Lemma prepareParameters_accepts_witness :
  let nodeId := {| CommandParameter.name := "nodeId"; CommandParameter.type := "number";
                   CommandParameter.optional := false |} in
  let selector := {| CommandParameter.name := "selector"; CommandParameter.type := "string";
                     CommandParameter.optional := false |} in
  let pierce := {| CommandParameter.name := "pierce"; CommandParameter.type := "boolean";
                   CommandParameter.optional := true |} in
  @AgentPrototype_prepareParameters plain_externals "DOM.querySelector"
    ([nodeId; selector] ++ [pierce]) [JsNumber 1; JsString "div"]
  = (Some [("nodeId", JsNumber 1); ("selector", JsString "div")], []).
Proof.
  intros nodeId selector pierce.
  apply (@prepareParameters_accepts plain_externals "DOM.querySelector" [nodeId; selector]
           [pierce] [JsNumber 1; JsString "div"]).
  - repeat constructor; discriminate.
  - repeat constructor.
  - vm_compute. repeat constructor; set_solver.
Defined.

(** [querySelector] called with a number where the selector is expected. *)
Lemma invalid_command_resolves_null_witness :
  let querySelector :=
    [{| CommandParameter.name := "nodeId"; CommandParameter.type := "number";
        CommandParameter.optional := false |};
     {| CommandParameter.name := "selector"; CommandParameter.type := "string";
        CommandParameter.optional := false |}] in
  let w := @run plain_externals
             [RegisterCommand "DOM.querySelector" querySelector ["nodeId"];
              NewTarget false None "" None]
             (initial_world plain_globals (Some 0%nat) ∅) in
  let w' := @step plain_externals w
              (Command 0 "DOM" "querySelector" [JsNumber 1; JsNumber 2]) in
  World.routers w' = World.routers w
  /\ exists effects,
       World.log w' = World.log w ++ effects
       /\ sent_messages effects = []
       /\ console_errors effects
          = ["Protocol Error: Invalid type of argument 'selector' for method 'DOM.querySelector' call. It must be 'string' but it is 'number'."]
       /\ resolutions effects = [(0%nat, ResolvedValue JsNull)].
Proof.
  intros querySelector w w'.
  edestruct (@invalid_command_resolves_null plain_externals w 0%nat "DOM" "querySelector"
               [JsNumber 1; JsNumber 2])
    as (_ & _ & Hrouters & _ & _ & (effects & Hlog & Hsent & Hconsole & Hresolved)).
  - vm_compute. reflexivity.
  - vm_compute. reflexivity.
  - vm_compute. discriminate.
  - split; [exact Hrouters|].
    exists effects. split; [exact Hlog|]. split; [exact Hsent|]. split.
    + rewrite Hconsole. vm_compute. reflexivity.
    + rewrite Hresolved. vm_compute. reflexivity.
Defined.

(** ** Registration of dispatchers *)

Lemma remove_first_handler_absent object l :
  object ∉ map Handler.object l -> remove_first_handler object l = l.
Proof.
  induction l as [|h l IH]; simpl; [reflexivity|].
  intros Habsent. apply not_elem_of_cons in Habsent as [Hne Habsent].
  destruct (Nat.eqb_spec (Handler.object h) object); [congruence|]. now rewrite IH.
Qed.

Lemma remove_first_handler_first object before h after :
  Handler.object h = object ->
  object ∉ map Handler.object before ->
  remove_first_handler object (before ++ h :: after) = before ++ after.
Proof.
  intros Hh. induction before as [|h' before IH]; simpl.
  - intros _. destruct (Nat.eqb_spec (Handler.object h) object); [reflexivity|contradiction].
  - intros Habsent. apply not_elem_of_cons in Habsent as [Hne Habsent].
    destruct (Nat.eqb_spec (Handler.object h') object); [congruence|]. now rewrite IH.
Qed.

Lemma target_with_dispatchers_same t :
  target_with_dispatchers (TargetBase.dispatchers t) t = t.
Proof. now destruct t. Qed.

(** X10. Registering a dispatcher and unregistering it again. For a domain
    the target has a manager for, [unregisterDispatcher] takes out the first
    entry that is the given object and leaves the others in their order; an
    object that is not registered changes nothing. So a dispatcher that was
    not registered before is gone after [registerDispatcher] and
    [unregisterDispatcher], and the target is as it was. *)
Theorem unregisterDispatcher_removes_first (t : TargetBase.t) (domain : string)
    (manager : DispatcherManager.t) (dispatcher : Handler.t) :
  TargetBase.dispatchers t !! domain = Some manager ->
  let registered_after t' :=
    DispatcherManager.dispatchers <$> TargetBase.dispatchers t' !! domain in
  (forall before h after,
      DispatcherManager.dispatchers manager = before ++ h :: after ->
      Handler.object h = Handler.object dispatcher ->
      Handler.object dispatcher ∉ map Handler.object before ->
      registered_after (TargetBase_unregisterDispatcher t domain dispatcher)
      = Some (before ++ after))
  /\ (Handler.object dispatcher ∉ map Handler.object (DispatcherManager.dispatchers manager) ->
      TargetBase_unregisterDispatcher t domain dispatcher = t
      /\ TargetBase_unregisterDispatcher (TargetBase_registerDispatcher t domain dispatcher)
           domain dispatcher = t).
Proof.
  intros Hmanager registered_after. split.
  - intros before h after Hlist Hh Hbefore. subst registered_after. cbv beta.
    unfold TargetBase_unregisterDispatcher. rewrite Hmanager. simpl.
    rewrite lookup_insert_eq. simpl. rewrite Hlist.
    now rewrite (remove_first_handler_first _ before h after Hh Hbefore).
  - intros Habsent.
    assert (Hsame : {| DispatcherManager.eventArgs := DispatcherManager.eventArgs manager;
                       DispatcherManager.dispatchers := DispatcherManager.dispatchers manager |}
                    = manager) by now destruct manager.
    split.
    + unfold TargetBase_unregisterDispatcher. rewrite Hmanager.
      unfold DispatcherManager_removeDomainDispatcher.
      rewrite (remove_first_handler_absent _ _ Habsent), Hsame.
      rewrite insert_id by exact Hmanager. apply target_with_dispatchers_same.
    + unfold TargetBase_registerDispatcher. rewrite Hmanager.
      unfold TargetBase_unregisterDispatcher. simpl. rewrite lookup_insert_eq.
      unfold DispatcherManager_removeDomainDispatcher, DispatcherManager_addDomainDispatcher.
      simpl.
      rewrite (remove_first_handler_first _ _ dispatcher [] eq_refl Habsent), app_nil_r, Hsame.
      rewrite insert_insert_eq, insert_id by exact Hmanager. now destruct t.
Qed.

(** A target with one dispatcher for [DOM], and a second one registered and
    unregistered. *)
Lemma unregisterDispatcher_removes_first_witness :
  let manager :=
    {| DispatcherManager.eventArgs := ∅;
       DispatcherManager.dispatchers :=
         [{| Handler.object := 1; Handler.properties := ["documentUpdated"] |}] |} in
  let t :=
    {| TargetBase._needsNodeJSPatching := false;
       TargetBase._sessionId := "";
       TargetBase._router := None;
       TargetBase.agents := ∅;
       TargetBase.dispatchers := {["DOM" := manager]} |} in
  let dispatcher := {| Handler.object := 2; Handler.properties := ["documentUpdated"] |} in
  TargetBase_unregisterDispatcher (TargetBase_registerDispatcher t "DOM" dispatcher)
    "DOM" dispatcher = t.
Proof.
  intros manager t dispatcher.
  destruct (unregisterDispatcher_removes_first t "DOM" manager dispatcher) as [_ Habsent].
  - reflexivity.
  - apply Habsent. simpl. intros Hin. apply list_elem_of_singleton in Hin. discriminate.
Defined.

(** ** The router of a new target *)

(** X11. A child target with a session id. When the parent still has its
    router the child uses that router: no router is constructed, the hooks
    of [test] stay bound as they were, and the router gets a fresh session
    under the id of the child, with no callbacks and no proxy connection (an
    entry that was there under that id is replaced). The child has an agent
    for every domain a command is registered for. When the parent has been
    disposed the child does not fail: it gets a router of its own, on a
    connection from the connection factory. *)
Theorem child_target_router (w : World.t) (needsNodeJSPatching : bool) (parent : nat)
    (p : TargetBase.t) (sessionId : string) :
  World.targets w !! parent = Some p ->
  sessionId <> "" ->
  let child := length (World.targets w) in
  let fresh := {| Session.target := child; Session.callbacks := [];
                  Session.proxyConnection := None |} in
  let created router :=
    {| TargetBase._needsNodeJSPatching := needsNodeJSPatching;
       TargetBase._sessionId := sessionId;
       TargetBase._router := Some router;
       TargetBase.agents := dom (World._agentPrototypes w);
       TargetBase.dispatchers :=
         DispatcherManager_new <$> World.eventParameterNamesForDomain w |} in
  (forall r router,
      TargetBase._router p = Some r ->
      World.routers w !! r = Some router ->
      exists w',
        TargetBase_new needsNodeJSPatching (Some parent) sessionId None w = inr w'
        /\ World.targets w' = World.targets w ++ [created r]
        /\ World.routers w'
           = <[r := router_with_sessions
                      (map_set sessionId fresh (SessionRouter._sessions router)) router]>
               (World.routers w)
        /\ World.globals w' = World.globals w
        /\ World.log w' = World.log w
        /\ World.timers w' = World.timers w)
  /\ (TargetBase._router p = None ->
      forall connection,
        World.connectionFactory w = Some connection ->
        exists w',
          TargetBase_new needsNodeJSPatching (Some parent) sessionId None w = inr w'
          /\ World.targets w' = World.targets w ++ [created (length (World.routers w))]
          /\ World.routers w'
             = World.routers w
               ++ [router_with_sessions [(sessionId, fresh)] (SessionRouter_new connection)]
          /\ Globals.sendRawMessage (World.globals w') = Some (length (World.routers w))
          /\ Globals.deprecatedRunAfterPendingDispatches (World.globals w')
             = Some (length (World.routers w))).
Proof.
  intros Hparent Hid child fresh created.
  assert (Htruthy : truthy (JsString sessionId) = true).
  { simpl. destruct (String.eqb_spec sessionId ""); [contradiction|reflexivity]. }
  assert (Haccepted : constructor_rejects (Some parent) sessionId None = false).
  { unfold constructor_rejects. rewrite Htruthy.
    rewrite (bool_decide_eq_true_2 (is_Some (Some parent))) by eauto.
    rewrite (bool_decide_eq_false_2 (is_Some (@None nat))) by (intros [? ?]; discriminate).
    reflexivity. }
  split.
  - intros r router Hrouter Hr. eexists. split.
    + unfold TargetBase_new. rewrite Haccepted, Hparent, Hrouter, Htruthy.
      cbn [World.routers with_targets]. rewrite Hr.
      unfold SessionRouter_registerSession. reflexivity.
    + simpl. rewrite !app_nil_r. repeat split; reflexivity.
  - intros Hdisposed connection Hfactory. eexists. split.
    + unfold TargetBase_new. rewrite Haccepted, Hparent, Hdisposed, Htruthy, Hfactory.
      unfold World_newRouter. cbn [World.routers with_targets with_globals with_routers].
      rewrite lookup_app_r by lia. rewrite Nat.sub_diag. cbn [lookup list_lookup].
      unfold SessionRouter_registerSession. reflexivity.
    + simpl. repeat split; try reflexivity.
      first [rewrite insert_app_r_alt by lia|rewrite list_insert_app_r_alt by lia].
      now rewrite Nat.sub_diag.
Qed.

(** The root target and a child with the session ["s1"]. *)
Lemma child_target_router_witness :
  let w := @run plain_externals [NewTarget false None "" None]
             (initial_world plain_globals (Some 0%nat) ∅) in
  exists w',
    TargetBase_new false (Some 0%nat) "s1" None w = inr w'
    /\ (TargetBase._router <$> World.targets w' !! 1%nat) = Some (Some 0%nat)
    /\ length (World.routers w') = 1%nat.
Proof.
  intros w.
  edestruct (child_target_router w false 0%nat) with (sessionId := "s1")
    as [Hshared _].
  - vm_compute. reflexivity.
  - discriminate.
  - edestruct (Hshared 0%nat) as (w' & Hnew & Htargets & Hrouters & _).
    + reflexivity.
    + vm_compute. reflexivity.
    + exists w'. split; [exact Hnew|]. split.
      * rewrite Htargets. reflexivity.
      * rewrite Hrouters. reflexivity.
Defined.

(** ** Scripts that wait for pending dispatches *)

Lemma scripts_run_app l1 l2 : scripts_run (l1 ++ l2) = scripts_run l1 ++ scripts_run l2.
Proof.
  induction l1 as [|e l1 IH]; simpl; [reflexivity|].
  destruct e; simpl; try exact IH. now rewrite IH.
Qed.

Lemma scripts_run_ScriptRun scripts :
  scripts_run (map ScriptRun scripts) = scripts /\ scheduled (map ScriptRun scripts) = [].
Proof. induction scripts as [|s scripts [IH1 IH2]]; simpl; [auto|]. now rewrite IH1. Qed.

(** The timer of [_deprecatedRunAfterPendingDispatches] when no request
    other than long-polling ones is outstanding: the scripts run. *)
Lemma check_idle `{Externals} r router rest w :
  World.routers w !! r = Some router ->
  SessionRouter_hasOutstandingNonLongPollingRequests router = false ->
  World.timers w = CheckPendingDispatches r :: rest ->
  step w Timer
  = with_log (World.log w ++ map ScriptRun (SessionRouter._pendingScripts router))
      (put_router r (router_with_scripts [] router) (with_timers rest w)).
Proof.
  intros Hr Hidle Htimers. cbn [step]. unfold run_timer. rewrite Htimers.
  change (World.routers (with_timers rest w) !! r) with (World.routers w !! r). rewrite Hr.
  unfold SessionRouter_executeAfterPendingDispatches. rewrite Hidle. cbn [negb].
  unfold emit. destruct (scripts_run_ScriptRun (SessionRouter._pendingScripts router))
    as [_ ->].
  destruct w. simpl. now rewrite app_nil_r.
Qed.

(** The same timer while such a request is outstanding: it sets itself
    again. *)
Lemma check_busy `{Externals} r router rest w :
  World.routers w !! r = Some router ->
  SessionRouter_hasOutstandingNonLongPollingRequests router = true ->
  World.timers w = CheckPendingDispatches r :: rest ->
  step w Timer
  = with_log (World.log w ++ [SetTimeout (CheckPendingDispatches r)])
      (with_timers (rest ++ [CheckPendingDispatches r]) w).
Proof.
  intros Hr Hbusy Htimers. cbn [step]. unfold run_timer. rewrite Htimers.
  change (World.routers (with_timers rest w) !! r) with (World.routers w !! r). rewrite Hr.
  rewrite Hbusy. cbn [negb SessionRouter_deprecatedRunAfterPendingDispatches].
  rewrite put_router_same by exact Hr. reflexivity.
Qed.

(** Queueing scripts one after the other. *)
Lemma queue_scripts `{Externals} r router scripts w :
  Globals.deprecatedRunAfterPendingDispatches (World.globals w) = Some r ->
  World.routers w !! r = Some router ->
  run (map RunAfterPendingDispatches scripts) w
  = with_log (World.log w ++ repeat (SetTimeout (CheckPendingDispatches r)) (length scripts))
      (with_timers (World.timers w ++ repeat (CheckPendingDispatches r) (length scripts))
         (put_router r
            (router_with_scripts (SessionRouter._pendingScripts router ++ scripts) router) w)).
Proof.
  revert router w. induction scripts as [|s scripts IH]; intros router w Hhook Hr.
  - simpl. rewrite !app_nil_r.
    replace (router_with_scripts (SessionRouter._pendingScripts router) router) with router
      by now destruct router.
    rewrite put_router_same by exact Hr. now destruct w.
  - cbn [map]. rewrite run_cons. cbn [step]. rewrite Hhook. unfold on_router. rewrite Hr.
    cbn [SessionRouter_deprecatedRunAfterPendingDispatches].
    rewrite (IH (router_with_scripts (SessionRouter._pendingScripts router ++ [s]) router)).
    + cbn [length repeat]. unfold emit, put_router. destruct w. simpl.
      rewrite list_insert_insert_eq, <- !app_assoc. reflexivity.
    + exact Hhook.
    + apply (put_router_lookup r router _ w Hr).
Qed.

(** Timers that find nothing to do. *)
Lemma idle_checks `{Externals} r router n w :
  World.routers w !! r = Some router ->
  SessionRouter_hasOutstandingNonLongPollingRequests router = false ->
  SessionRouter._pendingScripts router = [] ->
  World.timers w = repeat (CheckPendingDispatches r) n ->
  run (repeat Timer n) w = with_timers [] w.
Proof.
  intros Hr Hidle Hscripts. revert w Hr.
  induction n as [|n IH]; intros w Hr Htimers.
  - simpl in *. rewrite <- Htimers. now destruct w.
  - cbn [repeat]. rewrite run_cons.
    rewrite (check_idle r router (repeat (CheckPendingDispatches r) n) w Hr Hidle Htimers).
    rewrite Hscripts. cbn [map]. rewrite app_nil_r.
    replace (router_with_scripts [] router) with router
      by (destruct router; simpl in *; now subst).
    rewrite IH.
    + rewrite put_router_same by exact Hr. now destruct w.
    + simpl. rewrite list_insert_id by exact Hr. exact Hr.
    + reflexivity.
Qed.

(** X12. Scripts handed to [deprecatedRunAfterPendingDispatches] while no
    request other than long-polling ones is outstanding. Each call queues
    its script and sets a timer. The first timer runs all the scripts, in
    the order in which they were handed in, and empties the queue; the other
    timers find nothing to do. So every script runs exactly once. *)
Theorem pending_scripts_run_in_order `{Externals} (w : World.t) (r : nat)
    (router : SessionRouter.t) (scripts : list nat) :
  Globals.deprecatedRunAfterPendingDispatches (World.globals w) = Some r ->
  World.routers w !! r = Some router ->
  SessionRouter_hasOutstandingNonLongPollingRequests router = false ->
  SessionRouter._pendingScripts router = [] ->
  World.timers w = [] ->
  let w1 := run (map RunAfterPendingDispatches scripts) w in
  let w2 := run (repeat Timer (length scripts)) w1 in
  (exists effects, World.log w1 = World.log w ++ effects /\ scripts_run effects = [])
  /\ (exists effects, World.log w2 = World.log w1 ++ effects /\ scripts_run effects = scripts)
  /\ World.routers w2 = World.routers w
  /\ World.timers w2 = [].
Proof.
  intros Hhook Hr Hidle Hnone Htimers w1 w2.
  assert (H1 : w1 = with_log (World.log w
                              ++ repeat (SetTimeout (CheckPendingDispatches r)) (length scripts))
                      (with_timers (repeat (CheckPendingDispatches r) (length scripts))
                         (put_router r (router_with_scripts scripts router) w))).
  { subst w1. rewrite (queue_scripts r router scripts w Hhook Hr), Hnone, Htimers.
    reflexivity. }
  clearbody w1.
  assert (Hquiet : scripts_run (repeat (SetTimeout (CheckPendingDispatches r))
                                  (length scripts)) = []).
  { generalize (length scripts). intros n. induction n as [|n IH]; [reflexivity|exact IH]. }
  split; [eexists; split; [rewrite H1; reflexivity|exact Hquiet]|].
  destruct scripts as [|s scripts].
  - subst w2. simpl. rewrite H1. simpl.
    replace (router_with_scripts [] router) with router
      by (destruct router; simpl in *; now subst).
    rewrite list_insert_id by exact Hr.
    split; [exists []; split; [now rewrite !app_nil_r|reflexivity]|]. auto.
  - set (queued := router_with_scripts (s :: scripts) router) in *.
    assert (Hr1 : World.routers w1 !! r = Some queued).
    { rewrite H1. apply (put_router_lookup r router queued w Hr). }
    assert (Hstep : step w1 Timer
                    = with_log (World.log w1 ++ map ScriptRun (s :: scripts))
                        (put_router r (router_with_scripts [] queued)
                           (with_timers (repeat (CheckPendingDispatches r) (length scripts))
                              w1))).
    { apply (check_idle r queued); [exact Hr1|exact Hidle|rewrite H1; reflexivity]. }
    assert (H2 : w2 = with_timers []
                        (with_log (World.log w1 ++ map ScriptRun (s :: scripts))
                           (put_router r (router_with_scripts [] queued)
                              (with_timers (repeat (CheckPendingDispatches r)
                                              (length scripts)) w1)))).
    { subst w2. cbn [length repeat]. rewrite run_cons, Hstep.
      apply (idle_checks r (router_with_scripts [] queued)).
      - apply (put_router_lookup r queued _ _ Hr1).
      - exact Hidle.
      - reflexivity.
      - reflexivity. }
    clearbody w2.
    split; [|split].
    + eexists. split; [rewrite H2; reflexivity|].
      apply (scripts_run_ScriptRun (s :: scripts)).
    + rewrite H2, H1. simpl. rewrite list_insert_insert_eq.
      replace (router_with_scripts [] queued) with router
        by (destruct router; simpl in *; now subst).
      apply list_insert_id, Hr.
    + rewrite H2. reflexivity.
Qed.

(** Timers that find a request outstanding. *)
Lemma busy_checks `{Externals} r router n w :
  World.routers w !! r = Some router ->
  SessionRouter_hasOutstandingNonLongPollingRequests router = true ->
  World.timers w = [CheckPendingDispatches r] ->
  run (repeat Timer n) w
  = with_log (World.log w ++ repeat (SetTimeout (CheckPendingDispatches r)) n) w.
Proof.
  intros Hr Hbusy. revert w Hr. induction n as [|n IH]; intros w Hr Htimers.
  - simpl. rewrite app_nil_r. now destruct w.
  - cbn [repeat]. rewrite run_cons, (check_busy r router [] w Hr Hbusy Htimers).
    rewrite IH; [|exact Hr|reflexivity].
    cbn [app World.log with_log with_timers]. rewrite <- app_assoc. cbn [app].
    destruct w; simpl in *. now subst.
Qed.

Lemma repeat_SetTimeout_quiet task n :
  scripts_run (repeat (SetTimeout task) n) = []
  /\ callback_calls (repeat (SetTimeout task) n) = []
  /\ sent_messages (repeat (SetTimeout task) n) = [].
Proof. induction n as [|n IH]; [auto|exact IH]. Qed.

Lemma hooks_no_scripts effects : Forall is_hook effects -> scripts_run effects = [].
Proof.
  induction 1 as [|e es He _ IH]; [reflexivity|].
  destruct e; simpl in *; try contradiction; exact IH.
Qed.

(** X13. A script handed to [deprecatedRunAfterPendingDispatches] while a
    request waits for its response. As long as the response is outstanding
    the timer of the script only sets itself again, however often it runs.
    The response calls the callback of the request and sets one more timer;
    of the two timers the first runs the script and the second finds the
    queue empty: the script runs once, after the response. *)
Theorem pending_script_waits_for_response `{Externals} (w : World.t) (r : nat)
    (router : SessionRouter.t) (sessionId domain method : string) (session : Session.t)
    (params : JsValue) (f script checks : nat) (response : Message.t) :
  Globals.deprecatedRunAfterPendingDispatches (World.globals w) = Some r ->
  World.routers w !! r = Some router ->
  SessionRouter._pendingResponsesCount router
  = Z.of_nat (size (SessionRouter._pendingLongPollingMessageIds router)) ->
  SessionRouter._pendingScripts router = [] ->
  World.timers w = [] ->
  map_get sessionId (SessionRouter._sessions router) = Some session ->
  Session.proxyConnection session = None ->
  map_get (SessionRouter._lastMessageId router) (Session.callbacks session) = None ->
  SessionRouter._lastMessageId router ∉ SessionRouter._pendingLongPollingMessageIds router ->
  method ∉ LongPollingMethods ->
  Message.id response = Some (SessionRouter._lastMessageId router) ->
  default "" (Message.sessionId response) = sessionId ->
  let w2 := run [SendMessage r sessionId domain method params f;
                 RunAfterPendingDispatches script] w in
  let w3 := run (repeat Timer checks) w2 in
  let w4 := step w3 (Receive r (Some response)) in
  let w5 := run [Timer; Timer] w4 in
  (exists effects,
     World.log w4 = World.log w ++ effects
     /\ scripts_run effects = []
     /\ map (fun call => fst (fst call)) (callback_calls effects) = [ExternalCallback f])
  /\ World.timers w3 = [CheckPendingDispatches r]
  /\ (exists effects,
        World.log w5 = World.log w4 ++ effects
        /\ scripts_run effects = [script] /\ callback_calls effects = [])
  /\ World.timers w5 = []
  /\ World.routers w5 = <[r := snd (SessionRouter_nextMessageId router)]> (World.routers w).
Proof.
  intros Hhook Hr Hidle Hnone Htimers Hs Hdirect Hfresh Hpolling Hmethod Hid Hto w2 w3 w4 w5.
  destruct session as [target callbacks proxy]. cbn in Hdirect. subst proxy.
  set (session := {| Session.target := target; Session.callbacks := callbacks;
                     Session.proxyConnection := None |}) in *.
  destruct (World_sendMessage_hooks r router sessionId session domain method params
              (ExternalCallback f) w Hr Hs) as (before & after & Hb & Ha & H1).
  set (request := SendRawMessage r (SessionRouter._connection router) _) in H1.
  set (sent := router_after_send router sessionId session method (ExternalCallback f)) in *.
  set (queued := router_with_scripts [script] sent).
  destruct (hooks_quiet _ Hb) as (Hb1 & Hb2 & Hb3 & _).
  destruct (hooks_quiet _ Ha) as (Ha1 & Ha2 & Ha3 & _).
  assert (H2 : w2 = emit [SetTimeout (CheckPendingDispatches r)]
                      (put_router r queued (emit (before ++ [request] ++ after) w))).
  { subst w2. rewrite run_cons. cbn [step]. rewrite H1. rewrite run_cons. cbn [run fold_left step].
    change (World.globals (emit _ (put_router r sent w))) with (World.globals w).
    rewrite Hhook. unfold on_router.
    change (World.routers (emit (before ++ [request] ++ after) (put_router r sent w)) !! r)
      with (World.routers (put_router r sent w) !! r).
    rewrite (put_router_lookup r router sent w Hr).
    cbn [SessionRouter_deprecatedRunAfterPendingDispatches].
    replace (SessionRouter._pendingScripts sent) with (@nil nat) by (symmetry; exact Hnone).
    rewrite put_router_emit, put_router_put_router. reflexivity. }
  clearbody w2.
  assert (Hbusy : SessionRouter_hasOutstandingNonLongPollingRequests queued = true).
  { unfold SessionRouter_hasOutstandingNonLongPollingRequests. subst queued sent.
    unfold router_after_send. simpl.
    rewrite (bool_decide_eq_false_2 _ Hmethod). rewrite Hidle. apply Z.ltb_lt. lia. }
  assert (Hr2 : World.routers w2 !! r = Some queued).
  { rewrite H2. apply (put_router_lookup r router queued _ Hr). }
  assert (Ht2 : World.timers w2 = [CheckPendingDispatches r]).
  { rewrite H2. simpl. rewrite Htimers, !scheduled_app, Hb1. simpl. now rewrite Ha1. }
  assert (H3 : w3 = with_log (World.log w2
                              ++ repeat (SetTimeout (CheckPendingDispatches r)) checks) w2).
  { subst w3. apply (busy_checks r queued); assumption. }
  clearbody w3.
  destruct (repeat_SetTimeout_quiet (CheckPendingDispatches r) checks) as (Hq1 & Hq2 & Hq3).
  assert (Hr3 : World.routers w3 !! r = Some queued) by (rewrite H3; exact Hr2).
  destruct (onMessage_prelude r queued response w3 Hr3)
    as (reports & suppress & Hhooks & H4).
  destruct (hooks_quiet _ Hhooks) as (Hh1 & Hh2 & Hh3 & _).
  cbv zeta in H4. rewrite Hto in H4.
  replace (map_get sessionId (SessionRouter._sessions queued))
    with (Some {| Session.target := Session.target session;
                  Session.callbacks :=
                    map_set (SessionRouter._lastMessageId router)
                      {| CallbackWithDebugInfo.callback := ExternalCallback f;
                         CallbackWithDebugInfo.method := method |}
                      (Session.callbacks session);
                  Session.proxyConnection := Session.proxyConnection session |}) in H4
    by (symmetry; apply router_after_send_session).
  replace (has_proxyConnection _) with false in H4 by reflexivity.
  erewrite handle_message_external in H4; [|exact Hr3|exact Hid|apply map_get_set_eq].
  cbv zeta in H4.
  set (back := router_with_scripts [script] (snd (SessionRouter_nextMessageId router))).
  assert (Hback : SessionRouter_hasOutstandingNonLongPollingRequests back = false).
  { unfold SessionRouter_hasOutstandingNonLongPollingRequests. simpl. rewrite Hidle.
    apply Z.ltb_ge. lia. }
  match type of H4 with context [put_router r ?R _] =>
    replace R with back in H4
  end.
  2:{ pose proof (router_after_round_trip router sessionId session method (ExternalCallback f)
                    Hs Hfresh Hpolling) as Hround.
      cbv zeta in Hround. subst back. rewrite <- Hround. reflexivity. }
  replace (polls r back) with [CheckPendingDispatches r] in H4
    by (unfold polls; now rewrite Hback).
  change (step w3 (Receive r (Some response)))
    with (SessionRouter_onMessage r (Some response) w3) in w4.
  set (called := CallbackInvoked _ _ _) in H4.
  assert (Hw4 : w4 = emit [called; SetTimeout (CheckPendingDispatches r)]
                       (put_router r back (with_log (World.log w3 ++ reports) w3))).
  { subst w4. rewrite H4. reflexivity. }
  clearbody w4. clear H4.
  assert (Hr4 : World.routers w4 !! r = Some back).
  { rewrite Hw4. apply (put_router_lookup r queued back _ Hr3). }
  assert (Ht4 : World.timers w4 = [CheckPendingDispatches r; CheckPendingDispatches r]).
  { rewrite Hw4, H3. simpl. now rewrite Ht2. }
  assert (Hstep : step w4 Timer
                  = with_log (World.log w4 ++ [ScriptRun script])
                      (put_router r (router_with_scripts [] back)
                         (with_timers [CheckPendingDispatches r] w4))).
  { apply (check_idle r back); assumption. }
  assert (H5 : w5 = with_timers []
                      (with_log (World.log w4 ++ [ScriptRun script])
                         (put_router r (router_with_scripts [] back)
                            (with_timers [CheckPendingDispatches r] w4)))).
  { subst w5. rewrite run_cons, Hstep.
    apply (idle_checks r (router_with_scripts [] back) 1).
    - apply (put_router_lookup r back _ _ Hr4).
    - exact Hback.
    - reflexivity.
    - reflexivity. }
  clearbody w5.
  split; [|split; [rewrite H3; exact Ht2|split; [|split]]].
  - exists ((before ++ [request] ++ after) ++ [SetTimeout (CheckPendingDispatches r)]
            ++ repeat (SetTimeout (CheckPendingDispatches r)) checks
            ++ reports ++ [called; SetTimeout (CheckPendingDispatches r)]).
    split; [|split].
    + rewrite Hw4, H3, H2. simpl. now rewrite <- !app_assoc.
    + rewrite !scripts_run_app, (hooks_no_scripts _ Hb), (hooks_no_scripts _ Ha),
        (hooks_no_scripts _ Hhooks), Hq1. reflexivity.
    + rewrite !callback_calls_app, Hb3, Ha3, Hh3, Hq2. reflexivity.
  - eexists. split; [rewrite H5; reflexivity|]. auto.
  - rewrite H5. reflexivity.
  - rewrite H5, Hw4, H3, H2. simpl. rewrite !list_insert_insert_eq.
    f_equal. subst back. destruct router; simpl in *. now subst.
Qed.

(** Three scripts on the router of the root target. *)
Lemma pending_scripts_run_in_order_witness :
  let w := @run plain_externals [NewTarget false None "" None]
             (initial_world plain_globals (Some 0%nat) ∅) in
  let w1 := @run plain_externals (map RunAfterPendingDispatches [4; 5; 6]%nat) w in
  let w2 := @run plain_externals (repeat Timer 3) w1 in
  (exists effects,
     World.log w2 = World.log w1 ++ effects /\ scripts_run effects = [4; 5; 6]%nat)
  /\ World.timers w2 = [].
Proof.
  intros w w1 w2.
  edestruct (@pending_scripts_run_in_order plain_externals w 0%nat) with (scripts := [4; 5; 6]%nat)
    as (_ & Hrun & _ & Htimers).
  - reflexivity.
  - vm_compute. reflexivity.
  - reflexivity.
  - reflexivity.
  - vm_compute. reflexivity.
  - split; [exact Hrun|exact Htimers].
Defined.

(** A script queued while [DOM.getDocument] is outstanding; the timer runs
    five times before the response comes. *)
Lemma pending_script_waits_for_response_witness :
  let w := @run plain_externals [NewTarget false None "" None]
             (initial_world plain_globals (Some 0%nat) ∅) in
  let response := response_message "" 1 JsNull in
  let w2 := @run plain_externals
              [SendMessage 0 "" "DOM" "DOM.getDocument" JsNull 7;
               RunAfterPendingDispatches 4] w in
  let w3 := @run plain_externals (repeat Timer 5) w2 in
  let w4 := @step plain_externals w3 (Receive 0 (Some response)) in
  let w5 := @run plain_externals [Timer; Timer] w4 in
  (exists effects, World.log w4 = World.log w ++ effects /\ scripts_run effects = [])
  /\ (exists effects,
        World.log w5 = World.log w4 ++ effects /\ scripts_run effects = [4%nat])
  /\ World.timers w5 = [].
Proof.
  intros w response w2 w3 w4 w5.
  edestruct (@pending_script_waits_for_response plain_externals w 0%nat)
    with (sessionId := "") (domain := "DOM") (method := "DOM.getDocument") (params := JsNull)
         (f := 7%nat) (script := 4%nat) (checks := 5%nat) (response := response)
    as ((before & Hlog4 & Hnone & _) & _ & (effects & Hlog5 & Hrun & _) & Htimers & _).
  - reflexivity.
  - vm_compute. reflexivity.
  - reflexivity.
  - reflexivity.
  - vm_compute. reflexivity.
  - vm_compute. reflexivity.
  - reflexivity.
  - reflexivity.
  - vm_compute. set_solver.
  - vm_compute. set_solver.
  - reflexivity.
  - reflexivity.
  - split; [exists before; split; [exact Hlog4|exact Hnone]|].
    split; [exists effects; split; [exact Hlog5|exact Hrun]|exact Htimers].
Defined.

(** ** The undo stack: undo and redo *)

Lemma the_stack_put this u : the_stack (put_stack this u) = this.
Proof. reflexivity. Qed.

Lemma the_stack_agent_call c waits u : the_stack (agent_call c waits u) = the_stack u.
Proof.
  unfold the_stack, DOMModelUndoStack_instance. simpl.
  destruct (Undo.DOMModelUndoStackInstance u); reflexivity.
Qed.

Lemma instance_fst u : fst (DOMModelUndoStack_instance u) = the_stack u.
Proof. reflexivity. Qed.

Lemma instance_snd u : the_stack (snd (DOMModelUndoStack_instance u)) = the_stack u.
Proof.
  unfold the_stack, DOMModelUndoStack_instance.
  destruct (Undo.DOMModelUndoStackInstance u) eqn:E; simpl; [now rewrite E|reflexivity].
Qed.

Lemma slice_to_length {A} (e : Z) (l : list A) :
  0 <= e <= Z.of_nat (length l) -> length (slice_to e l) = Z.to_nat e.
Proof.
  intros He. unfold slice_to. destruct (Z.ltb_spec e 0); [lia|].
  rewrite length_firstn. lia.
Qed.

(** One call of [markUndoableState], nested calls included. *)
Lemma mark_in_range depth model minorChange u u' :
  index_in_range u ->
  DOMModel_markUndoableState depth model minorChange u = Some u' ->
  index_in_range u'.
Proof.
  revert model minorChange u u'.
  induction depth as [|depth IH]; intros model minorChange u u' Hu; [discriminate|].
  cbn [DOMModel_markUndoableState].
  destruct (DOMModelUndoStack_instance u) as [this v] eqn:E.
  assert (Hthis : this = the_stack u) by (unfold the_stack; now rewrite E).
  assert (Hv : the_stack v = the_stack u).
  { rewrite <- (instance_snd u). now rewrite E. }
  assert (Hinv : index_in_range v) by (unfold index_in_range; now rewrite Hv).
  set (committed := match DOMModelUndoStack._lastModelWithMinorChange this with
                    | Some last => _
                    | None => _
                    end).
  assert (Hcommitted : forall this' v',
            committed = Some (this', v') ->
            0 <= DOMModelUndoStack._index this'
              <= Z.of_nat (length (DOMModelUndoStack._stack this'))).
  { subst committed. intros this' v'.
    destruct (DOMModelUndoStack._lastModelWithMinorChange this) as [last|].
    - destruct (negb (Nat.eqb model last)).
      + destruct (DOMModel_markUndoableState depth last None v) as [v0|] eqn:Hnested;
          [|discriminate].
        intros [= <- <-]. specialize (IH _ _ _ _ Hinv Hnested).
        unfold index_in_range, the_stack, DOMModelUndoStack_instance in IH.
        destruct (Undo.DOMModelUndoStackInstance v0); simpl in *; [exact IH|].
        rewrite Hthis. exact Hu.
      + intros [= <- <-]. rewrite Hthis. exact Hu.
    - intros [= <- <-]. rewrite Hthis. exact Hu. }
  destruct committed as [[this' v']|]; [|discriminate].
  specialize (Hcommitted _ _ eq_refl).
  destruct (default false minorChange && _).
  - intros [= <-]. exact Hcommitted.
  - assert (Hpushed : forall last,
              index_in_range
                (put_stack
                   {| DOMModelUndoStack._stack :=
                        slice_to (DOMModelUndoStack._index this')
                          (DOMModelUndoStack._stack this') ++ [model];
                      DOMModelUndoStack._index :=
                        Z.of_nat (length (slice_to (DOMModelUndoStack._index this')
                                            (DOMModelUndoStack._stack this') ++ [model]));
                      DOMModelUndoStack._lastModelWithMinorChange := last |} v')).
    { intros last. unfold index_in_range. rewrite the_stack_put. simpl. lia. }
    destruct (default false minorChange); intros [= <-]; apply Hpushed.
Qed.

Lemma undo_in_range u : index_in_range u -> index_in_range (DOMModelUndoStack_undo u).
Proof.
  intros Hu. unfold DOMModelUndoStack_undo.
  destruct (DOMModelUndoStack_instance u) as [this v] eqn:E.
  assert (Hthis : this = the_stack u) by (unfold the_stack; now rewrite E).
  assert (Hv : the_stack v = the_stack u) by (rewrite <- (instance_snd u); now rewrite E).
  destruct (Z.eqb_spec (DOMModelUndoStack._index this) 0).
  - unfold index_in_range. now rewrite Hv.
  - assert (Hnew : index_in_range
                     (put_stack (with_index (DOMModelUndoStack._index this - 1) this) v)).
    { unfold index_in_range. rewrite the_stack_put. simpl. subst this.
      unfold index_in_range in Hu. lia. }
    destruct (if _ <? 0 then None else _); [|exact Hnew]. exact Hnew.
Qed.

Lemma redo_in_range u : index_in_range u -> index_in_range (DOMModelUndoStack_redo u).
Proof.
  intros Hu. unfold DOMModelUndoStack_redo.
  destruct (DOMModelUndoStack_instance u) as [this v] eqn:E.
  assert (Hthis : this = the_stack u) by (unfold the_stack; now rewrite E).
  assert (Hv : the_stack v = the_stack u) by (rewrite <- (instance_snd u); now rewrite E).
  destruct (Z.leb_spec (Z.of_nat (length (DOMModelUndoStack._stack this)))
              (DOMModelUndoStack._index this)).
  - unfold index_in_range. now rewrite Hv.
  - assert (Hnew : index_in_range
                     (put_stack (with_index (DOMModelUndoStack._index this + 1) this) v)).
    { unfold index_in_range. rewrite the_stack_put. simpl. subst this.
      unfold index_in_range in Hu. lia. }
    destruct (if _ <? 0 then None else _); [|exact Hnew]. exact Hnew.
Qed.

Lemma resume_in_range u : index_in_range u -> index_in_range (resume_markUndoableState u).
Proof.
  intros Hu. unfold resume_markUndoableState. destruct (Undo.awaiting u); [exact Hu|].
  destruct (DOMModelUndoStack_instance u) as [this v] eqn:E.
  assert (Hthis : this = the_stack u) by (unfold the_stack; now rewrite E).
  unfold index_in_range, the_stack. simpl. subst this. exact Hu.
Qed.

(** X14. The index of the undo stack is always a position in the stack: from
    the empty stack, whatever edits are marked (minor or major, on whatever
    models), however often the user undoes and redoes, and whenever the
    awaited backend calls return, [0 <= _index <= _stack.length]. So [undo]
    and [redo] never reach outside the array. *)
Theorem undo_index_in_range (ops : list UndoOp) :
  let this := the_stack (undo_run ops undo_initial) in
  0 <= DOMModelUndoStack._index this
    <= Z.of_nat (length (DOMModelUndoStack._stack this)).
Proof.
  cbv zeta. change (index_in_range (undo_run ops undo_initial)).
  assert (Hinitial : index_in_range undo_initial) by (unfold index_in_range; simpl; lia).
  revert Hinitial. generalize undo_initial. unfold undo_run.
  induction ops as [|op ops IH]; intros u Hu; [exact Hu|].
  cbn [fold_left]. apply IH. destruct op; cbn [undo_step].
  - destruct (DOMModel_markUndoableState enough model (Some minorChange) u) as [u'|] eqn:E;
      [|exact Hu].
    exact (mark_in_range _ _ _ _ _ Hu E).
  - apply undo_in_range, Hu.
  - apply redo_in_range, Hu.
  - apply resume_in_range, Hu.
Qed.

Lemma instance_calls u : Undo.calls (snd (DOMModelUndoStack_instance u)) = Undo.calls u.
Proof.
  unfold DOMModelUndoStack_instance. destruct (Undo.DOMModelUndoStackInstance u); reflexivity.
Qed.

Lemma undo_at_start u :
  DOMModelUndoStack._index (the_stack u) = 0 ->
  the_stack (DOMModelUndoStack_undo u) = the_stack u
  /\ Undo.calls (DOMModelUndoStack_undo u) = Undo.calls u.
Proof.
  intros Hindex. unfold DOMModelUndoStack_undo.
  pose proof (instance_snd u) as Hsnd. pose proof (instance_calls u) as Hcalls.
  unfold the_stack in Hindex.
  destruct (DOMModelUndoStack_instance u) as [this v]. simpl in *.
  rewrite Hindex. simpl. unfold the_stack in *. auto.
Qed.

Lemma undo_one u model :
  0 < DOMModelUndoStack._index (the_stack u) ->
  DOMModelUndoStack._stack (the_stack u)
    !! Z.to_nat (DOMModelUndoStack._index (the_stack u) - 1) = Some model ->
  the_stack (DOMModelUndoStack_undo u)
  = with_index (DOMModelUndoStack._index (the_stack u) - 1) (the_stack u)
  /\ Undo.calls (DOMModelUndoStack_undo u) = Undo.calls u ++ [invoke_undo model].
Proof.
  intros Hindex Hmodel. unfold DOMModelUndoStack_undo.
  pose proof (instance_calls u) as Hcalls. unfold the_stack in *.
  destruct (DOMModelUndoStack_instance u) as [this v]. simpl in *.
  destruct (Z.eqb_spec (DOMModelUndoStack._index this) 0); [lia|].
  destruct (Z.ltb_spec (DOMModelUndoStack._index this - 1) 0); [lia|].
  rewrite Hmodel. simpl. now rewrite Hcalls.
Qed.

Lemma redo_at_end u :
  Z.of_nat (length (DOMModelUndoStack._stack (the_stack u)))
  <= DOMModelUndoStack._index (the_stack u) ->
  the_stack (DOMModelUndoStack_redo u) = the_stack u
  /\ Undo.calls (DOMModelUndoStack_redo u) = Undo.calls u.
Proof.
  intros Hindex. unfold DOMModelUndoStack_redo.
  pose proof (instance_snd u) as Hsnd. pose proof (instance_calls u) as Hcalls.
  unfold the_stack in Hindex.
  destruct (DOMModelUndoStack_instance u) as [this v]. simpl in *.
  destruct (Z.leb_spec (Z.of_nat (length (DOMModelUndoStack._stack this)))
              (DOMModelUndoStack._index this)); [|lia].
  unfold the_stack in *. auto.
Qed.

Lemma redo_one u model :
  0 <= DOMModelUndoStack._index (the_stack u) ->
  DOMModelUndoStack._stack (the_stack u)
    !! Z.to_nat (DOMModelUndoStack._index (the_stack u)) = Some model ->
  the_stack (DOMModelUndoStack_redo u)
  = with_index (DOMModelUndoStack._index (the_stack u) + 1) (the_stack u)
  /\ Undo.calls (DOMModelUndoStack_redo u) = Undo.calls u ++ [invoke_redo model].
Proof.
  intros Hindex Hmodel. unfold DOMModelUndoStack_redo.
  pose proof (instance_calls u) as Hcalls. unfold the_stack in *.
  destruct (DOMModelUndoStack_instance u) as [this v]. simpl in *.
  apply lookup_lt_Some in Hmodel as Hlt.
  destruct (Z.leb_spec (Z.of_nat (length (DOMModelUndoStack._stack this)))
              (DOMModelUndoStack._index this)); [lia|].
  replace (DOMModelUndoStack._index this + 1 - 1) with (DOMModelUndoStack._index this) by lia.
  destruct (Z.ltb_spec (DOMModelUndoStack._index this) 0); [lia|].
  rewrite Hmodel. simpl. now rewrite Hcalls.
Qed.

Lemma undo_run_snoc ops op u : undo_run (ops ++ [op]) u = undo_step (undo_run ops u) op.
Proof. unfold undo_run. now rewrite fold_left_app. Qed.

Lemma undo_run_cons op ops u : undo_run (op :: ops) u = undo_run ops (undo_step u op).
Proof. reflexivity. Qed.

Lemma repeat_snoc {A} (x : A) n : repeat x (S n) = repeat x n ++ [x].
Proof. induction n as [|n IH]; [reflexivity|]. simpl in *. now rewrite <- IH. Qed.

(** Undoing the entries before the index, last first. *)
Lemma undo_many done rest u :
  DOMModelUndoStack._stack (the_stack u) = done ++ rest ->
  DOMModelUndoStack._index (the_stack u) = Z.of_nat (length done) ->
  let u' := undo_run (repeat UndoLast (length done)) u in
  DOMModelUndoStack._stack (the_stack u') = done ++ rest
  /\ DOMModelUndoStack._index (the_stack u') = 0
  /\ Undo.calls u' = Undo.calls u ++ map invoke_undo (rev done).
Proof.
  revert rest u. induction done as [|model done IH] using rev_ind; intros rest u Hstack Hindex.
  - simpl. rewrite app_nil_r. auto.
  - rewrite length_app, Nat.add_comm. cbn [length Nat.add repeat].
    rewrite undo_run_cons. cbn [undo_step].
    rewrite length_app in Hindex. cbn [length] in Hindex.
    destruct (undo_one u model) as [Hthis Hcalls].
    + lia.
    + rewrite Hstack, Hindex. replace (Z.to_nat _) with (length done) by lia.
      rewrite <- app_assoc. cbn [app]. now apply list_lookup_middle.
    + destruct (IH (model :: rest) (DOMModelUndoStack_undo u)) as (H1 & H2 & H3).
      * rewrite Hthis. simpl. rewrite Hstack, <- app_assoc. reflexivity.
      * rewrite Hthis. simpl. lia.
      * cbv zeta. rewrite H1, H2, H3, Hcalls, rev_app_distr, <- !app_assoc. auto.
Qed.

(** Redoing the entries from the index on, first first. *)
Lemma redo_many done rest u :
  DOMModelUndoStack._stack (the_stack u) = done ++ rest ->
  DOMModelUndoStack._index (the_stack u) = Z.of_nat (length done) ->
  let u' := undo_run (repeat RedoNext (length rest)) u in
  DOMModelUndoStack._stack (the_stack u') = done ++ rest
  /\ DOMModelUndoStack._index (the_stack u') = Z.of_nat (length (done ++ rest))
  /\ Undo.calls u' = Undo.calls u ++ map invoke_redo rest.
Proof.
  revert done u. induction rest as [|model rest IH]; intros done u Hstack Hindex.
  - cbn [length repeat undo_run fold_left map]. rewrite app_nil_r in *.
    rewrite !app_nil_r. auto.
  - cbn [length repeat]. rewrite undo_run_cons. cbn [undo_step].
    destruct (redo_one u model) as [Hthis Hcalls].
    + lia.
    + rewrite Hstack, Hindex, Nat2Z.id. now apply list_lookup_middle.
    + destruct (IH (done ++ [model]) (DOMModelUndoStack_redo u)) as (H1 & H2 & H3).
      * rewrite Hthis. simpl. rewrite Hstack, <- app_assoc. reflexivity.
      * rewrite Hthis. simpl. rewrite length_app. simpl. lia.
      * cbv zeta. rewrite H1, H2, H3, Hcalls, <- !app_assoc. auto.
Qed.

Lemma undo_more n u :
  DOMModelUndoStack._index (the_stack u) = 0 ->
  let u' := undo_run (repeat UndoLast n) u in
  the_stack u' = the_stack u /\ Undo.calls u' = Undo.calls u.
Proof.
  revert u. induction n as [|n IH]; intros u Hindex; [auto|].
  cbn [repeat]. rewrite undo_run_cons. cbn [undo_step].
  destruct (undo_at_start u Hindex) as [Hthis Hcalls].
  destruct (IH (DOMModelUndoStack_undo u)) as [H1 H2]; [now rewrite Hthis|].
  cbv zeta. now rewrite H1, H2.
Qed.

Lemma redo_more n u :
  Z.of_nat (length (DOMModelUndoStack._stack (the_stack u)))
  <= DOMModelUndoStack._index (the_stack u) ->
  let u' := undo_run (repeat RedoNext n) u in
  the_stack u' = the_stack u /\ Undo.calls u' = Undo.calls u.
Proof.
  revert u. induction n as [|n IH]; intros u Hindex; [auto|].
  cbn [repeat]. rewrite undo_run_cons. cbn [undo_step].
  destruct (redo_at_end u Hindex) as [Hthis Hcalls].
  destruct (IH (DOMModelUndoStack_redo u)) as [H1 H2]; [now rewrite Hthis|].
  cbv zeta. now rewrite H1, H2.
Qed.

Lemma undo_run_app ops ops' u : undo_run (ops ++ ops') u = undo_run ops' (undo_run ops u).
Proof. unfold undo_run. apply fold_left_app. Qed.

(** X15. Undoing everything and redoing it. With the index at the end of a
    stack of [n] entries, [n] or more calls of [undo] call [invoke_undo] on
    the agents of the entries from the last to the first, once each, and
    stop at index 0: the calls beyond the [n]-th do nothing. As many calls
    of [redo] then call [invoke_redo] on the entries from the first to the
    last and bring the index back to the end. The stack itself is never
    changed by [undo] and [redo]. *)
Theorem undo_all_then_redo_all (u : Undo.t) (more : nat) :
  let this := the_stack u in
  let entries := DOMModelUndoStack._stack this in
  DOMModelUndoStack._index this = Z.of_nat (length entries) ->
  let n := (length entries + more)%nat in
  let u1 := undo_run (repeat UndoLast n) u in
  let u2 := undo_run (repeat RedoNext n) u1 in
  DOMModelUndoStack._stack (the_stack u1) = entries
  /\ DOMModelUndoStack._index (the_stack u1) = 0
  /\ Undo.calls u1 = Undo.calls u ++ map invoke_undo (rev entries)
  /\ DOMModelUndoStack._stack (the_stack u2) = entries
  /\ DOMModelUndoStack._index (the_stack u2) = Z.of_nat (length entries)
  /\ Undo.calls u2 = Undo.calls u1 ++ map invoke_redo entries.
Proof.
  intros this entries Hindex n u1 u2.
  destruct (undo_many entries [] u) as (Ha1 & Ha2 & Ha3).
  { now rewrite app_nil_r. }
  { exact Hindex. }
  cbv zeta in Ha1, Ha2, Ha3. rewrite app_nil_r in Ha1.
  set (ua := undo_run (repeat UndoLast (length entries)) u) in *.
  destruct (undo_more more ua Ha2) as [Hb1 Hb2]. cbv zeta in Hb1, Hb2.
  assert (Hu1 : u1 = undo_run (repeat UndoLast more) ua).
  { subst u1 n ua. now rewrite repeat_app, undo_run_app. }
  assert (H1 : the_stack u1 = the_stack ua) by now rewrite Hu1.
  assert (H1c : Undo.calls u1 = Undo.calls ua) by now rewrite Hu1.
  clearbody u1.
  destruct (redo_many [] entries u1) as (Hc1 & Hc2 & Hc3).
  { now rewrite H1. }
  { now rewrite H1. }
  cbv zeta in Hc1, Hc2, Hc3. simpl in Hc1, Hc2.
  set (uc := undo_run (repeat RedoNext (length entries)) u1) in *.
  destruct (redo_more more uc) as [Hd1 Hd2]; [rewrite Hc1, Hc2; lia|].
  cbv zeta in Hd1, Hd2.
  assert (Hu2 : u2 = undo_run (repeat RedoNext more) uc).
  { subst u2 n uc. now rewrite repeat_app, undo_run_app. }
  rewrite Hu2, Hd1, Hd2, H1, H1c.
  rewrite H1c in Hc3. repeat split; assumption.
Qed.

(** A stack of three entries, undone and redone with two calls to spare. *)
Lemma undo_all_then_redo_all_witness :
  let u := undo_run [Mark 1 false; Resume; Mark 2 false; Resume; Mark 1 false; Resume]
             undo_initial in
  let u1 := undo_run (repeat UndoLast 5) u in
  let u2 := undo_run (repeat RedoNext 5) u1 in
  DOMModelUndoStack._index (the_stack u1) = 0
  /\ Undo.calls u1 = Undo.calls u ++ [invoke_undo 1; invoke_undo 2; invoke_undo 1]
  /\ DOMModelUndoStack._index (the_stack u2) = 3
  /\ Undo.calls u2 = Undo.calls u1 ++ [invoke_redo 1; invoke_redo 2; invoke_redo 1].
Proof.
  intros u u1 u2.
  destruct (undo_all_then_redo_all u 2) as (_ & H1 & H2 & _ & H3 & H4).
  - reflexivity.
  - split; [exact H1|]. split; [exact H2|]. split; [exact H3|exact H4].
Defined.

(** ** The undo stack: edits *)

Lemma put_stack_same this u :
  Undo.DOMModelUndoStackInstance u = Some this -> put_stack this u = u.
Proof. intros Hu. unfold put_stack. rewrite <- Hu. now destruct u. Qed.

(** After a minor edit of a model the stack remembers the model. *)
Lemma minor_mark_last depth model u u' :
  DOMModel_markUndoableState depth model (Some true) u = Some u' ->
  exists this,
    Undo.DOMModelUndoStackInstance u' = Some this
    /\ DOMModelUndoStack._lastModelWithMinorChange this = Some model.
Proof.
  destruct depth as [|depth]; [discriminate|]. cbn [DOMModel_markUndoableState].
  destruct (DOMModelUndoStack_instance u) as [this v].
  match goal with |- match ?c with _ => _ end = _ -> _ => destruct c as [[this' v']|] end;
    [|discriminate].
  cbn [default andb].
  destruct (bool_decide (DOMModelUndoStack._lastModelWithMinorChange this' = Some model))
    eqn:Hlast.
  - intros [= <-]. exists this'. split; [reflexivity|]. now apply bool_decide_eq_true in Hlast.
  - intros [= <-]. eexists. split; reflexivity.
Qed.

(** A minor edit of the model of the last minor edit changes nothing. *)
Lemma minor_mark_again depth model u this :
  Undo.DOMModelUndoStackInstance u = Some this ->
  DOMModelUndoStack._lastModelWithMinorChange this = Some model ->
  DOMModel_markUndoableState (S depth) model (Some true) u = Some u.
Proof.
  intros Hu Hlast. cbn [DOMModel_markUndoableState]. unfold DOMModelUndoStack_instance.
  rewrite Hu, Hlast, Nat.eqb_refl. cbn [negb default andb].
  rewrite bool_decide_eq_true_2 by exact Hlast. now rewrite put_stack_same.
Qed.

(** X16. Minor edits are coalesced: any number of consecutive minor
    [markUndoableState] calls on one model leaves the undo stack, and what
    has been sent to the backend, exactly as the first of them does. This
    holds from every state of the stack. *)
Theorem minor_edits_coalesce (u : Undo.t) (model n : nat) :
  mark_all (repeat (model, true) (S n)) u = mark_all [(model, true)] u.
Proof.
  cbn [repeat mark_all].
  destruct (DOMModel_markUndoableState enough model (Some true) u) as [u1|] eqn:Hfirst;
    [|reflexivity].
  destruct (minor_mark_last _ _ _ _ Hfirst) as (this & Hthis & Hlast).
  clear Hfirst. induction n as [|n IH]; [reflexivity|].
  cbn [repeat mark_all]. unfold enough.
  rewrite (minor_mark_again 1 model u1 this Hthis Hlast). exact IH.
Qed.

Lemma mark_fresh model minorChange u :
  DOMModelUndoStack._lastModelWithMinorChange (the_stack u) = None ->
  exists u',
    DOMModel_markUndoableState enough model (Some minorChange) u = Some u'
    /\ DOMModelUndoStack._stack (the_stack u')
       = slice_to (DOMModelUndoStack._index (the_stack u))
           (DOMModelUndoStack._stack (the_stack u)) ++ [model]
    /\ DOMModelUndoStack._index (the_stack u')
       = Z.of_nat (length (DOMModelUndoStack._stack (the_stack u')))
    /\ Undo.calls u'
       = Undo.calls u ++ (if minorChange then [] else [invoke_markUndoableState model]).
Proof.
  intros Hlast. unfold enough. cbn [DOMModel_markUndoableState default].
  pose proof (instance_calls u) as Hcalls. unfold the_stack in *.
  destruct (DOMModelUndoStack_instance u) as [this v]. simpl in *.
  rewrite Hlast. cbv iota beta.
  rewrite (bool_decide_eq_false_2 (DOMModelUndoStack._lastModelWithMinorChange this
                                   = Some model)) by (rewrite Hlast; discriminate).
  rewrite andb_false_r.
  destruct minorChange; eexists; (split; [reflexivity|]); simpl; rewrite Hcalls.
  - now rewrite app_nil_r.
  - auto.
Qed.

(** X17. An edit after an undo discards what could be redone. After [undo]
    has moved the index back by one, the next [markUndoableState] (minor or
    major) cuts the stack at the index and pushes its model, so the stack is
    the entries before the undone one followed by the new model, with the
    index at the end; a [redo] after that does nothing. Only a major edit is
    reported to the backend at once. *)
Theorem edit_after_undo_discards_redo (u : Undo.t) (model : nat) (minorChange : bool) :
  let this := the_stack u in
  0 < DOMModelUndoStack._index this <= Z.of_nat (length (DOMModelUndoStack._stack this)) ->
  let kept := Z.to_nat (DOMModelUndoStack._index this - 1) in
  let u2 := undo_run [UndoLast; Mark model minorChange] u in
  let u3 := undo_step u2 RedoNext in
  DOMModelUndoStack._stack (the_stack u2)
  = firstn kept (DOMModelUndoStack._stack this) ++ [model]
  /\ DOMModelUndoStack._index (the_stack u2) = Z.of_nat (S kept)
  /\ (exists undone,
        DOMModelUndoStack._stack this !! kept = Some undone
        /\ Undo.calls u2
           = Undo.calls u ++ invoke_undo undone
               :: (if minorChange then [] else [invoke_markUndoableState model]))
  /\ the_stack u3 = the_stack u2
  /\ Undo.calls u3 = Undo.calls u2.
Proof.
  intros this Hindex kept u2 u3.
  assert (Hlt : (kept < length (DOMModelUndoStack._stack this))%nat) by (subst kept; lia).
  destruct (lookup_lt_is_Some_2 _ _ Hlt) as [undone Hundone].
  destruct (undo_one u undone) as [H1 H1c]; [fold this; lia|exact Hundone|].
  fold this in H1.
  destruct (mark_fresh model minorChange (DOMModelUndoStack_undo u))
    as (u' & Hmark & Hstack & Hidx & Hcalls).
  { now rewrite H1. }
  assert (Hu2 : u2 = u').
  { subst u2. unfold undo_run. cbn [fold_left undo_step]. now rewrite Hmark. }
  rewrite H1 in Hstack. cbn [with_index DOMModelUndoStack._stack DOMModelUndoStack._index]
    in Hstack.
  assert (Hslice : slice_to (DOMModelUndoStack._index this - 1)
                     (DOMModelUndoStack._stack this)
                   = firstn kept (DOMModelUndoStack._stack this)).
  { unfold slice_to. destruct (Z.ltb_spec (DOMModelUndoStack._index this - 1) 0); [lia|].
    reflexivity. }
  rewrite Hslice in Hstack.
  assert (Hlen : length (DOMModelUndoStack._stack (the_stack u')) = S kept).
  { rewrite Hstack, length_app, length_firstn. simpl. lia. }
  destruct (redo_at_end u') as [H3 H3c]; [rewrite Hidx; lia|].
  subst u3. rewrite Hu2. cbn [undo_step].
  split; [exact Hstack|]. split; [now rewrite Hidx, Hlen|]. split; [|split; assumption].
  exists undone. split; [exact Hundone|]. rewrite Hcalls, H1c, <- app_assoc. reflexivity.
Qed.

(** Three entries, one undone, then an edit of a fourth model. *)
Lemma edit_after_undo_discards_redo_witness :
  let u := undo_run [Mark 1 false; Resume; Mark 2 false; Resume; Mark 3 false; Resume]
             undo_initial in
  let u2 := undo_run [UndoLast; Mark 4 false] u in
  DOMModelUndoStack._stack (the_stack u2) = [1; 2; 4]%nat
  /\ DOMModelUndoStack._index (the_stack u2) = 3
  /\ Undo.calls (undo_step u2 RedoNext) = Undo.calls u2.
Proof.
  intros u u2.
  destruct (edit_after_undo_discards_redo u 4 false) as (H1 & H2 & _ & _ & H3).
  - vm_compute. split; [reflexivity|discriminate].
  - split; [exact H1|]. split; [exact H2|exact H3].
Defined.

(** ** The attributes of a DOM node *)

Lemma map_get_None_keys {K V} `{EqDecision K} (k : K) (m : list (K * V)) :
  map_get k m = None <-> k ∉ map fst m.
Proof.
  induction m as [|[k' v'] m IH]; simpl.
  - split; [intros _; apply not_elem_of_nil|reflexivity].
  - rewrite not_elem_of_cons. destruct (decide (k' = k)) as [->|Hne].
    + split; [discriminate|intros [? _]; congruence].
    + rewrite IH. split; [intros ?; split; congruence|tauto].
Qed.

Lemma map_set_fresh {K V} `{EqDecision K} (k : K) (v : V) m :
  k ∉ map fst m -> map_set k v m = m ++ [(k, v)].
Proof.
  induction m as [|[k' v'] m IH]; simpl; [reflexivity|].
  intros Hfresh. apply not_elem_of_cons in Hfresh as [Hne Hfresh].
  destruct (decide (k' = k)); [congruence|]. now rewrite IH.
Qed.

Lemma map_set_NoDup {K V} `{EqDecision K} (k : K) (v : V) m :
  NoDup (map fst m) -> NoDup (map fst (map_set k v m)).
Proof.
  intros Hm. destruct (map_get k m) as [v0|] eqn:Hget.
  - rewrite map_set_keys; [exact Hm|congruence].
  - apply map_get_None_keys in Hget. rewrite (map_set_fresh _ _ _ Hget), map_app.
    apply NoDup_app. split; [exact Hm|]. split; [|apply NoDup_singleton].
    intros x Hx Hx'. simpl in Hx'. apply list_elem_of_singleton in Hx'. now subst.
Qed.

(** The attributes the loop has made after the pairs of a payload. *)
Lemma payload_loop_attributes this old pairs changed m :
  snd (payload_loop this old (attributes_payload pairs) (changed, m))
  = fold_left (fun m pair => DOMNode_addAttribute this (fst pair) (Some (snd pair)) m) pairs m.
Proof.
  revert changed m. induction pairs as [|[name value] pairs IH]; intros changed m;
    [reflexivity|].
  cbn [attributes_payload flat_map app fst snd payload_loop fold_left].
  fold (attributes_payload pairs). unfold payload_round at 1.
  destruct changed; [apply IH|].
  destruct (map_get name old); apply IH.
Qed.

(** A pair of the payload differs from the old attributes. *)
Lemma payload_loop_changed this old pairs changed m :
  fst (payload_loop this old (attributes_payload pairs) (changed, m))
  = changed
    || existsb (fun pair =>
                  match map_get (fst pair) old with
                  | None => true
                  | Some oldAttribute =>
                      negb (bool_decide (Attribute.value oldAttribute = Some (snd pair)))
                  end) pairs.
Proof.
  revert changed m. induction pairs as [|[name value] pairs IH]; intros changed m.
  - simpl. now rewrite orb_false_r.
  - cbn [attributes_payload flat_map app fst snd payload_loop existsb].
    fold (attributes_payload pairs). unfold payload_round at 1.
    destruct changed; [now rewrite IH|].
    destruct (map_get name old); rewrite IH; reflexivity.
Qed.

Lemma fold_attributes_snoc this pairs pair m :
  fold_left (fun m pair => DOMNode_addAttribute this (fst pair) (Some (snd pair)) m)
    (pairs ++ [pair]) m
  = DOMNode_addAttribute this (fst pair) (Some (snd pair))
      (fold_left (fun m pair => DOMNode_addAttribute this (fst pair) (Some (snd pair)) m)
         pairs m).
Proof. now rewrite fold_left_app. Qed.

Lemma fold_attributes_get this pairs name :
  map_get name
    (fold_left (fun m pair => DOMNode_addAttribute this (fst pair) (Some (snd pair)) m)
       pairs [])
  = (fun pair => {| Attribute.name := name; Attribute.value := Some (snd pair);
                    Attribute._node := this |})
      <$> List.find (fun pair => String.eqb (fst pair) name) (rev pairs).
Proof.
  induction pairs as [|[n v] pairs IH] using rev_ind; [reflexivity|].
  rewrite fold_attributes_snoc, rev_app_distr. cbn [rev app List.find fst snd].
  unfold DOMNode_addAttribute. destruct (String.eqb_spec n name) as [->|Hne].
  - now rewrite map_get_set_eq.
  - rewrite map_get_set_ne by congruence. exact IH.
Qed.

Lemma fold_attributes_NoDup this pairs :
  NoDup (map fst
           (fold_left (fun m pair => DOMNode_addAttribute this (fst pair) (Some (snd pair)) m)
              pairs [])).
Proof.
  induction pairs as [|pair pairs IH] using rev_ind; [apply NoDup_nil_2|].
  rewrite fold_attributes_snoc. apply map_set_NoDup, IH.
Qed.

Lemma map_set_Forall {K V} `{EqDecision K} (P : K * V -> Prop) (k : K) (v : V) m :
  Forall P m -> P (k, v) -> Forall P (map_set k v m).
Proof.
  intros Hm Hp. induction Hm as [|[k' v'] m Hhead Hm IH]; simpl.
  - constructor; [exact Hp|constructor].
  - destruct (decide (k' = k)) as [->|Hne]; constructor; assumption.
Qed.

(** X18. The attributes after [_setAttributesPayload]. For a payload of
    names and values the node has exactly the attributes of the payload,
    whatever it had before: [getAttribute(name)] is the value of the last
    pair of the payload with that name, and [undefined] for a name the
    payload does not have. Each attribute refers to the node, no name
    occurs twice in [attributes()], and [hasAttributes()] holds exactly
    when the payload is not empty. *)
Theorem setAttributesPayload_lookup (this : nat) (pairs : list (string * string))
    (old : Attributes) (name : string) :
  let new := snd (DOMNode_setAttributesPayload this (attributes_payload pairs) old) in
  DOMNode_getAttribute name new
  = snd <$> List.find (fun pair => String.eqb (fst pair) name) (rev pairs)
  /\ NoDup (map Attribute.name (DOMNode_attributes new))
  /\ Forall (fun attr => Attribute._node attr = this) (DOMNode_attributes new)
  /\ (DOMNode_hasAttributes new = true <-> pairs <> []).
Proof.
  intros new. subst new. unfold DOMNode_setAttributesPayload.
  rewrite payload_loop_attributes.
  match goal with |- context [fold_left ?f pairs []] => set (new := fold_left f pairs []) end.
  assert (Hentries : Forall (fun entry => Attribute.name (snd entry) = fst entry
                                          /\ Attribute._node (snd entry) = this) new).
  { subst new. induction pairs as [|pair pairs IH] using rev_ind; [constructor|].
    rewrite fold_attributes_snoc. unfold DOMNode_addAttribute.
    apply map_set_Forall; [exact IH|]. split; reflexivity. }
  split; [|split; [|split]].
  - unfold DOMNode_getAttribute. subst new. rewrite fold_attributes_get.
    destruct (List.find _ (rev pairs)); reflexivity.
  - unfold DOMNode_attributes, map_values. rewrite map_map.
    replace (map (fun x => Attribute.name (snd x)) new) with (map fst new).
    + apply fold_attributes_NoDup.
    + clear -Hentries. induction Hentries as [|entry m [Hn _] _ IH]; [reflexivity|].
      simpl. now rewrite Hn, IH.
  - unfold DOMNode_attributes, map_values. apply Forall_map.
    eapply Forall_impl; [exact Hentries|]. intros entry [_ Hnode]. exact Hnode.
  - unfold DOMNode_hasAttributes. subst new.
    destruct pairs as [|pair pairs] using rev_ind.
    + simpl. split; [discriminate|congruence].
    + rewrite fold_attributes_snoc. unfold DOMNode_addAttribute.
      match goal with |- context [fold_left ?f pairs []] =>
        set (m := fold_left f pairs []) end.
      split; [intros _; now destruct pairs|intros _].
      apply Z.ltb_lt. destruct m as [|[k a] m]; simpl; [lia|].
      destruct (decide (k = fst pair)); simpl; lia.
Qed.

Lemma elem_of_rev {A} (x : A) (l : list A) : x ∈ rev l <-> x ∈ l.
Proof. rewrite !list_elem_of_In. symmetry. apply in_rev. Qed.

Lemma find_name_None (pairs : list (string * string)) name :
  List.find (fun pair => String.eqb (fst pair) name) pairs = None <-> name ∉ map fst pairs.
Proof.
  induction pairs as [|[n v] pairs IH]; simpl.
  - split; [intros _; apply not_elem_of_nil|reflexivity].
  - rewrite not_elem_of_cons. destruct (String.eqb_spec n name) as [->|Hne].
    + split; [discriminate|intros [? _]; congruence].
    + rewrite IH. split; [intros ?; split; congruence|tauto].
Qed.

Lemma find_name_Some (pairs : list (string * string)) name pair :
  List.find (fun pair => String.eqb (fst pair) name) pairs = Some pair ->
  pair ∈ pairs /\ fst pair = name.
Proof.
  intros Hfind. apply find_some in Hfind as [Hin Heq].
  split; [now apply list_elem_of_In|]. now apply String.eqb_eq.
Qed.

Lemma find_name_unique (pairs : list (string * string)) pair :
  NoDup (map fst pairs) -> pair ∈ pairs ->
  List.find (fun p => String.eqb (fst p) (fst pair)) pairs = Some pair.
Proof.
  induction pairs as [|[n v] pairs IH]; simpl; intros Hnodup Hin.
  - now apply elem_of_nil in Hin.
  - apply NoDup_cons in Hnodup as [Hfresh Hnodup].
    apply elem_of_cons in Hin as [->|Hin].
    + simpl. now rewrite String.eqb_refl.
    + destruct (String.eqb_spec n (fst pair)) as [->|Hne]; [|now apply IH].
      exfalso. apply Hfresh. apply list_elem_of_fmap. now exists pair.
Qed.

Lemma value_of_new this pairs name :
  value_of name
    (fold_left (fun m pair => DOMNode_addAttribute this (fst pair) (Some (snd pair)) m)
       pairs [])
  = (fun pair => Some (snd pair))
      <$> List.find (fun pair => String.eqb (fst pair) name) (rev pairs).
Proof.
  unfold value_of. rewrite fold_attributes_get.
  destruct (List.find _ (rev pairs)); reflexivity.
Qed.

Lemma payload_length pairs : length (attributes_payload pairs) = (2 * length pairs)%nat.
Proof. induction pairs as [|pair pairs IH]; simpl; [reflexivity|]. rewrite IH. lia. Qed.

Lemma value_of_keys name (m : Attributes) : value_of name m = None <-> name ∉ map fst m.
Proof.
  unfold value_of. rewrite <- map_get_None_keys. destruct (map_get name m); simpl; [|tauto].
  split; discriminate.
Qed.

(** X19. What [_setAttributesPayload] returns. For a payload in which no
    name occurs twice (and a map of attributes that, as a [Map], has each
    name once), the function returns [true] exactly when the attributes
    have changed: it returns [false] if and only if every name has the same
    value (or no value) after the call as before it. *)
Theorem setAttributesPayload_detects_change (this : nat) (pairs : list (string * string))
    (old : Attributes) :
  NoDup (map fst pairs) ->
  NoDup (map fst old) ->
  let result := DOMNode_setAttributesPayload this (attributes_payload pairs) old in
  fst result = false <-> forall name, value_of name (snd result) = value_of name old.
Proof.
  intros Hpairs Hold result. subst result. unfold DOMNode_setAttributesPayload.
  rewrite payload_loop_changed, payload_loop_attributes, payload_length.
  set (differs := fun pair : string * string =>
                    match map_get (fst pair) old with
                    | None => true
                    | Some oldAttribute =>
                        negb (bool_decide (Attribute.value oldAttribute = Some (snd pair)))
                    end).
  assert (Hrev : NoDup (map fst (rev pairs))).
  { rewrite map_rev, <- Permutation_rev. exact Hpairs. }
  assert (Hsame : forall pair,
            differs pair = false <-> value_of (fst pair) old = Some (Some (snd pair))).
  { intros pair. subst differs. unfold value_of. cbv beta.
    destruct (map_get (fst pair) old) as [a|]; simpl; [|split; discriminate].
    rewrite negb_false_iff, bool_decide_eq_true. split; congruence. }
  rewrite orb_false_iff, negb_false_iff, Z.eqb_eq. split.
  - intros [Hlength Hnone] name. rewrite value_of_new.
    assert (Hall : forall pair, pair ∈ pairs ->
              value_of (fst pair) old = Some (Some (snd pair))).
    { intros pair Hin. apply Hsame.
      destruct (differs pair) eqn:Hd; [|reflexivity].
      assert (Hex : existsb differs pairs = true).
      { apply existsb_exists. exists pair. split; [now apply list_elem_of_In|exact Hd]. }
      congruence. }
    destruct (List.find _ (rev pairs)) as [pair|] eqn:Hfind.
    + apply find_name_Some in Hfind as [Hin <-]. rewrite elem_of_rev in Hin.
      simpl. symmetry. now apply Hall.
    + simpl. symmetry. apply value_of_keys.
      apply find_name_None in Hfind. rewrite map_rev, elem_of_rev in Hfind.
      intros Hin. apply Hfind.
      assert (Hsub : map fst pairs ⊆+ map fst old).
      { apply NoDup_submseteq; [exact Hpairs|]. intros n Hn.
        apply list_elem_of_fmap in Hn as (pair & -> & Hpair).
        destruct (decide (fst pair ∈ map fst old)) as [|Hnot]; [assumption|].
        apply value_of_keys in Hnot. rewrite (Hall pair Hpair) in Hnot. discriminate. }
      apply submseteq_length_Permutation in Hsub; [|rewrite !length_map; lia].
      now rewrite Hsub.
  - intros Hequal.
    assert (Hnew : forall pair, pair ∈ pairs ->
              value_of (fst pair) old = Some (Some (snd pair))).
    { intros pair Hin. rewrite <- Hequal, value_of_new.
      rewrite (find_name_unique (rev pairs) pair Hrev); [reflexivity|].
      now apply elem_of_rev. }
    split.
    + assert (Hperm : map fst pairs ≡ₚ map fst old).
      { apply NoDup_Permutation; [exact Hpairs|exact Hold|]. intros n. split.
        - intros Hn. apply list_elem_of_fmap in Hn as (pair & -> & Hpair).
          destruct (decide (fst pair ∈ map fst old)) as [|Hnot]; [assumption|].
          apply value_of_keys in Hnot. rewrite (Hnew pair Hpair) in Hnot. discriminate.
        - intros Hn. destruct (decide (n ∈ map fst pairs)) as [|Hnot]; [assumption|].
          exfalso. revert Hn. apply value_of_keys. rewrite <- Hequal, value_of_new.
          replace (List.find _ (rev pairs)) with (@None (string * string)); [reflexivity|].
          symmetry. apply find_name_None. now rewrite map_rev, elem_of_rev. }
      apply Permutation_length in Hperm. rewrite !length_map in Hperm. lia.
    + destruct (existsb differs pairs) eqn:Hex; [|reflexivity].
      apply existsb_exists in Hex as (pair & Hin & Hd).
      apply list_elem_of_In in Hin. apply Hnew, Hsame in Hin. congruence.
Qed.

(** The payload [class="a" id="b"] for a node that had these attributes in
    the other order. *)
Lemma setAttributesPayload_detects_change_witness :
  let before := snd (DOMNode_setAttributesPayload 1 ["id"; "b"; "class"; "a"] []) in
  fst (DOMNode_setAttributesPayload 1 (attributes_payload [("class", "a"); ("id", "b")])
         before) = false.
Proof.
  intros before.
  apply (setAttributesPayload_detects_change 1 [("class", "a"); ("id", "b")] before).
  - apply (bool_decide_unpack _). vm_compute. exact I.
  - apply (bool_decide_unpack _). vm_compute. exact I.
  - intros name.
    destruct (String.eqb_spec name "class") as [->|Hclass]; [reflexivity|].
    destruct (String.eqb_spec name "id") as [->|Hid]; [reflexivity|].
    unfold value_of. simpl.
    destruct (decide ("class" = name)); [congruence|].
    destruct (decide ("id" = name)); [congruence|]. reflexivity.
Defined.

(** X20. [_setAttribute] changes an attribute where it is. After
    [_setAttribute(name, value)], [getAttribute(name)] is [value], every
    other name has the attribute it had, and the names are in the order
    they were in, with [name] added at the end if it was not there. *)
Theorem setAttribute_in_place (this : nat) (name value : string) (old : Attributes) :
  let new := DOMNode_setAttribute this name value old in
  DOMNode_getAttribute name new = Some value
  /\ (forall other, other <> name -> map_get other new = map_get other old)
  /\ map fst new
     = match map_get name old with
       | Some _ => map fst old
       | None => map fst old ++ [name]
       end.
Proof.
  intros new. subst new. unfold DOMNode_setAttribute, DOMNode_getAttribute.
  destruct (map_get name old) as [attr|] eqn:Hget; unfold DOMNode_addAttribute.
  - rewrite map_get_set_eq. split; [reflexivity|]. split.
    + intros other Hne. now apply map_get_set_ne.
    + apply map_set_keys. congruence.
  - rewrite map_get_set_eq. split; [reflexivity|]. split.
    + intros other Hne. now apply map_get_set_ne.
    + apply map_get_None_keys in Hget. rewrite (map_set_fresh _ _ _ Hget), map_app.
      reflexivity.
Qed.

(** X21. [_removeAttribute] undoes [_setAttribute] of a new name: for a name
    the node has no attribute of, setting it and removing it again leaves
    the attributes as they were. *)
Theorem removeAttribute_undoes_setAttribute (this : nat) (name value : string)
    (old : Attributes) :
  map_get name old = None ->
  DOMNode_removeAttribute name (DOMNode_setAttribute this name value old) = old.
Proof.
  intros Hget. unfold DOMNode_removeAttribute, DOMNode_setAttribute. rewrite Hget.
  unfold DOMNode_addAttribute. rewrite map_delete_set. now apply map_delete_absent.
Qed.

(** The name [id] for a node that has a [class]. *)
Lemma removeAttribute_undoes_setAttribute_witness :
  let old := DOMNode_addAttribute 1 "class" (Some "a") [] in
  DOMNode_removeAttribute "id" (DOMNode_setAttribute 1 "id" "b" old) = old.
Proof.
  intros old. apply (removeAttribute_undoes_setAttribute 1 "id" "b" old). reflexivity.
Defined.

(** ** A connection that goes away *)

Lemma map_get_delete_ne {K V} `{EqDecision K} (k k' : K) (m : list (K * V)) :
  k' <> k -> map_get k' (map_delete k m) = map_get k' m.
Proof.
  intros Hne. induction m as [|[k0 v0] m IH]; simpl; [reflexivity|].
  destruct (decide (k0 = k)) as [->|Hne0]; simpl.
  - destruct (decide (k = k')); congruence.
  - destruct (decide (k0 = k')); congruence.
Qed.

(** X22. The connection of a router is closed. The handler the router has
    given to the connection disposes the target of the session [""]: that
    session is taken off the router, the target loses its router, and for
    each call that waits on that session a timer is set that fails it with
    "Session is unregistering, ..." (code -32001). The sessions of other
    ids stay on the router with the callbacks they have: nothing fails
    their pending calls. A second notice from the connection does
    nothing. *)
Theorem disconnect_disposes_main_target `{Externals} (w : World.t) (r : nat)
    (router : SessionRouter.t) (session : Session.t) (t : TargetBase.t) :
  World.routers w !! r = Some router ->
  map_get "" (SessionRouter._sessions router) = Some session ->
  World.targets w !! Session.target session = Some t ->
  TargetBase._router t = Some r ->
  TargetBase._sessionId t = "" ->
  NoDup (map fst (SessionRouter._sessions router)) ->
  let w1 := step w (Disconnect r) in
  World.targets w1
  = <[Session.target session := target_with_router None t]> (World.targets w)
  /\ (exists router',
        World.routers w1 = <[r := router']> (World.routers w)
        /\ map_get "" (SessionRouter._sessions router') = None
        /\ (forall sessionId,
              sessionId <> "" ->
              map_get sessionId (SessionRouter._sessions router')
              = map_get sessionId (SessionRouter._sessions router))
        /\ SessionRouter._pendingResponsesCount router'
           = SessionRouter._pendingResponsesCount router)
  /\ World.timers w1
     = World.timers w
       ++ map (fun entry =>
                 CallLater (CallbackWithDebugInfo.callback entry)
                   (unregistering_error (CallbackWithDebugInfo.method entry)))
            (map_values (Session.callbacks session))
  /\ sent_messages (World.log w1) = sent_messages (World.log w)
  /\ step w1 (Disconnect r) = w1.
Proof.
  intros Hr Hs Ht Hrouter Hid Hnodup w1.
  set (pending := map_values (Session.callbacks session)).
  set (gone := router_with_sessions (map_delete "" (SessionRouter._sessions router)) router).
  assert (H1 : w1 = put_target (Session.target session) (target_with_router None t)
                      (emit (map dispatchUnregisterSessionError pending)
                         (put_router r gone w))).
  { subst w1. cbn [step]. unfold SessionRouter_onDisconnect. rewrite Hr, Hs.
    unfold TargetBase_dispose. rewrite Ht, Hrouter, Hid.
    unfold World_unregisterSession, SessionRouter_unregisterSession.
    now rewrite Hr, Hs. }
  clearbody w1.
  assert (Hscheduled : scheduled (map dispatchUnregisterSessionError pending)
                       = map (fun entry =>
                                CallLater (CallbackWithDebugInfo.callback entry)
                                  (unregistering_error (CallbackWithDebugInfo.method entry)))
                           pending).
  { clear. induction pending as [|entry pending IH]; simpl; [reflexivity|]. now rewrite IH. }
  assert (Hquiet : sent_messages (map dispatchUnregisterSessionError pending) = []).
  { clear. induction pending as [|entry pending IH]; simpl; auto. }
  assert (Hgone : map_get "" (SessionRouter._sessions gone) = None).
  { subst gone. destruct router. simpl in *. now apply map_get_delete_eq. }
  split; [rewrite H1; reflexivity|]. split; [|split; [|split]].
  - exists gone. split; [rewrite H1; reflexivity|]. split; [exact Hgone|].
    split; [|now destruct router].
    intros sessionId Hne. subst gone. destruct router. simpl. now apply map_get_delete_ne.
  - rewrite H1. simpl. now rewrite Hscheduled.
  - rewrite H1. simpl. now rewrite sent_messages_app, Hquiet, app_nil_r.
  - cbn [step]. unfold SessionRouter_onDisconnect.
    replace (World.routers w1 !! r) with (Some gone).
    + now rewrite Hgone.
    + rewrite H1. simpl. symmetry. apply list_lookup_insert_eq. eapply lookup_lt_Some.
      exact Hr.
Qed.

(** The root target, a child with the session ["s1"], and a request that
    waits on each of them. *)
Lemma disconnect_disposes_main_target_witness :
  let w := @run plain_externals
             [NewTarget false None "" None; NewTarget false (Some 0%nat) "s1" None;
              SendMessage 0 "" "DOM" "DOM.enable" JsUndefined 7;
              SendMessage 0 "s1" "DOM" "DOM.enable" JsUndefined 8]
             (initial_world plain_globals (Some 0%nat) ∅) in
  let w1 := @step plain_externals w (Disconnect 0) in
  World.timers w1
  = [CallLater (ExternalCallback 7) (unregistering_error "DOM.enable")]
  /\ @step plain_externals w1 (Disconnect 0) = w1.
Proof.
  intros w w1.
  edestruct (@disconnect_disposes_main_target plain_externals w 0%nat)
    as (_ & _ & Htimers & _ & Hagain).
  - vm_compute. reflexivity.
  - vm_compute. reflexivity.
  - vm_compute. reflexivity.
  - reflexivity.
  - reflexivity.
  - apply (bool_decide_unpack _). vm_compute. exact I.
  - unfold w1. split; [|exact Hagain]. rewrite Htimers. vm_compute. reflexivity.
Defined.

(** ** Qualified names, the other way round *)

Lemma before_first_append separator domain rest :
  occurrences separator domain = 0%nat ->
  before_first separator (domain +:+ String separator rest) = domain
  /\ after_first separator (domain +:+ String separator rest) = rest
  /\ (0 < occurrences separator (domain +:+ String separator rest))%nat.
Proof.
  induction domain as [|c domain IH]; simpl.
  - intros _. rewrite Ascii.eqb_refl. repeat split. simpl. lia.
  - destruct (Ascii.eqb c separator); [discriminate|]. intros Hnone.
    destruct (IH Hnone) as (-> & -> & Hsome). repeat split. exact Hsome.
Qed.

(** X23. [splitQualifiedName] undoes [qualifyName]: for a domain and a name
    without a dot, the qualified name is split into the two again. *)
Theorem splitQualifiedName_qualifyName (domain name : string) :
  occurrences "." domain = 0%nat ->
  occurrences "." name = 0%nat ->
  splitQualifiedName (qualifyName domain name) = (domain, Some name).
Proof.
  intros Hdomain Hname. unfold qualifyName.
  destruct (before_first_append "." domain name Hdomain) as (Hbefore & Hafter & Hsome).
  change ("." +:+ name) with (String "." name).
  rewrite (splitQualifiedName_dotted _ Hsome), Hbefore, Hafter.
  now rewrite (before_first_all "." name Hname).
Qed.

Lemma splitQualifiedName_qualifyName_witness :
  splitQualifiedName (qualifyName "DOM" "getBoxModel") = ("DOM", Some "getBoxModel").
Proof. exact (splitQualifiedName_qualifyName "DOM" "getBoxModel" eq_refl eq_refl). Defined.
